(** * Trends engine of [rally/task/processing/plot.py]

    A shallow embedding of the class [Trends] (methods [_to_str],
    [_make_hash], [add_result], [get_data]) together with the Python
    builtins these methods call, followed by the properties of the
    grouping-and-statistics engine.  The functions [_process_scenario]
    and [_process_tasks] of the same file, which build the task report,
    are embedded over abstract charts and plugins.

    Conventions of the embedding.
    - Python 3 semantics: [str(float)] is [repr], dictionaries iterate in
      insertion order, and [<] between values of unrelated types raises
      [TypeError].
    - Text is a [string] whose characters are code points below 256.
    - A dictionary is an association list in insertion order.
    - A raised exception is the [Raise] outcome of a [result]; the text of
      the exception message is not part of the model.
    - A float is an exact decimal [(-1)^neg * m * 10^e], infinite, or NaN.
      Binary rounding is not modelled; the one arithmetic operation of the
      source on floats ([tstamp_start * 1000]) is a parameter. *)

From Stdlib Require Import List String Ascii ZArith NArith Bool Lia.
From Stdlib Require Import Permutation Sorted DecimalString DecimalPos.
Import ListNotations.
Local Open Scope string_scope.
Local Open Scope Z_scope.

(** ** Exceptions and outcomes *)

Inductive exn : Type :=
| TypeError
| KeyError (key : string)
| IndexError
| AttributeError
| ValueError
| OverflowError.

Inductive result (A : Type) : Type :=
| Ok (a : A)
| Raise (e : exn).

Arguments Ok {A} a.
Arguments Raise {A} e.

Definition bind {A B : Type} (r : result A) (k : A -> result B) : result B :=
  match r with
  | Ok a => k a
  | Raise e => Raise e
  end.

Notation "x <- c ;; k" := (bind c (fun x => k))
  (at level 61, c at next level, right associativity).

(** [[f(x) for x in l]]: the first exception aborts the comprehension. *)
Fixpoint mapM {A B : Type} (f : A -> result B) (l : list A) : result (list B) :=
  match l with
  | [] => Ok []
  | x :: l' => y <- f x ;; ys <- mapM f l' ;; Ok (y :: ys)
  end.

(** ** Python builtins on text *)

Module Py.

(** [str.isspace] on one character (code points below 256). *)
Definition isspace (c : ascii) : bool :=
  let n := nat_of_ascii c in
  ((9 <=? n) && (n <=? 13) || (28 <=? n) && (n <=? 32)
   || (n =? 133) || (n =? 160))%nat.

Fixpoint lstrip_by (p : ascii -> bool) (s : string) : string :=
  match s with
  | EmptyString => EmptyString
  | String c s' => if p c then lstrip_by p s' else s
  end.

Fixpoint rstrip_by (p : ascii -> bool) (s : string) : string :=
  match s with
  | EmptyString => EmptyString
  | String c s' =>
      match rstrip_by p s' with
      | EmptyString => if p c then EmptyString else String c EmptyString
      | r => String c r
      end
  end.

(** [s.strip()] *)
Definition strip (s : string) : string := rstrip_by isspace (lstrip_by isspace s).

(** [s.rstrip(chars)] *)
Definition rstrip (chars : string) (s : string) : string :=
  rstrip_by (fun c => existsb (Ascii.eqb c) (list_ascii_of_string chars)) s.

(** [sep.join(l)] *)
Definition join (sep : string) (l : list string) : string := String.concat sep l.

(** [str(n)] for an [int]. *)
Definition str_int (n : Z) : string := NilZero.string_of_int (Z.to_int n).

(** [str(b)] for a [bool]. *)
Definition str_bool (b : bool) : string := if b then "True" else "False".

Fixpoint zeros (n : nat) : string :=
  match n with
  | O => EmptyString
  | S n' => String "0" (zeros n')
  end.

Fixpoint take (n : nat) (s : string) : string :=
  match n, s with
  | S n', String c s' => String c (take n' s')
  | _, _ => EmptyString
  end.

Fixpoint drop (n : nat) (s : string) : string :=
  match n, s with
  | S n', String _ s' => drop n' s'
  | _, _ => s
  end.

(** Floats. *)
Inductive pyfloat : Type :=
| Fnan
| Finf (neg : bool)
| Ffin (neg : bool) (m : N) (e : Z).

(** The decimal digits of a positive mantissa. *)
Definition digits_of (m : N) : string := NilEmpty.string_of_uint (N.to_uint m).

(** [repr(f)]: the digits [D] without trailing zeros and the position
    [decpt] of the decimal point ([f = 0.D * 10^decpt]); exponent notation
    when [decpt <= -4] or [decpt > 16], as CPython's format code ['r']. *)
Definition str_float (f : pyfloat) : string :=
  match f with
  | Fnan => "nan"
  | Finf neg => if neg then "-inf" else "inf"
  | Ffin neg m e =>
      let sign := if neg then "-" else "" in
      if (m =? 0)%N then sign ++ "0.0" else
      let all := digits_of m in
      let D := rstrip_by (Ascii.eqb "0") all in
      let decpt := Z.of_nat (String.length all) + e in
      let n := Z.of_nat (String.length D) in
      sign ++
      if (-4 <? decpt) && (decpt <=? 16) then
        if decpt <=? 0 then "0." ++ zeros (Z.to_nat (- decpt)) ++ D
        else if n <=? decpt then D ++ zeros (Z.to_nat (decpt - n)) ++ ".0"
        else take (Z.to_nat decpt) D ++ "." ++ drop (Z.to_nat decpt) D
      else
        let x := decpt - 1 in
        let ex := str_int (Z.abs x) in
        take 1 D ++ (if 1 <? n then "." ++ drop 1 D else "")
        ++ "e" ++ (if x <? 0 then "-" else "+")
        ++ (if Z.abs x <? 10 then "0" ++ ex else ex)
  end.

(** Numeric comparison of floats: [None] when a NaN is involved (every
    ordering comparison with NaN is false). *)
Definition scaled (neg : bool) (m : N) (e e0 : Z) : Z :=
  (if neg then -1 else 1) * Z.of_N m * 10 ^ (e - e0).

Definition float_cmp (x y : pyfloat) : option comparison :=
  match x, y with
  | Fnan, _ | _, Fnan => None
  | Finf a, Finf b => Some (if a then (if b then Eq else Lt) else (if b then Gt else Eq))
  | Finf a, Ffin _ _ _ => Some (if a then Lt else Gt)
  | Ffin _ _ _, Finf b => Some (if b then Gt else Lt)
  | Ffin n1 m1 e1, Ffin n2 m2 e2 =>
      let e0 := Z.min e1 e2 in
      Some (scaled n1 m1 e1 e0 ?= scaled n2 m2 e2 e0)
  end.

(** [float(n)] for an [int], exact in the decimal model. *)
Definition float_of_int (n : Z) : pyfloat := Ffin (n <? 0) (Z.abs_N n) 0.

(** [int(f)]: truncation toward zero; NaN and the infinities raise. *)
Definition int_of_float (f : pyfloat) : result Z :=
  match f with
  | Fnan => Raise ValueError
  | Finf _ => Raise OverflowError
  | Ffin neg m e =>
      Ok ((if neg then -1 else 1)
          * (if 0 <=? e then Z.of_N m * 10 ^ e else Z.of_N m / 10 ^ (- e)))
  end.

(** The builtin [sorted]: a stable sort that consults only [<], which may
    raise.  Every stable sort computes the same list when [<] is a strict
    weak order on the elements, and every comparison sort has to compare
    two elements that end up adjacent, so insertion from the right agrees
    with the builtin both on the list returned and on whether an
    exception escapes.  Where [<] is not a strict weak order on the
    elements, as among samples that tie on the timestamp and hold NaN for
    a value, the builtin may return the elements in another order; no
    property of this file states the order of such a list. *)
Section Sorted.
Context {A : Type} (lt : A -> A -> result bool).

Fixpoint insort (x : A) (l : list A) : result (list A) :=
  match l with
  | [] => Ok [x]
  | y :: l' =>
      b <- lt y x ;;
      if b then (r <- insort x l' ;; Ok (y :: r)) else Ok (x :: y :: l')
  end.

Fixpoint sorted (l : list A) : result (list A) :=
  match l with
  | [] => Ok []
  | x :: l' => s <- sorted l' ;; insort x s
  end.
End Sorted.

(** [<] on [str]: lexicographic on code points; it never raises. *)
Definition str_lt (a b : string) : result bool := Ok (String.ltb a b).

(** [s.split(sep)] for a one-character separator. *)
Fixpoint split (sep : ascii) (s : string) : list string :=
  match s with
  | EmptyString => [EmptyString]
  | String c s' =>
      if Ascii.eqb c sep then EmptyString :: split sep s'
      else match split sep s' with
           | [] => [String c EmptyString]
           | w :: ws => String c w :: ws
           end
  end.

(** [float(s)] for text, following the grammar of the language
    reference: optional sign, then [inf], [infinity] or [nan] in any case,
    or digits with an optional fraction and exponent, where an underscore
    may separate two digits; surrounding whitespace is ignored.  [None]
    stands for [ValueError].  The value is the exact decimal that the text
    spells: rounding to a double, overflow to infinity and underflow to
    zero are not modelled. *)
Definition is_digit (c : ascii) : bool :=
  let n := nat_of_ascii c in ((48 <=? n) && (n <=? 57))%nat.

Definition digit_val (c : ascii) : N := N.of_nat (nat_of_ascii c - 48).

Definition to_lower (c : ascii) : ascii :=
  let n := nat_of_ascii c in
  if ((65 <=? n) && (n <=? 90))%nat then ascii_of_nat (n + 32) else c.

Fixpoint digitpart_rest (acc : N) (cnt : nat) (s : list ascii)
  : N * nat * list ascii :=
  match s with
  | [] => (acc, cnt, [])
  | c :: s' =>
      if is_digit c then digitpart_rest (10 * acc + digit_val c) (S cnt) s'
      else if Ascii.eqb c "_" then
        match s' with
        | d :: s'' =>
            if is_digit d
            then digitpart_rest (10 * acc + digit_val d) (S cnt) s''
            else (acc, cnt, s)
        | [] => (acc, cnt, s)
        end
      else (acc, cnt, s)
  end.

Definition digitpart (acc : N) (s : list ascii)
  : option (N * nat * list ascii) :=
  match s with
  | c :: s' =>
      if is_digit c
      then Some (digitpart_rest (10 * acc + digit_val c) 1 s')
      else None
  | [] => None
  end.

(** [number]: the mantissa, the count of fraction digits, the rest. *)
Definition parse_number (s : list ascii) : option (N * nat * list ascii) :=
  match digitpart 0 s with
  | Some (i, _, rest) =>
      match rest with
      | c :: rest' =>
          if Ascii.eqb c "." then
            match digitpart i rest' with
            | Some r => Some r
            | None => Some (i, O, rest')
            end
          else Some (i, O, rest)
      | [] => Some (i, O, [])
      end
  | None =>
      match s with
      | c :: rest' => if Ascii.eqb c "." then digitpart 0 rest' else None
      | [] => None
      end
  end.

Definition parse_sign (s : list ascii) : bool * list ascii :=
  match s with
  | c :: s' =>
      if Ascii.eqb c "-" then (true, s')
      else if Ascii.eqb c "+" then (false, s')
      else (false, s)
  | [] => (false, [])
  end.

Definition parse_exponent (s : list ascii) : option Z :=
  match s with
  | [] => Some 0
  | c :: s' =>
      if Ascii.eqb (to_lower c) "e" then
        let (neg, s'') := parse_sign s' in
        match digitpart 0 s'' with
        | Some (x, _, []) => Some (if neg then - Z.of_N x else Z.of_N x)
        | _ => None
        end
      else None
  end.

Definition float_of_str (s : string) : option pyfloat :=
  let (neg, body) := parse_sign (list_ascii_of_string (strip s)) in
  let low := string_of_list_ascii (map to_lower body) in
  if String.eqb low "inf" || String.eqb low "infinity" then Some (Finf neg)
  else if String.eqb low "nan" then Some Fnan
  else
    match parse_number body with
    | Some (m, k, rest) =>
        match parse_exponent rest with
        | Some x => Some (Ffin neg m (x - Z.of_nat k))
        | None => None
        end
    | None => None
    end.

End Py.

(** ** Dictionaries with text keys, in insertion order *)

Module Dict.

Definition t (V : Type) : Type := list (string * V).

(** [d[k]]; [None] stands for [KeyError]. *)
Fixpoint get {V : Type} (k : string) (d : t V) : option V :=
  match d with
  | [] => None
  | (k', v) :: d' => if String.eqb k k' then Some v else get k d'
  end.

(** [k in d] *)
Definition mem {V : Type} (k : string) (d : t V) : bool :=
  match get k d with
  | Some _ => true
  | None => false
  end.

(** [d[k] = v]: an existing key keeps its position, a new key goes last. *)
Fixpoint set {V : Type} (k : string) (v : V) (d : t V) : t V :=
  match d with
  | [] => [(k, v)]
  | (k', v') :: d' =>
      if String.eqb k k' then (k', v) :: d' else (k', v') :: set k v d'
  end.

(** [dict(pairs)] *)
Definition of_pairs {V : Type} (pairs : list (string * V)) : t V :=
  fold_left (fun d kv => set (fst kv) (snd kv) d) pairs [].

End Dict.

(** ** Values *)

(** The scalars of a configuration or of a statistics table: [None], [bool],
    [int], [float], [str]. *)
Inductive scalar : Type :=
| SNone
| SBool (b : bool)
| SInt (n : Z)
| SFloat (f : Py.pyfloat)
| SStr (s : string).

(** A nested configuration value.  [PList] stands for a [list] or a [tuple];
    [PDict] holds the pairs of [obj.items()] in iteration order; [POther] is
    an object of any other type (a [set], [bytes], an instance of a class). *)
#[warnings="-register-all"]
Inductive pyval : Type :=
| PScalar (x : scalar)
| PList (l : list pyval)
| PDict (items : list (pyval * pyval))
| POther (type_name : string).

(** [str(x)] for a scalar other than [None]. *)
Definition str_scalar (x : scalar) : string :=
  match x with
  | SNone => "None"
  | SBool b => Py.str_bool b
  | SInt n => Py.str_int n
  | SFloat f => Py.str_float f
  | SStr s => s
  end.

(** The numeric value of a [bool], [int] or [float]. *)
Definition num_of (x : scalar) : option Py.pyfloat :=
  match x with
  | SBool b => Some (Py.float_of_int (if b then 1 else 0))
  | SInt n => Some (Py.float_of_int n)
  | SFloat f => Some f
  | _ => None
  end.

(** [x == y] on scalars. *)
Definition py_eq (x y : scalar) : bool :=
  match x, y with
  | SNone, SNone => true
  | SStr a, SStr b => String.eqb a b
  | _, _ =>
      match num_of x, num_of y with
      | Some a, Some b =>
          match Py.float_cmp a b with Some Eq => true | _ => false end
      | _, _ => false
      end
  end.

(** [x < y] on scalars: numbers by value, text by code points, anything
    else raises [TypeError]. *)
Definition py_lt (x y : scalar) : result bool :=
  match x, y with
  | SStr a, SStr b => Ok (String.ltb a b)
  | _, _ =>
      match num_of x, num_of y with
      | Some a, Some b =>
          Ok (match Py.float_cmp a b with Some Lt => true | _ => false end)
      | _, _ => Raise TypeError
      end
  end.

(** [isinstance(x, (float,) + six.integer_types)] *)
Definition is_number (x : scalar) : bool :=
  match x with
  | SBool _ | SInt _ | SFloat _ => true
  | _ => false
  end.

(** ** External collaborators

    [hashlib.md5(...).hexdigest()], [json.dumps(..., indent=2)], IEEE
    multiplication of floats, and the three reducers of
    [charts.streaming], of which only the interface ([add], [result]) is
    used here. *)
Record Computation : Type := {
  comp_state : Type;
  comp_new : comp_state;
  comp_add : comp_state -> scalar -> comp_state;
  comp_result : comp_state -> scalar
}.

Class Extern : Type := {
  md5_hexdigest : string -> string;
  json_dumps : pyval -> result string;
  float_mul : Py.pyfloat -> Py.pyfloat -> Py.pyfloat;
  MinComputation : Computation;
  MaxComputation : Computation;
  MeanComputation : Computation
}.

(** ** [Trends._to_str] and [Trends._make_hash] *)

Section ToStr.

Fixpoint _to_str (obj : pyval) : result string :=
  match obj with
  | PScalar SNone => Ok "None"
  | PScalar x => Ok (Py.strip (str_scalar x))
  | PList l =>
      strs <- (fix each (l : list pyval) : result (list string) :=
                 match l with
                 | [] => Ok []
                 | v :: l' => s <- _to_str v ;; ss <- each l' ;; Ok (s :: ss)
                 end) l ;;
      srt <- Py.sorted Py.str_lt strs ;;
      Ok (Py.join "," srt)
  | PDict items =>
      strs <- (fix each (l : list (pyval * pyval)) : result (list string) :=
                 match l with
                 | [] => Ok []
                 | (k, v) :: l' =>
                     ks <- _to_str k ;;
                     vs <- _to_str v ;;
                     ss <- each l' ;;
                     Ok (Py.join ":" [ks; vs] :: ss)
                 end) items ;;
      srt <- Py.sorted Py.str_lt strs ;;
      Ok (Py.join "|" srt)
  | POther _ => Raise TypeError
  end.

Context `{Extern}.

(** The UTF-8 encoding is the identity on the model's text up to the
    injective re-coding of code points, which is folded into
    [md5_hexdigest]. *)
Definition _make_hash (obj : pyval) : result string :=
  s <- _to_str obj ;; Ok (md5_hexdigest s).

End ToStr.

(** ** Run results and the state of [Trends] *)

Record sla_entry : Type := { sla_success : bool }.

(** A run result, as [add_result] reads it: [key.name], [key.kw],
    [info.stat.cols], [info.stat.rows] (each row is its action name [row[0]]
    followed by the remaining cells), [info.tstamp_start] and [sla]. *)
Record run_result : Type := {
  key_name : string;
  key_kw : pyval;
  stat_cols : list string;
  stat_rows : list (string * list scalar);
  tstamp_start : Py.pyfloat;
  sla : list sla_entry
}.

(** One sample [(ts, value)] of a series. *)
Definition entry : Type := Z * scalar.

Record action_series : Type := {
  a_durations : Dict.t (list entry);
  a_success : list entry
}.

Record group : Type := {
  g_actions : Dict.t action_series;
  g_sla_failures : Z;
  g_name : string;
  g_config : string
}.

(** [self._data] *)
Definition trends_data : Type := Dict.t group.

(** ** [Trends.add_result] *)

Definition new_action : action_series :=
  {| a_durations := [("min", []); ("median", []); ("90%ile", []);
                     ("95%ile", []); ("max", []); ("avg", [])];
     a_success := [] |}.

Definition duration_columns : list (string * string) :=
  [("min", "Min (sec)"); ("median", "Median (sec)");
   ("90%ile", "90%ile (sec)"); ("95%ile", "95%ile (sec)");
   ("max", "Max (sec)"); ("avg", "Avg (sec)")].

(** [zip(cols, row)] *)
Fixpoint zip {A B : Type} (l : list A) (r : list B) : list (A * B) :=
  match l, r with
  | a :: l', b :: r' => (a, b) :: zip l' r'
  | _, _ => []
  end.

(** [{row[0]: dict(zip(cols, row)) for row in rows}] *)
Definition make_stat (cols : list string) (rows : list (string * list scalar))
  : Dict.t (Dict.t scalar) :=
  fold_left
    (fun d row =>
       Dict.set (fst row) (Dict.of_pairs (zip cols (SStr (fst row) :: snd row))) d)
    rows [].

(** The [try] block: [float(stat[action]["Success"].rstrip("%"))], with
    [ValueError] replaced by [0]; a missing column and a cell without
    [rstrip] still raise. *)
Definition parse_success (row : Dict.t scalar) : result scalar :=
  match Dict.get "Success" row with
  | None => Raise (KeyError "Success")
  | Some (SStr s) =>
      match Py.float_of_str (Py.rstrip "%" s) with
      | Some f => Ok (SFloat f)
      | None => Ok (SInt 0)
      end
  | Some _ => Raise AttributeError
  end.

(** The loop over [(tgt, src)]: the durations as mutated so far, and the
    outcome. *)
Fixpoint append_durations (pairs : list (string * string)) (row : Dict.t scalar)
  (ts : Z) (d : Dict.t (list entry)) : Dict.t (list entry) * result unit :=
  match pairs with
  | [] => (d, Ok tt)
  | (tgt, src) :: rest =>
      match Dict.get tgt d with
      | None => (d, Raise (KeyError tgt))
      | Some l =>
          match Dict.get src row with
          | None => (d, Raise (KeyError src))
          | Some v => append_durations rest row ts (Dict.set tgt (l ++ [(ts, v)])%list d)
          end
      end
  end.

(** The body of [for action in stat], on [self._data[key]["actions"]]. *)
Definition add_action (action : string) (row : Dict.t scalar) (ts : Z)
  (actions : Dict.t action_series) : Dict.t action_series * result unit :=
  let a := match Dict.get action actions with
           | Some a => a
           | None => new_action
           end in
  match parse_success row with
  | Raise e => (Dict.set action a actions, Raise e)
  | Ok success =>
      let succ := (a_success a ++ [(ts, success)])%list in
      let (d, out) := append_durations duration_columns row ts (a_durations a) in
      (Dict.set action {| a_durations := d; a_success := succ |} actions, out)
  end.

(** [for action in stat]: [stat[action]] is the value paired with [action]. *)
Fixpoint add_actions (stat : list (string * Dict.t scalar)) (ts : Z)
  (actions : Dict.t action_series) : Dict.t action_series * result unit :=
  match stat with
  | [] => (actions, Ok tt)
  | (action, row) :: rest =>
      match add_action action row ts actions with
      | (actions', Ok _) => add_actions rest ts actions'
      | (actions', Raise e) => (actions', Raise e)
      end
  end.

(** [for sla in result["sla"]: ... += not sla["success"]] *)
Definition count_sla_failures (n : Z) (l : list sla_entry) : Z :=
  fold_left (fun n s => n + (if sla_success s then 0 else 1)) l n.

Section AddResult.
Context `{Extern}.

(** [self._data[key]], created when [key not in self._data]. *)
Definition group_of (key : string) (r : run_result) (self : trends_data)
  : result group :=
  match Dict.get key self with
  | Some g => Ok g
  | None =>
      config <- json_dumps (key_kw r) ;;
      Ok {| g_actions := []; g_sla_failures := 0;
            g_name := key_name r; g_config := config |}
  end.

(** [int(result["info"]["tstamp_start"] * 1000)] *)
Definition timestamp (r : run_result) : result Z :=
  Py.int_of_float (float_mul (tstamp_start r) (Py.float_of_int 1000)).

(** [add_result]: the state after the call, also when it raises, and the
    outcome. *)
Definition add_result (self : trends_data) (r : run_result)
  : trends_data * result unit :=
  match _make_hash (key_kw r) with
  | Raise e => (self, Raise e)
  | Ok key =>
      match group_of key r self with
      | Raise e => (self, Raise e)
      | Ok g =>
          let g1 := {| g_actions := g_actions g;
                       g_sla_failures := count_sla_failures (g_sla_failures g) (sla r);
                       g_name := g_name g; g_config := g_config g |} in
          let stat := make_stat (stat_cols r) (stat_rows r) in
          match timestamp r with
          | Raise e => (Dict.set key g1 self, Raise e)
          | Ok ts =>
              let (actions, out) := add_actions stat ts (g_actions g1) in
              (Dict.set key {| g_actions := actions;
                               g_sla_failures := g_sla_failures g1;
                               g_name := g_name g1; g_config := g_config g1 |} self,
               out)
          end
      end
  end.

(** The loop of [trends]: results are folded in turn and the first
    exception ends the pass. *)
Fixpoint add_results (self : trends_data) (rs : list run_result)
  : trends_data * result unit :=
  match rs with
  | [] => (self, Ok tt)
  | r :: rs' =>
      match add_result self r with
      | (self', Ok _) => add_results self' rs'
      | (self', Raise e) => (self', Raise e)
      end
  end.

End AddResult.

(** ** [Trends.get_data] *)

(** [a < b] on two [(ts, value)] tuples: the first position where the
    tuples differ under [==] decides, by [<] of the items there.  (That two
    items which are one and the same object count as equal, even a NaN, is
    not modelled.) *)
Definition entry_lt (a b : entry) : result bool :=
  if fst a =? fst b then
    if py_eq (snd a) (snd b) then Ok false else py_lt (snd a) (snd b)
  else Ok (fst a <? fst b).

Definition series : Type := list (string * list entry).

Record action_out : Type := {
  ao_name : string;
  ao_durations : series;
  ao_success : series
}.

(** The three keys that [trend.update] sets for the action ["total"]. *)
Record total_out : Type := {
  to_length : nat;
  to_durations : series;
  to_success : series
}.

Record trend : Type := {
  t_stat : Dict.t scalar;
  t_name : string;
  t_cls : string;
  t_met : string;
  t_sla_failures : Z;
  t_config : string;
  t_actions : list action_out;
  t_total : option total_out
}.

(** [[(k, sorted(v)) for k, v in data["durations"].items()]] *)
Definition sort_durations (d : Dict.t (list entry)) : result series :=
  mapM (fun kv => v <- Py.sorted entry_lt (snd kv) ;; Ok (fst kv, v)) d.

(** [for action, data in wload["actions"].items()] *)
Fixpoint render_actions (items : list (string * action_series)) (t : trend)
  : result trend :=
  match items with
  | [] => Ok t
  | (action, data) :: rest =>
      action_durs <- sort_durations (a_durations data) ;;
      success <- Py.sorted entry_lt (a_success data) ;;
      if String.eqb action "total" then
        render_actions rest
          {| t_stat := t_stat t; t_name := t_name t; t_cls := t_cls t;
             t_met := t_met t; t_sla_failures := t_sla_failures t;
             t_config := t_config t; t_actions := t_actions t;
             t_total := Some {| to_length := List.length (a_success data);
                                to_durations := action_durs;
                                to_success := [("success", success)] |} |}
      else
        render_actions rest
          {| t_stat := t_stat t; t_name := t_name t; t_cls := t_cls t;
             t_met := t_met t; t_sla_failures := t_sla_failures t;
             t_config := t_config t;
             t_actions := (t_actions t ++
                           [{| ao_name := action; ao_durations := action_durs;
                               ao_success := [("success", success)] |}])%list;
             t_total := t_total t |}
  end.

(** The two inner loops over [trend["durations"]]: every numeric [i[1]] is
    passed to [comp.add], then [comp.result()] is read. *)
Definition feed (comp : Computation) (durations : series) : scalar :=
  comp_result comp
    (fold_left
       (fun st kv =>
          fold_left
            (fun st i => if is_number (snd i) then comp_add comp st (snd i) else st)
            (snd kv) st)
       durations (comp_new comp)).

Section GetData.
Context `{Extern}.

(** The body of [for wload in self._data.values()]. *)
Definition render_group (wload : group) : result trend :=
  match Py.split "." (g_name wload) with
  | cls :: met :: _ =>
      t <- render_actions (g_actions wload)
             {| t_stat := []; t_name := g_name wload; t_cls := cls;
                t_met := met; t_sla_failures := g_sla_failures wload;
                t_config := g_config wload; t_actions := [];
                t_total := None |} ;;
      match t_total t with
      | None => Raise (KeyError "durations")
      | Some total =>
          let durations := to_durations total in
          Ok {| t_stat := [("min", feed MinComputation durations);
                           ("max", feed MaxComputation durations);
                           ("avg", feed MeanComputation durations)];
                t_name := t_name t; t_cls := t_cls t; t_met := t_met t;
                t_sla_failures := t_sla_failures t; t_config := t_config t;
                t_actions := t_actions t; t_total := t_total t |}
      end
  | _ => Raise IndexError
  end.

(** [sorted(trends, key=lambda i: i["name"])] *)
Definition get_data (self : trends_data) : result (list trend) :=
  trends <- mapM render_group (map snd self) ;;
  Py.sorted (fun a b => Py.str_lt (t_name a) (t_name b)) trends.

End GetData.

(** ** An instance of the external collaborators

    Used to run the engine on concrete inputs. *)

(** Exact decimal product and sum (no rounding). *)
Definition exact_mul (x y : Py.pyfloat) : Py.pyfloat :=
  match x, y with
  | Py.Ffin n1 m1 e1, Py.Ffin n2 m2 e2 => Py.Ffin (xorb n1 n2) (m1 * m2) (e1 + e2)
  | Py.Finf a, Py.Finf b => Py.Finf (xorb a b)
  | Py.Finf a, Py.Ffin b m _ | Py.Ffin b m _, Py.Finf a =>
      if (m =? 0)%N then Py.Fnan else Py.Finf (xorb a b)
  | _, _ => Py.Fnan
  end.

Definition exact_add (x y : Py.pyfloat) : Py.pyfloat :=
  match x, y with
  | Py.Ffin n1 m1 e1, Py.Ffin n2 m2 e2 =>
      let e0 := Z.min e1 e2 in
      let s := Py.scaled n1 m1 e1 e0 + Py.scaled n2 m2 e2 e0 in
      Py.Ffin (s <? 0) (Z.abs_N s) e0
  | Py.Finf a, Py.Finf b => if Bool.eqb a b then Py.Finf a else Py.Fnan
  | Py.Finf a, Py.Ffin _ _ _ | Py.Ffin _ _ _, Py.Finf a => Py.Finf a
  | _, _ => Py.Fnan
  end.

(** The update of a reducer that keeps one sample. *)
Definition keep_if (better : scalar -> scalar -> result bool)
  (st : option scalar) (x : scalar) : option scalar :=
  match st with
  | None => Some x
  | Some y => match better x y with Ok true => Some x | _ => Some y end
  end.

Definition result_or_none (st : option scalar) : scalar :=
  match st with
  | Some x => x
  | None => SNone
  end.

(** Modelled from the spec: [charts.streaming.MinComputation], whose source
    lies outside [plot.py]; it keeps the smallest sample seen, and without
    samples its result is [None]. *)
Definition min_computation : Computation :=
  {| comp_state := option scalar; comp_new := None;
     comp_add := keep_if py_lt; comp_result := result_or_none |}.

(** Modelled from the spec: [charts.streaming.MaxComputation], whose source
    lies outside [plot.py]; it keeps the largest sample seen, and without
    samples its result is [None]. *)
Definition max_computation : Computation :=
  {| comp_state := option scalar; comp_new := None;
     comp_add := keep_if (fun x y => py_lt y x); comp_result := result_or_none |}.

Definition mean_add (st : Py.pyfloat * Z) (x : scalar) : Py.pyfloat * Z :=
  match num_of x with
  | Some f => (exact_add (fst st) f, snd st + 1)
  | None => st
  end.

Definition mean_result (st : Py.pyfloat * Z) : scalar :=
  if snd st =? 0 then SNone else
  match fst st with
  | Py.Ffin neg m e =>
      SFloat (Py.Ffin neg (Z.to_N (Z.of_N m * 10 ^ 17 / snd st)) (e - 17))
  | f => SFloat f
  end.

(** Modelled from the spec: [charts.streaming.MeanComputation], whose
    source lies outside [plot.py]; it keeps the sum and the count of the
    samples, and without samples its result is [None].  The quotient is cut
    after seventeen decimal places. *)
Definition mean_computation : Computation :=
  {| comp_state := Py.pyfloat * Z; comp_new := (Py.Ffin false 0 0, 0);
     comp_add := mean_add; comp_result := mean_result |}.

(** The digest and the pretty-printer are stand-ins: the canonical string
    itself, and the canonical string of the configuration. *)
Definition reference_extern : Extern :=
  {| md5_hexdigest := fun s => s;
     json_dumps := _to_str;
     float_mul := exact_mul;
     MinComputation := min_computation;
     MaxComputation := max_computation;
     MeanComputation := mean_computation |}.

(** ** Notions used by the statements *)

(** Insertion from the right with a comparison that cannot raise: what
    [Py.sorted] computes when [<] is total. *)
Section Isort.
Context {A : Type} (ltb : A -> A -> bool).

Fixpoint insert (x : A) (l : list A) : list A :=
  match l with
  | [] => [x]
  | y :: l' => if ltb y x then y :: insert x l' else x :: y :: l'
  end.

Fixpoint isort (l : list A) : list A :=
  match l with
  | [] => []
  | x :: l' => insert x (isort l')
  end.

End Isort.

(** Structural equality up to the order of the elements of a sequence and
    of the pairs of a mapping, at any depth. *)
Inductive perm_equiv : pyval -> pyval -> Prop :=
| pe_refl v : perm_equiv v v
| pe_sym a b : perm_equiv a b -> perm_equiv b a
| pe_trans a b c : perm_equiv a b -> perm_equiv b c -> perm_equiv a c
| pe_list_perm l l' : Permutation l l' -> perm_equiv (PList l) (PList l')
| pe_dict_perm d d' : Permutation d d' -> perm_equiv (PDict d) (PDict d')
| pe_list_cons v v' l l' :
    perm_equiv v v' -> perm_equiv (PList l) (PList l') ->
    perm_equiv (PList (v :: l)) (PList (v' :: l'))
| pe_dict_cons k k' v v' d d' :
    perm_equiv k k' -> perm_equiv v v' -> perm_equiv (PDict d) (PDict d') ->
    perm_equiv (PDict ((k, v) :: d)) (PDict ((k', v') :: d')).

(** A value that is, or contains at any depth, an object of a type other
    than scalar, sequence and mapping. *)
Inductive unsupported : pyval -> Prop :=
| un_other t : unsupported (POther t)
| un_list_head v l : unsupported v -> unsupported (PList (v :: l))
| un_list_tail v l : unsupported (PList l) -> unsupported (PList (v :: l))
| un_dict_key k v d : unsupported k -> unsupported (PDict ((k, v) :: d))
| un_dict_value k v d : unsupported v -> unsupported (PDict ((k, v) :: d))
| un_dict_tail k v d : unsupported (PDict d) -> unsupported (PDict ((k, v) :: d)).

(** The strings that [_to_str] sorts and joins for a sequence and for a
    mapping. *)
Definition pair_str (kv : pyval * pyval) : result string :=
  ks <- _to_str (fst kv) ;; vs <- _to_str (snd kv) ;; Ok (Py.join ":" [ks; vs]).

(** Two outcomes that agree up to the order of the list returned. *)
Definition perm_result (r r' : result (list string)) : Prop :=
  match r, r' with
  | Ok a, Ok b => Permutation a b
  | Raise e, Raise e' => e = e'
  | _, _ => False
  end.

(** What [perm_equiv] preserves: the strings to sort, up to their order. *)
Definition canon_related (a b : pyval) : Prop :=
  match a, b with
  | PList l, PList l' => perm_result (mapM _to_str l) (mapM _to_str l')
  | PDict d, PDict d' => perm_result (mapM pair_str d) (mapM pair_str d')
  | _, _ => a = b
  end.

(** ** Sample inputs *)

Definition p_str (s : string) : pyval := PScalar (SStr s).
Definition p_int (n : Z) : pyval := PScalar (SInt n).

(** [{"a": 1, "b": [3, 2]}] and the same configuration with the keys and
    the elements in another order. *)
Definition kw_ab : pyval := PDict [(p_str "a", p_int 1); (p_str "b", PList [p_int 3; p_int 2])].
Definition kw_ba : pyval := PDict [(p_str "b", PList [p_int 2; p_int 3]); (p_str "a", p_int 1)].

Definition sample_cols : list string :=
  ["Action"; "Min (sec)"; "Median (sec)"; "90%ile (sec)"; "95%ile (sec)";
   "Max (sec)"; "Avg (sec)"; "Success"; "Count"].

Definition seconds (m : N) (e : Z) : scalar := SFloat (Py.Ffin false m e).

(** A run with one row per action: the six durations are [d], the success
    cell is [succ]. *)
Definition sample_row (action : string) (d : scalar) (succ : string)
  : string * list scalar :=
  (action, [d; d; d; d; d; d; SStr succ; SInt 1]).

Definition sample_run (name : string) (kw : pyval)
  (rows : list (string * list scalar)) (t : Py.pyfloat) (slas : list bool)
  : run_result :=
  {| key_name := name; key_kw := kw; stat_cols := sample_cols;
     stat_rows := rows; tstamp_start := t;
     sla := map (fun b => {| sla_success := b |}) slas |}.

(** Every character of [s] satisfies [p]. *)
Fixpoint forall_chars (p : ascii -> bool) (s : string) : bool :=
  match s with
  | EmptyString => true
  | String c s' => p c && forall_chars p s'
  end.

Definition not_N (c : ascii) : bool := negb (Ascii.eqb c "N").

Definition not_comma (c : ascii) : bool := negb (Ascii.eqb c ",").

(** A text scalar that is not empty, has no comma and is already trimmed. *)
Definition plain (s : string) : bool :=
  negb (String.eqb s "") && forall_chars not_comma s && String.eqb (Py.strip s) s.

(** The counter of the group stored under [key]; a group that does not
    exist yet counts no failure. *)
Definition sla_failures_of (key : string) (self : trends_data) : Z :=
  match Dict.get key self with
  | Some g => g_sla_failures g
  | None => 0
  end.

(** The number of [sla] entries of a run result whose [success] is false. *)
Definition failed_slas (r : run_result) : Z :=
  Z.of_nat (List.length (filter (fun s => negb (sla_success s)) (sla r))).

(** Two values that [<] can compare, or that are both [None]. *)
Definition same_kind (x y : scalar) : bool :=
  match x, y with
  | SNone, SNone => true
  | SStr _, SStr _ => true
  | _, _ => is_number x && is_number y
  end.

(** Samples that share a timestamp have values of the same kind. *)
Definition tie_safe (l : list entry) : Prop :=
  forall a b, In a l -> In b l -> fst a = fst b -> same_kind (snd a) (snd b) = true.

(** [v] is [l] rearranged in ascending order of timestamp, and two
    neighbours of [v] never descend in the order of [(ts, value)] tuples. *)
Definition time_ordered (l v : list entry) : Prop :=
  Permutation l v
  /\ StronglySorted (fun a b => fst a <= fst b) v
  /\ Sorted (fun a b => entry_lt b a = Ok false) v.

(** A series with the action and the name it belongs to. *)
Definition tagged : Type := string * string * list entry.

Definition tag_all (action : string) (s : series) : list tagged :=
  map (fun kv => (action, fst kv, snd kv)) s.

(** The series of one stored action: the durations and the success. *)
Definition action_series_list (a : action_series) : series :=
  (a_durations a ++ [("success", a_success a)])%list.

(** All the series that a group holds. *)
Definition stored_series (g : group) : list tagged :=
  flat_map (fun ad => tag_all (fst ad) (action_series_list (snd ad))) (g_actions g).

(** All the series that a rendered group shows: those at the level of the
    group, which come from the action ["total"], and those of [actions]. *)
Definition total_series (t : trend) : list tagged :=
  match t_total t with
  | Some tot => tag_all "total" (to_durations tot ++ to_success tot)%list
  | None => []
  end.

Definition action_out_series (a : action_out) : list tagged :=
  tag_all (ao_name a) (ao_durations a ++ ao_success a)%list.

Definition trend_series (t : trend) : list tagged :=
  (total_series t ++ flat_map action_out_series (t_actions t))%list.

Definition contains_dot (s : string) : bool :=
  existsb (Ascii.eqb ".") (list_ascii_of_string s).

(** The values that the loops of [get_data] pass to a reducer. *)
Definition numeric_samples (durations : series) : list scalar :=
  filter is_number (map snd (List.concat (map snd durations))).

(** A group that [get_data] can render: a dotted name, an action
    ["total"], and no series in which two samples of different kinds share
    a timestamp. *)
Definition renderable (g : group) : Prop :=
  contains_dot (g_name g) = true
  /\ Dict.mem "total" (g_actions g) = true
  /\ forall a k l, In (a, k, l) (stored_series g) -> tie_safe l.

(** The series of a durations dictionary, of an actions dictionary and of
    the whole state; a series that does not exist yet is empty. *)
Definition dur (d : Dict.t (list entry)) (tgt : string) : list entry :=
  match Dict.get tgt d with
  | Some l => l
  | None => []
  end.

Definition series_in (actions : Dict.t action_series) (action name : string)
  : list entry :=
  match Dict.get action actions with
  | Some a => if String.eqb name "success" then a_success a else dur (a_durations a) name
  | None => []
  end.

Definition series_of (key action name : string) (self : trends_data) : list entry :=
  match Dict.get key self with
  | Some g => series_in (g_actions g) action name
  | None => []
  end.

(** The success series and the six duration series. *)
Definition series_names : list string := "success" :: map fst duration_columns.

(** The stat table of the run result has a row for the action. *)
Definition in_stat (action : string) (r : run_result) : bool :=
  existsb (String.eqb action) (map fst (stat_rows r)).

Section FoldsWith.
Context `{Extern}.

(** The number of run results whose key is [key] and whose stat table has
    a row for [action]. *)
Definition folds_with (key action : string) (rs : list run_result) : nat :=
  List.length
    (filter (fun r => match _make_hash (key_kw r) with
                      | Ok k => String.eqb k key && in_stat action r
                      | Raise _ => false
                      end) rs).

End FoldsWith.

(** The order that the specification words describe for a series:
    ascending by timestamp, samples with equal timestamps in the order of
    insertion. *)
Definition stable_by_timestamp (l : list entry) : list entry :=
  isort (fun a b => fst a <? fst b) l.

(** Two runs of one configuration that start at the same millisecond. *)
Definition run_at (t : Py.pyfloat) (d : scalar) (succ : string) : run_result :=
  sample_run "Nova.boot" kw_ab [sample_row "total" d succ] t [true].

Definition tie_runs : list run_result :=
  [run_at (Py.Ffin false 15 (-1)) (seconds 5 0) "100%";
   run_at (Py.Ffin false 15 (-1)) (seconds 3 0) "50%"].

Definition mixed_tie_runs : list run_result :=
  [run_at (Py.Ffin false 15 (-1)) (SStr "n/a") "100%";
   run_at (Py.Ffin false 15 (-1)) (seconds 15 (-1)) "100%"].

Definition mixed_runs : list run_result :=
  [run_at (Py.Ffin false 25 (-1)) (SStr "n/a") "n/a";
   run_at (Py.Ffin false 15 (-1)) (seconds 15 (-1)) "100%"].

(** What follows a comma-free item in a joined string: nothing, or the
    separator. *)
Definition comma_tail (t : string) : Prop :=
  t = "" \/ exists t', t = String "," t'.

(** Induction on nested values. *)
Section PyvalInduction.
Variable P : pyval -> Prop.
Hypothesis Hscalar : forall x, P (PScalar x).
Hypothesis Hlist : forall l, Forall P l -> P (PList l).
Hypothesis Hdict :
  forall d, Forall (fun kv => P (fst kv) /\ P (snd kv)) d -> P (PDict d).
Hypothesis Hother : forall t, P (POther t).

Fixpoint pyval_induction (v : pyval) : P v :=
  match v with
  | PScalar x => Hscalar x
  | PList l =>
      Hlist l ((fix go (l : list pyval) : Forall P l :=
                  match l with
                  | [] => Forall_nil P
                  | v :: l' => Forall_cons v (pyval_induction v) (go l')
                  end) l)
  | PDict d =>
      Hdict d ((fix go (d : list (pyval * pyval))
                  : Forall (fun kv => P (fst kv) /\ P (snd kv)) d :=
                  match d with
                  | [] => Forall_nil _
                  | (k, v) :: d' =>
                      Forall_cons (k, v)
                        (conj (pyval_induction k) (pyval_induction v)) (go d')
                  end) d)
  | POther t => Hother t
  end.

End PyvalInduction.

(** The states that folding these runs leaves, and what [get_data] returns
    for the last of them, worked out once. *)
Definition tie_state : trends_data :=
  Eval vm_compute in fst (@add_results reference_extern [] tie_runs).

Definition mixed_tie_state : trends_data :=
  Eval vm_compute in fst (@add_results reference_extern [] mixed_tie_runs).

Definition mixed_state : trends_data :=
  Eval vm_compute in fst (@add_results reference_extern [] mixed_runs).

Definition mixed_trends : list trend :=
  Eval vm_compute in
    match @get_data reference_extern mixed_state with
    | Ok trends => trends
    | Raise _ => []
    end.

(** ** Notions used by the further properties *)

(** What [get_data] emits for one action other than ["total"]. *)
Definition render_action_out (item : string * action_series) : result action_out :=
  action_durs <- sort_durations (a_durations (snd item)) ;;
  success <- Py.sorted entry_lt (a_success (snd item)) ;;
  Ok {| ao_name := fst item; ao_durations := action_durs;
        ao_success := [("success", success)] |}.

Definition not_total (action : string) : bool := negb (String.eqb action "total").

(** Two runs of two configurations, the states they leave and the groups
    rendered from them. *)
Definition kw_c : pyval := PDict [(p_str "a", p_int 2)].

Definition two_group_runs : list run_result :=
  [sample_run "Nova.boot" kw_ab
     [sample_row "boot" (seconds 1 0) "100%";
      sample_row "total" (seconds 2 0) "100%";
      sample_row "delete" (seconds 1 0) "n/a"]
     (Py.Ffin false 25 (-1)) [true];
   sample_run "Cinder.create" kw_c
     [sample_row "total" (seconds 3 0) "95.5%"]
     (Py.Ffin false 15 (-1)) [false]].

Definition two_group_state : trends_data :=
  Eval vm_compute in fst (@add_results reference_extern [] two_group_runs).

Definition two_group_trends : list trend :=
  Eval vm_compute in
    match @get_data reference_extern two_group_state with
    | Ok trends => trends
    | Raise _ => []
    end.

Definition empty_group : group :=
  {| g_actions := []; g_sla_failures := 0; g_name := ""; g_config := "" |}.

Definition empty_trend : trend :=
  {| t_stat := []; t_name := ""; t_cls := ""; t_met := "";
     t_sla_failures := 0; t_config := ""; t_actions := []; t_total := None |}.

Definition nova_group : group :=
  Eval vm_compute in
    match Dict.get "a:1|b:2,3" two_group_state with
    | Some g => g
    | None => empty_group
    end.

Definition nova_trend : trend :=
  Eval vm_compute in
    match @render_group reference_extern nova_group with
    | Ok t => t
    | Raise _ => empty_trend
    end.

(** The distinct elements of a list, each at its first occurrence. *)
Definition see (seen : list string) (k : string) : list string :=
  if existsb (String.eqb k) seen then seen else (seen ++ [k])%list.

Definition first_seen (keys : list string) : list string :=
  fold_left see keys [].

(** The columns that [add_result] reads from every row of the stat table. *)
Definition required_columns : list string := "Success" :: map snd duration_columns.

(** A run whose stat table has no column for the median. *)
Definition short_cols_run : run_result :=
  {| key_name := "Nova.boot"; key_kw := kw_ab;
     stat_cols := ["Action"; "Min (sec)"; "Success"];
     stat_rows := [("total", [seconds 1 0; SStr "100%"])];
     tstamp_start := Py.Ffin false 15 (-1);
     sla := [{| sla_success := false |}] |}.

(** The row of the stat table for an action, if it has one. *)
Definition stat_row (r : run_result) (action : string) : option (Dict.t scalar) :=
  Dict.get action (make_stat (stat_cols r) (stat_rows r)).

(** The second of the [tie_runs] and the state before it is folded. *)
Definition tie_run_2 : run_result :=
  run_at (Py.Ffin false 15 (-1)) (seconds 3 0) "50%".

Definition tie_state_1 : trends_data :=
  Eval vm_compute in
    fst (@add_results reference_extern []
           [run_at (Py.Ffin false 15 (-1)) (seconds 5 0) "100%"]).

(** The group of [mixed_state] and what [get_data] renders for it. *)
Definition mixed_group : group :=
  Eval vm_compute in
    match Dict.get "a:1|b:2,3" mixed_state with
    | Some g => g
    | None => empty_group
    end.

Definition mixed_trend : trend :=
  Eval vm_compute in
    match @render_group reference_extern mixed_group with
    | Ok t => t
    | Raise _ => empty_trend
    end.

(** ** The report of one task: [_process_scenario] and [_process_tasks]

    The chart classes of [rally.task.processing.charts], the plugin
    registry and [json.dumps] are external; the charts are objects with
    [add_iteration] and [render], taken here with their state passed
    explicitly and assumed not to raise. *)

(** The types of the external objects, and of the parts of the input that
    only they read. *)
Class ReportTypes : Type := {
  Chart : Type;
  Rendered : Type;
  InfoOther : Type;
  IterationOther : Type;
  OutputData : Type;
  PluginCls : Type
}.

Section ReportData.
Context `{ReportTypes}.

(** [data["info"]] *)
Record scenario_info : Type := {
  iterations_count : Z;
  load_duration : scalar;
  full_duration : scalar;
  info_other : InfoOther
}.

(** An entry of [itr["output"]["additive"]]; the optional keys are those
    read with [get]. *)
Record additive : Type := {
  ad_data : OutputData;
  ad_chart_plugin : string;
  ad_title : string;
  ad_description : option string;
  ad_label : option string;
  ad_axis_label : option string
}.

(** An entry of [itr["output"]["complete"]]: its ["chart_plugin"] and its
    other items. *)
Record complete : Type := {
  co_chart_plugin : string;
  co_items : Dict.t pyval
}.

(** An iteration: [error] is [[]] or [[type, message, traceback]]. *)
Record iteration : Type := {
  it_error : list string;
  it_additive : list additive;
  it_complete : list complete;
  it_other : IterationOther
}.

Record scenario_data : Type := {
  sd_info : scenario_info;
  sd_iterations : list iteration;
  sd_key_name : string;
  sd_key_kw : pyval;
  sd_sla : list sla_entry
}.

Record error_entry : Type := {
  e_iteration : Z;
  e_type : string;
  e_message : string;
  e_traceback : string
}.

(** The seven charts that every iteration is added to. *)
Record main_charts : Type := {
  main_area : Chart;
  main_hist : Chart;
  main_stat : Chart;
  load_profile : Chart;
  atomic_pie : Chart;
  atomic_area : Chart;
  atomic_hist : Chart
}.

(** What [_process_scenario] returns. *)
Record scenario_out : Type := {
  so_cls : string;
  so_met : string;
  so_pos : string;
  so_name : string;
  so_runner : pyval;
  so_config : string;
  so_iterations_iter : Rendered;
  so_iterations_pie : list (string * Z);
  so_iterations_histogram : Rendered;
  so_load_profile : Rendered;
  so_atomic_histogram : Rendered;
  so_atomic_iter : Rendered;
  so_atomic_pie : Rendered;
  so_table : Rendered;
  so_additive_output : list Rendered;
  so_complete_output : list (list (Dict.t pyval));
  so_output_errors : list error_entry;
  so_errors : list error_entry;
  so_load_duration : scalar;
  so_full_duration : scalar;
  so_sla : list sla_entry;
  so_sla_success : bool;
  so_iterations_count : Z
}.

End ReportData.

Inductive main_chart_kind : Type :=
| MainStackedAreaChart
| MainHistogramChart
| MainStatsTable
| LoadProfileChart
| AtomicAvgChart
| AtomicStackedAreaChart
| AtomicHistogramChart.

(** The operations of the external objects. *)
Class ReportExtern `{ReportTypes} : Type := {
  new_chart : main_chart_kind -> scenario_info -> Chart;
  add_iteration : Chart -> iteration -> Chart;
  add_output : Chart -> OutputData -> Chart;
  render : Chart -> Rendered;
  plugin_get : string -> result PluginCls;
  plugin_chart : PluginCls -> scenario_info -> string -> string -> string -> string -> Chart;
  plugin_widget : PluginCls -> pyval;
  dumps_config : string -> pyval -> result string;
  dumps_source : Dict.t (list pyval) -> result string
}.

(** [d[k]] for a text key on a configuration value: a mapping is searched
    for the key, anything else cannot be subscripted by text. *)
Definition py_getitem (d : pyval) (k : string) : result pyval :=
  match d with
  | PDict items =>
      match find (fun kv => match fst kv with
                            | PScalar (SStr k') => String.eqb k k'
                            | _ => false
                            end) items with
      | Some kv => Ok (snd kv)
      | None => Raise (KeyError k)
      end
  | _ => Raise TypeError
  end.

(** [int(s)] for text: surrounding whitespace, an optional sign, decimal
    digits, where an underscore may separate two digits.  [None] stands
    for [ValueError]. *)
Definition int_of_str (s : string) : option Z :=
  let (neg, body) := Py.parse_sign (list_ascii_of_string (Py.strip s)) in
  match Py.digitpart 0 body with
  | Some (n, _, []) => Some (if neg then - Z.of_N n else Z.of_N n)
  | _ => None
  end.

(** [l[i] = x] for an index within the list. *)
Fixpoint replace_nth {A : Type} (i : nat) (x : A) (l : list A) : list A :=
  match l, i with
  | [], _ => []
  | _ :: l', O => x :: l'
  | y :: l', S i' => y :: replace_nth i' x l'
  end.

Definition get_default (o : option string) (default : string) : string :=
  match o with
  | Some s => s
  | None => default
  end.

Section ProcessScenario.
Context `{ReportExtern}.

(** [for i, additive in enumerate(itr["output"]["additive"])]: the chart
    at index [i] takes the data; when there is none ([IndexError]) one is
    made from the plugin, takes the data and is appended. *)
Fixpoint add_additive (info : scenario_info) (i : nat) (additives : list additive)
  (charts : list Chart) : result (list Chart) :=
  match additives with
  | [] => Ok charts
  | a :: rest =>
      match nth_error charts i with
      | Some chart =>
          add_additive info (S i) rest
            (replace_nth i (add_output chart (ad_data a)) charts)
      | None =>
          chart_cls <- plugin_get (ad_chart_plugin a) ;;
          let chart :=
            plugin_chart chart_cls info (ad_title a)
              (get_default (ad_description a) "")
              (get_default (ad_label a) "")
              (get_default (ad_axis_label a) "Iteration sequence number") in
          add_additive info (S i) rest
            (charts ++ [add_output chart (ad_data a)])%list
      end
  end.

(** [for complete in itr["output"]["complete"]] *)
Definition complete_chart (c : complete) : result (Dict.t pyval) :=
  chart_cls <- plugin_get (co_chart_plugin c) ;;
  Ok (Dict.set "widget" (plugin_widget chart_cls) (co_items c)).

(** [for chart in (main_area, ...): chart.add_iteration(itr)] *)
Definition add_to_main (m : main_charts) (itr : iteration) : main_charts :=
  {| main_area := add_iteration (main_area m) itr;
     main_hist := add_iteration (main_hist m) itr;
     main_stat := add_iteration (main_stat m) itr;
     load_profile := add_iteration (load_profile m) itr;
     atomic_pie := add_iteration (atomic_pie m) itr;
     atomic_area := add_iteration (atomic_area m) itr;
     atomic_hist := add_iteration (atomic_hist m) itr |}.

(** The locals that the loop over the iterations updates. *)
Record report_state : Type := {
  rs_errors : list error_entry;
  rs_additive : list Chart;
  rs_complete : list (list (Dict.t pyval));
  rs_main : main_charts
}.

(** [if itr["error"]: typ, msg, trace = itr["error"]; errors.append(...)] *)
Definition add_error (idx : Z) (error : list string) (errors : list error_entry)
  : result (list error_entry) :=
  match error with
  | [] => Ok errors
  | [typ; msg; trace] =>
      Ok (errors ++ [{| e_iteration := idx; e_type := typ; e_message := msg;
                        e_traceback := trace |}])%list
  | _ => Raise ValueError
  end.

(** [for idx, itr in enumerate(data["iterations"], 1)] *)
Fixpoint process_iterations (info : scenario_info) (idx : Z) (itrs : list iteration)
  (st : report_state) : result report_state :=
  match itrs with
  | [] => Ok st
  | itr :: rest =>
      errors <- add_error idx (it_error itr) (rs_errors st) ;;
      charts <- add_additive info 0 (it_additive itr) (rs_additive st) ;;
      complete_charts <- mapM complete_chart (it_complete itr) ;;
      process_iterations info (idx + 1) rest
        {| rs_errors := errors; rs_additive := charts;
           rs_complete := (rs_complete st ++ [complete_charts])%list;
           rs_main := add_to_main (rs_main st) itr |}
  end.

Definition _process_scenario (data : scenario_data) (pos : Z) : result scenario_out :=
  let info := sd_info data in
  let st0 :=
    {| rs_errors := []; rs_additive := []; rs_complete := [];
       rs_main := {| main_area := new_chart MainStackedAreaChart info;
                     main_hist := new_chart MainHistogramChart info;
                     main_stat := new_chart MainStatsTable info;
                     load_profile := new_chart LoadProfileChart info;
                     atomic_pie := new_chart AtomicAvgChart info;
                     atomic_area := new_chart AtomicStackedAreaChart info;
                     atomic_hist := new_chart AtomicHistogramChart info |} |} in
  st <- process_iterations info 1 (sd_iterations data) st0 ;;
  let kw := sd_key_kw data in
  match Py.split "." (sd_key_name data) with
  | [cls; method] =>
      let additive_output := map render (rs_additive st) in
      let count := iterations_count info in
      let errors := rs_errors st in
      runner <- py_getitem kw "runner" ;;
      runner_type <- py_getitem runner "type" ;;
      config <- dumps_config (sd_key_name data) kw ;;
      Ok {| so_cls := cls;
            so_met := method;
            so_pos := Py.str_int pos;
            so_name := method ++ (if pos =? 0 then ""
                                  else " [" ++ Py.str_int (pos + 1) ++ "]");
            so_runner := runner_type;
            so_config := config;
            so_iterations_iter := render (main_area (rs_main st));
            so_iterations_pie :=
              [("success", count - Z.of_nat (List.length errors));
               ("errors", Z.of_nat (List.length errors))];
            so_iterations_histogram := render (main_hist (rs_main st));
            so_load_profile := render (load_profile (rs_main st));
            so_atomic_histogram := render (atomic_hist (rs_main st));
            so_atomic_iter := render (atomic_area (rs_main st));
            so_atomic_pie := render (atomic_pie (rs_main st));
            so_table := render (main_stat (rs_main st));
            so_additive_output := additive_output;
            so_complete_output := rs_complete st;
            so_output_errors := [];
            so_errors := errors;
            so_load_duration := load_duration info;
            so_full_duration := full_duration info;
            so_sla := sd_sla data;
            so_sla_success := forallb sla_success (sd_sla data);
            so_iterations_count := count |}
  | _ => Raise ValueError
  end.

(** The locals of [_process_tasks]: [position] and [source_dict] are
    dictionaries with a default ([-1] and [[]]). *)
Record tasks_state : Type := {
  ts_tasks : list scenario_out;
  ts_source_dict : Dict.t (list pyval);
  ts_position : Dict.t Z
}.

(** [for scenario in tasks_results] *)
Fixpoint process_each (scenarios : list scenario_data) (st : tasks_state)
  : result tasks_state :=
  match scenarios with
  | [] => Ok st
  | scenario :: rest =>
      let name := sd_key_name scenario in
      let pos := match Dict.get name (ts_position st) with
                 | Some p => p
                 | None => -1
                 end + 1 in
      let position := Dict.set name pos (ts_position st) in
      let kws := match Dict.get name (ts_source_dict st) with
                 | Some l => l
                 | None => []
                 end in
      let source_dict := Dict.set name (kws ++ [sd_key_kw scenario])%list
                           (ts_source_dict st) in
      task <- _process_scenario scenario pos ;;
      process_each rest
        {| ts_tasks := (ts_tasks st ++ [task])%list;
           ts_source_dict := source_dict;
           ts_position := position |}
  end.

(** [(r["cls"], r["met"], int(r["pos"]))] *)
Definition task_key (r : scenario_out) : result (string * string * Z) :=
  match int_of_str (so_pos r) with
  | Some p => Ok (so_cls r, so_met r, p)
  | None => Raise ValueError
  end.

(** [<] on two such keys. *)
Definition task_key_ltb (a b : string * string * Z) : bool :=
  let '(c1, m1, p1) := a in
  let '(c2, m2, p2) := b in
  if String.eqb c1 c2 then
    if String.eqb m1 m2 then p1 <? p2 else String.ltb m1 m2
  else String.ltb c1 c2.

(** [sorted(tasks, key=...)]: the keys are computed first, one per
    element, then the elements are sorted by their keys. *)
Definition sorted_tasks (tasks : list scenario_out) : result (list scenario_out) :=
  keys <- mapM task_key tasks ;;
  keyed <- Py.sorted (fun a b => Ok (task_key_ltb (fst a) (fst b))) (zip keys tasks) ;;
  Ok (map snd keyed).

Definition _process_tasks (tasks_results : list scenario_data)
  : result (string * list scenario_out) :=
  st <- process_each tasks_results
          {| ts_tasks := []; ts_source_dict := []; ts_position := [] |} ;;
  source <- dumps_source (ts_source_dict st) ;;
  tasks <- sorted_tasks (ts_tasks st) ;;
  Ok (source, tasks).

End ProcessScenario.

(** The number that the digits [d] spell after the digits already read,
    whose number is [acc]. *)
Fixpoint uint_acc (d : Decimal.uint) (acc : N) : N :=
  match d with
  | Decimal.Nil => acc
  | Decimal.D0 d => uint_acc d (10 * acc + 0)
  | Decimal.D1 d => uint_acc d (10 * acc + 1)
  | Decimal.D2 d => uint_acc d (10 * acc + 2)
  | Decimal.D3 d => uint_acc d (10 * acc + 3)
  | Decimal.D4 d => uint_acc d (10 * acc + 4)
  | Decimal.D5 d => uint_acc d (10 * acc + 5)
  | Decimal.D6 d => uint_acc d (10 * acc + 6)
  | Decimal.D7 d => uint_acc d (10 * acc + 7)
  | Decimal.D8 d => uint_acc d (10 * acc + 8)
  | Decimal.D9 d => uint_acc d (10 * acc + 9)
  end%N.

Definition not_space (c : ascii) : bool := negb (Py.isspace c).

(** The error entries that a run of iterations numbered from [idx] gives,
    read off the [error] fields alone. *)
Fixpoint error_entries `{ReportTypes} (idx : Z) (itrs : list iteration)
  : list error_entry :=
  match itrs with
  | [] => []
  | itr :: rest =>
      match it_error itr with
      | [typ; msg; trace] =>
          {| e_iteration := idx; e_type := typ; e_message := msg;
             e_traceback := trace |} :: error_entries (idx + 1) rest
      | _ => error_entries (idx + 1) rest
      end
  end.

(** For every scenario, the number of scenarios before it with its name. *)
Fixpoint positions_from `{ReportTypes} (seen : list string)
  (scenarios : list scenario_data) : list Z :=
  match scenarios with
  | [] => []
  | s :: rest =>
      Z.of_nat (count_occ string_dec seen (sd_key_name s))
      :: positions_from (sd_key_name s :: seen) rest
  end.

(** An instance of the external objects, used to run the report on
    concrete inputs: a chart is the list of what it was given. *)
Definition log_types : ReportTypes :=
  {| Chart := list string; Rendered := list string; InfoOther := unit;
     IterationOther := string; OutputData := string; PluginCls := string |}.

Definition log_extern : @ReportExtern log_types :=
  @Build_ReportExtern log_types
    (fun _ _ => @nil string)
    (fun (c : list string) (itr : @iteration log_types) =>
       (c ++ [@it_other log_types itr])%list)
    (fun (c : list string) (d : string) => (c ++ [d])%list)
    (fun (c : list string) => c)
    (fun name : string => Ok name)
    (fun (cls : string) _ (title : string) _ _ _ => [cls; title])
    (fun cls : string => p_str cls)
    (fun _ kw => _to_str kw)
    (fun _ => Ok "").

Section Samples.

#[local] Existing Instance log_types.
#[local] Existing Instance log_extern.

Definition kw_runner : pyval :=
  PDict [(p_str "runner", PDict [(p_str "type", p_str "constant")])].

Definition sample_additive (title data : string) : @additive log_types :=
  {| ad_data := data; ad_chart_plugin := "Lines"; ad_title := title;
     ad_description := None; ad_label := None; ad_axis_label := None |}.

Definition sample_iteration (label : string) (error : list string)
  (additives : list (@additive log_types)) : @iteration log_types :=
  {| it_error := error; it_additive := additives;
     it_complete := [{| co_chart_plugin := "Pie";
                        co_items := [("title", p_str "usage")] |}];
     it_other := label |}.

Definition sample_scenario (name : string) : @scenario_data log_types :=
  {| sd_info := {| iterations_count := 3; load_duration := seconds 15 (-1);
                   full_duration := seconds 2 0; info_other := tt |};
     sd_iterations :=
       [sample_iteration "i1" [] [sample_additive "a" "1"];
        sample_iteration "i2" ["KeyError"; "no such key"; "Traceback"]
          [sample_additive "a" "2"; sample_additive "b" "3"];
        sample_iteration "i3" [] []];
     sd_key_name := name;
     sd_key_kw := kw_runner;
     sd_sla := [{| sla_success := true |}] |}.

Definition sample_scenarios : list (@scenario_data log_types) :=
  [sample_scenario "Nova.boot"; sample_scenario "Cinder.create";
   sample_scenario "Nova.boot"].

End Samples.

(** The number of dots of a name. *)
Definition count_dots (s : string) : nat :=
  List.length (filter (Ascii.eqb ".") (list_ascii_of_string s)).

(** The charts of a scenario, column by column: the additive outputs that
    the iterations give at index [i], in the order of the iterations. *)
Definition column `{ReportTypes} (i : nat) (itrs : list iteration) : list additive :=
  flat_map (fun itr => match nth_error (it_additive itr) i with
                       | Some a => [a]
                       | None => []
                       end) itrs.

(** The chart of a column: made for its first output, fed every output. *)
Definition column_chart `{ReportExtern} (info : scenario_info) (cls : PluginCls)
  (a : additive) (col : list additive) : Chart :=
  fold_left add_output (map ad_data (a :: col))
    (plugin_chart cls info (ad_title a)
       (get_default (ad_description a) "")
       (get_default (ad_label a) "")
       (get_default (ad_axis_label a) "Iteration sequence number")).

(** The longest list of additive outputs among the iterations. *)
Definition widest `{ReportTypes} (itrs : list iteration) : nat :=
  list_max (map (fun itr => List.length (it_additive itr)) itrs).

(** A main chart that was given every iteration in order. *)
Definition fed `{ReportExtern} (kind : main_chart_kind) (data : scenario_data)
  : Rendered :=
  render (fold_left add_iteration (sd_iterations data)
            (new_chart kind (sd_info data))).

(** The configurations of the scenarios called [name], in order. *)
Definition configs_of `{ReportTypes} (name : string)
  (scenarios : list scenario_data) : list pyval :=
  map sd_key_kw (filter (fun s => String.eqb (sd_key_name s) name) scenarios).

(** Strict order of two rendered scenarios by their sort keys. *)
Definition task_before `{ReportExtern} (a b : scenario_out) : Prop :=
  exists ka kb,
    task_key a = Ok ka /\ task_key b = Ok kb /\ task_key_ltb ka kb = true.

(** The additive output that a list gives at index [j], if any. *)
Definition cell `{ReportTypes} (additives : list additive) (j : nat) : list additive :=
  match nth_error additives j with
  | Some a => [a]
  | None => []
  end.

(** The iterations that failed. *)
Definition failed `{ReportTypes} (itrs : list iteration) : list iteration :=
  filter (fun itr => match it_error itr with [] => false | _ => true end) itrs.

(** What [complete_chart] makes of one complete output. *)
Definition widget_of `{ReportExtern} (c : complete) (chart : Dict.t pyval) : Prop :=
  exists cls,
    plugin_get (co_chart_plugin c) = Ok cls
    /\ Dict.get "widget" chart = Some (plugin_widget cls)
    /\ forall k, k <> "widget" -> Dict.get k chart = Dict.get k (co_items c).

(** The charts while the additive outputs of one iteration are added:
    the first [i] columns have taken the iteration's output. *)
Definition charts_at `{ReportExtern} (info : scenario_info) (done : list iteration)
  (additives : list additive) (i : nat) (charts : list Chart) : Prop :=
  List.length charts = Nat.max (widest done) i
  /\ forall j c,
       nth_error charts j = Some c ->
       exists a col cls,
         (column j done ++ (if Nat.ltb j i then cell additives j else []))%list
         = a :: col
         /\ plugin_get (ad_chart_plugin a) = Ok cls
         /\ c = column_chart info cls a col.

(** The charts between two iterations. *)
Definition charts_after `{ReportExtern} (info : scenario_info) (done : list iteration)
  (charts : list Chart) : Prop :=
  List.length charts = widest done
  /\ forall j c,
       nth_error charts j = Some c ->
       exists a col cls,
         column j done = a :: col
         /\ plugin_get (ad_chart_plugin a) = Ok cls
         /\ c = column_chart info cls a col.

(** The scenarios paired with their positions. *)
Definition positioned `{ReportTypes} (scenarios : list scenario_data)
  : list (scenario_data * Z) :=
  zip scenarios (positions_from [] scenarios).


Section ReportSamples.

#[local] Existing Instance log_types.
#[local] Existing Instance log_extern.

Definition sample_report : scenario_out :=
  Eval vm_compute in
    match _process_scenario (sample_scenario "Nova.boot") 2 as r
      return match r with Ok _ => scenario_out | Raise _ => unit end with
    | Ok out => out
    | Raise _ => tt
    end.

Definition sample_outs : list scenario_out :=
  Eval vm_compute in
    match mapM (fun sp => _process_scenario (fst sp) (snd sp))
            (positioned sample_scenarios) with
    | Ok outs => outs
    | Raise _ => []
    end.

Definition sample_tasks : list scenario_out :=
  Eval vm_compute in
    match _process_tasks sample_scenarios with
    | Ok (_, tasks) => tasks
    | Raise _ => []
    end.

Definition bad_scenarios : list scenario_data :=
  [sample_scenario "Nova.boot"; sample_scenario "Nova.boot.again"].

End ReportSamples.

(** A character other than [c]. *)
Definition not_char (c x : ascii) : bool := negb (Ascii.eqb x c).

(** Text that is already trimmed. *)
Definition trimmed (s : string) : bool := String.eqb (Py.strip s) s.

(** A pair of trimmed texts for a mapping: the key has neither [":"] nor
    ["|"], the value has no ["|"]. *)
Definition plain_pair (kv : string * string) : bool :=
  trimmed (fst kv) && trimmed (snd kv)
  && forall_chars (not_char ":") (fst kv)
  && forall_chars (not_char "|") (fst kv)
  && forall_chars (not_char "|") (snd kv).

Definition p_pair (kv : string * string) : pyval * pyval :=
  (p_str (fst kv), p_str (snd kv)).

(** The text that a pair contributes to the canonical string. *)
Definition pair_text (kv : string * string) : string :=
  fst kv ++ ":" ++ snd kv.

(** What follows an item in a joined string: nothing, or the separator. *)
Definition sep_tail (c : ascii) (t : string) : Prop :=
  t = "" \/ exists t', t = String c t'.

(** The dictionary that [_process_tasks] dumps: the names of the scenarios,
    each at its first occurrence, with the configurations of the scenarios
    of that name in their order. *)
Definition grouped_configs `{ReportTypes} (scenarios : list scenario_data)
  : Dict.t (list pyval) :=
  map (fun name => (name, configs_of name scenarios))
    (first_seen (map sd_key_name scenarios)).

(** * Properties *)

(** ** The builtins on samples *)

Example str_float_samples :
  map Py.str_float
    [Py.Ffin false 15 (-1); Py.Ffin false 1 (-4); Py.Ffin false 1 (-5);
     Py.Ffin false 1 16; Py.Ffin false 1 15; Py.Ffin true 1250 (-2);
     Py.Ffin false 15 (-8); Py.Ffin false 0 0; Py.Ffin false 100 0]
  = ["1.5"; "0.0001"; "1e-05"; "1e+16"; "1000000000000000.0"; "-12.5";
     "1.5e-07"; "0.0"; "100.0"].
Proof. reflexivity. Qed.

Example strip_samples :
  map Py.strip ["  a b "; "a"; "   "; ""] = ["a b"; "a"; ""; ""]
  /\ Py.rstrip "%" "100%" = "100" /\ Py.str_int (-42) = "-42"
  /\ Py.str_int 0 = "0".
Proof. repeat split; reflexivity. Qed.


Example float_of_str_samples :
  map Py.float_of_str ["n/a"; "100"; "99.5"; " 1e3 "; "-.5"; "1."; "."; "";
                       "1_0"; "1__0"; "_1"; "nan"; "-Infinity"; "1e"; "0x10"; "12a"]
  = [None; Some (Py.Ffin false 100 0); Some (Py.Ffin false 995 (-1));
     Some (Py.Ffin false 1 3); Some (Py.Ffin true 5 (-1));
     Some (Py.Ffin false 1 0); None; None; Some (Py.Ffin false 10 0); None;
     None; Some Py.Fnan; Some (Py.Finf true); None; None; None].
Proof. reflexivity. Qed.


(** ** The order on text *)

Lemma ascii_compare_refl (c : ascii) : Ascii.compare c c = Eq.
Proof. unfold Ascii.compare. apply N.compare_refl. Qed.

Lemma ascii_compare_trans (a b c : ascii) :
  Ascii.compare a b = Lt -> Ascii.compare b c = Lt -> Ascii.compare a c = Lt.
Proof.
  unfold Ascii.compare. rewrite !N.compare_lt_iff. apply N.lt_trans.
Qed.

Lemma string_compare_refl (s : string) : String.compare s s = Eq.
Proof.
  induction s as [|c s IH]; simpl; [reflexivity|].
  now rewrite ascii_compare_refl.
Qed.

Lemma string_compare_trans (a b c : string) :
  String.compare a b = Lt -> String.compare b c = Lt -> String.compare a c = Lt.
Proof.
  revert b c. induction a as [|x a IH]; intros [|y b] [|z c]; simpl;
    try discriminate; try reflexivity.
  destruct (Ascii.compare x y) eqn:Hxy; try discriminate;
    destruct (Ascii.compare y z) eqn:Hyz; try discriminate; intros H1 H2.
  - apply Ascii.compare_eq_iff in Hxy, Hyz. subst.
    rewrite ascii_compare_refl. eauto.
  - apply Ascii.compare_eq_iff in Hxy. subst. now rewrite Hyz.
  - apply Ascii.compare_eq_iff in Hyz. subst. now rewrite Hxy.
  - now rewrite (ascii_compare_trans _ _ _ Hxy Hyz).
Qed.

Lemma str_ltb_irrefl (a : string) : String.ltb a a = false.
Proof. unfold String.ltb. now rewrite string_compare_refl. Qed.

Lemma str_ltb_asym (a b : string) :
  String.ltb a b = true -> String.ltb b a = false.
Proof.
  unfold String.ltb. rewrite (String.compare_antisym b a).
  destruct (String.compare a b); simpl; congruence.
Qed.

Lemma str_ltb_trans (a b c : string) :
  String.ltb a b = true -> String.ltb b c = true -> String.ltb a c = true.
Proof.
  unfold String.ltb.
  destruct (String.compare a b) eqn:H1; try discriminate.
  destruct (String.compare b c) eqn:H2; try discriminate.
  now rewrite (string_compare_trans _ _ _ H1 H2).
Qed.

Lemma str_ltb_total (a b : string) :
  String.ltb a b = false -> String.ltb b a = false -> a = b.
Proof.
  unfold String.ltb. rewrite (String.compare_antisym b a).
  destruct (String.compare a b) eqn:H; simpl; try discriminate.
  intros _ _. now apply String.compare_eq_iff.
Qed.

(** ** Insertion sort *)

Section IsortFacts.
Context {A : Type} (ltb : A -> A -> bool).

Lemma sorted_total_isort (l : list A) :
  Py.sorted (fun a b => Ok (ltb a b)) l = Ok (isort ltb l).
Proof.
  assert (Hins : forall x s,
             Py.insort (fun a b => Ok (ltb a b)) x s = Ok (insert ltb x s)).
  { intros x s. induction s as [|y s IH]; simpl; [reflexivity|].
    destruct (ltb y x); [rewrite IH|]; reflexivity. }
  induction l as [|x l IH]; simpl; [reflexivity|].
  rewrite IH. simpl. apply Hins.
Qed.

Lemma insert_Permutation (x : A) (l : list A) :
  Permutation (x :: l) (insert ltb x l).
Proof.
  induction l as [|y l IH]; simpl; [reflexivity|].
  destruct (ltb y x); [|reflexivity].
  rewrite perm_swap. now apply perm_skip.
Qed.

Lemma isort_Permutation (l : list A) : Permutation l (isort ltb l).
Proof.
  induction l as [|x l IH]; simpl; [reflexivity|].
  rewrite <- insert_Permutation. now apply perm_skip.
Qed.

Hypothesis ltb_asym : forall a b, ltb a b = true -> ltb b a = false.
Hypothesis ltb_trans : forall a b c, ltb a b = true -> ltb b c = true -> ltb a c = true.
Hypothesis ltb_total : forall a b, ltb a b = false -> ltb b a = false -> a = b.

Lemma ltb_le_lt (x y z : A) :
  ltb z x = false -> ltb z y = true -> ltb x y = true.
Proof.
  intros Hzx Hzy. destruct (ltb x y) eqn:Hxy; [reflexivity|].
  destruct (ltb y x) eqn:Hyx.
  - rewrite (ltb_trans _ _ _ Hzy Hyx) in Hzx. discriminate.
  - rewrite (ltb_total _ _ Hxy Hyx) in Hzx. congruence.
Qed.

Lemma insert_two (x y : A) : insert ltb x [y] = insert ltb y [x].
Proof.
  simpl. destruct (ltb y x) eqn:Hyx.
  - now rewrite (ltb_asym _ _ Hyx).
  - destruct (ltb x y) eqn:Hxy; [reflexivity|].
    now rewrite (ltb_total _ _ Hxy Hyx).
Qed.

Lemma insert_insert (x y : A) (l : list A) :
  insert ltb x (insert ltb y l) = insert ltb y (insert ltb x l).
Proof.
  induction l as [|z l IH]; [apply insert_two|].
  simpl. destruct (ltb z y) eqn:Hzy; destruct (ltb z x) eqn:Hzx; simpl;
    rewrite ?Hzy, ?Hzx.
  - now rewrite IH.
  - rewrite (ltb_le_lt _ _ _ Hzx Hzy). simpl. now rewrite ?Hzy.
  - rewrite (ltb_le_lt _ _ _ Hzy Hzx). simpl. now rewrite ?Hzx.
  - destruct (ltb y x) eqn:Hyx.
    + rewrite (ltb_asym _ _ Hyx). simpl. now rewrite ?Hzx.
    + destruct (ltb x y) eqn:Hxy; simpl.
      * now rewrite ?Hzy.
      * now rewrite (ltb_total _ _ Hxy Hyx).
Qed.

Lemma isort_perm_invariant (l l' : list A) :
  Permutation l l' -> isort ltb l = isort ltb l'.
Proof.
  induction 1 as [|x l l' _ IH|x y l|l l' l'' _ IH1 _ IH2]; simpl.
  - reflexivity.
  - now rewrite IH.
  - apply insert_insert.
  - congruence.
Qed.

End IsortFacts.

Lemma sorted_str_isort (l : list string) :
  Py.sorted Py.str_lt l = Ok (isort String.ltb l).
Proof. apply (sorted_total_isort String.ltb). Qed.

Lemma sorted_str_perm (a b : list string) :
  Permutation a b -> Py.sorted Py.str_lt a = Py.sorted Py.str_lt b.
Proof.
  intros Hp. rewrite !sorted_str_isort. f_equal.
  apply isort_perm_invariant; trivial.
  - exact str_ltb_asym.
  - exact str_ltb_trans.
  - exact str_ltb_total.
Qed.

(** ** Canonicalization *)

Lemma to_str_list (l : list pyval) :
  _to_str (PList l) =
  (strs <- mapM _to_str l ;; srt <- Py.sorted Py.str_lt strs ;; Ok (Py.join "," srt)).
Proof.
  cbn [_to_str]. f_equal.
  induction l as [|v l IH]; [reflexivity|].
  cbn [mapM]. now rewrite IH.
Qed.

Lemma to_str_dict (d : list (pyval * pyval)) :
  _to_str (PDict d) =
  (strs <- mapM pair_str d ;; srt <- Py.sorted Py.str_lt strs ;; Ok (Py.join "|" srt)).
Proof.
  cbn [_to_str]. f_equal.
  induction d as [|[k v] d IH]; [reflexivity|].
  cbn [mapM]. rewrite IH. unfold pair_str. cbn [fst snd].
  destruct (_to_str k); [|reflexivity].
  destruct (_to_str v); reflexivity.
Qed.

Lemma to_str_scalar (x : scalar) :
  _to_str (PScalar x) =
  Ok (match x with SNone => "None" | _ => Py.strip (str_scalar x) end).
Proof. destruct x; reflexivity. Qed.

Lemma mapM_raise {A B : Type} (f : A -> result B) (l : list A) (e : exn) :
  mapM f l = Raise e -> exists x, In x l /\ f x = Raise e.
Proof.
  induction l as [|x l IH]; simpl; [discriminate|].
  destruct (f x) eqn:Hx; simpl.
  - destruct (mapM f l); simpl; [discriminate|].
    intros H. destruct (IH H) as (y & Hy & Hf). eauto.
  - intros H. exists x. split; [now left|congruence].
Qed.

Lemma sorted_str_ok (l : list string) : exists s, Py.sorted Py.str_lt l = Ok s.
Proof. rewrite sorted_str_isort. eauto. Qed.

(** [_to_str] raises nothing but [TypeError]. *)
Lemma to_str_raise (v : pyval) (e : exn) : _to_str v = Raise e -> e = TypeError.
Proof.
  revert e. induction v as [x|l IH|d IH|t] using pyval_induction; intros e.
  - rewrite to_str_scalar. discriminate.
  - rewrite to_str_list. destruct (mapM _to_str l) as [strs|e'] eqn:Hm; simpl.
    + destruct (sorted_str_ok strs) as [s ->]. discriminate.
    + intros [= <-]. apply mapM_raise in Hm. destruct Hm as (x & Hin & Hx).
      rewrite Forall_forall in IH. eauto.
  - rewrite to_str_dict. destruct (mapM pair_str d) as [strs|e'] eqn:Hm; simpl.
    + destruct (sorted_str_ok strs) as [s ->]. discriminate.
    + intros [= <-]. apply mapM_raise in Hm. destruct Hm as ([k v] & Hin & Hx).
      rewrite Forall_forall in IH. destruct (IH _ Hin) as [IHk IHv].
      unfold pair_str in Hx. cbn [fst snd] in *.
      destruct (_to_str k) eqn:Hk; simpl in Hx; [|inversion Hx; subst; eauto].
      destruct (_to_str v) eqn:Hv; simpl in Hx; [discriminate|].
      inversion Hx; subst; eauto.
  - simpl. congruence.
Qed.

Lemma pair_str_raise (kv : pyval * pyval) (e : exn) :
  pair_str kv = Raise e -> e = TypeError.
Proof.
  unfold pair_str. destruct (_to_str (fst kv)) eqn:Hk; simpl.
  - destruct (_to_str (snd kv)) eqn:Hv; simpl; [discriminate|].
    intros [= <-]. eauto using to_str_raise.
  - intros [= <-]. eauto using to_str_raise.
Qed.

Lemma perm_result_refl (r : result (list string)) : perm_result r r.
Proof. destruct r; simpl; reflexivity. Qed.

Lemma perm_result_sym (r r' : result (list string)) :
  perm_result r r' -> perm_result r' r.
Proof. destruct r, r'; simpl; auto using Permutation_sym. Qed.

Lemma perm_result_trans (a b c : result (list string)) :
  perm_result a b -> perm_result b c -> perm_result a c.
Proof.
  destruct a, b, c; simpl; try tauto; try congruence.
  apply Permutation_trans.
Qed.

Lemma mapM_Permutation {A : Type} (f : A -> result string) (l l' : list A) :
  (forall x e, f x = Raise e -> e = TypeError) ->
  Permutation l l' -> perm_result (mapM f l) (mapM f l').
Proof.
  intros Hf. induction 1 as [|x l l' _ IH|x y l|l l' l'' _ IH1 _ IH2].
  - apply perm_result_refl.
  - simpl. destruct (f x); simpl; [|reflexivity].
    destruct (mapM f l), (mapM f l'); simpl in *; auto.
  - simpl. destruct (f x) eqn:Hx, (f y) eqn:Hy; simpl;
      try destruct (mapM f l); simpl; try reflexivity; try apply perm_swap.
    all: now rewrite (Hf _ _ Hx), (Hf _ _ Hy).
  - eapply perm_result_trans; eauto.
Qed.

Lemma perm_result_sorted (sep : string) (r r' : result (list string)) :
  perm_result r r' ->
  (strs <- r ;; srt <- Py.sorted Py.str_lt strs ;; Ok (Py.join sep srt)) =
  (strs <- r' ;; srt <- Py.sorted Py.str_lt strs ;; Ok (Py.join sep srt)).
Proof.
  destruct r, r'; simpl; try tauto; try congruence.
  intros Hp. now rewrite (sorted_str_perm _ _ Hp).
Qed.

Lemma canon_related_to_str (a b : pyval) :
  canon_related a b -> _to_str a = _to_str b.
Proof.
  destruct a, b; simpl canon_related; try congruence.
  - rewrite !to_str_list. apply perm_result_sorted.
  - rewrite !to_str_dict. apply perm_result_sorted.
Qed.

Lemma canon_related_refl (a : pyval) : canon_related a a.
Proof. destruct a; simpl; auto using perm_result_refl. Qed.

Lemma perm_equiv_related (a b : pyval) : perm_equiv a b -> canon_related a b.
Proof.
  induction 1 as [v|a b _ IH|a b c _ IH1 _ IH2|l l' Hp|d d' Hp
                 |v v' l l' _ IHv _ IHl|k k' v v' d d' _ IHk _ IHv _ IHd].
  - apply canon_related_refl.
  - destruct a, b; simpl in *; try congruence; auto using perm_result_sym.
  - destruct a, b, c; simpl in *; try congruence;
      eauto using perm_result_trans.
  - simpl. apply mapM_Permutation; [apply to_str_raise|assumption].
  - simpl. apply mapM_Permutation; [apply pair_str_raise|assumption].
  - apply canon_related_to_str in IHv. simpl in *. rewrite IHv.
    destruct (_to_str v'); simpl; [|reflexivity].
    destruct (mapM _to_str l), (mapM _to_str l'); simpl in *; auto.
  - apply canon_related_to_str in IHk, IHv. simpl in *.
    unfold pair_str at 1 3. cbn [fst snd]. rewrite IHk, IHv.
    destruct (_to_str k'); simpl; [|reflexivity].
    destruct (_to_str v'); simpl; [|reflexivity].
    destruct (mapM pair_str d), (mapM pair_str d'); simpl in *; auto.
Qed.

Section Grouping.
Context `{Extern}.

(** C1: canonicalization does not depend on the order of the pairs of a
    mapping nor on the order of the elements of a sequence, and two run
    results whose [key.kw] are structurally equal up to such reorderings,
    at any depth, get the same group key. *)
Theorem canonicalize_order_independent :
  (forall d d', Permutation d d' -> _to_str (PDict d) = _to_str (PDict d'))
  /\ (forall l l', Permutation l l' -> _to_str (PList l) = _to_str (PList l'))
  /\ (forall a b : run_result,
        perm_equiv (key_kw a) (key_kw b) ->
        _make_hash (key_kw a) = _make_hash (key_kw b)).
Proof.
  split; [|split].
  - intros d d' Hp. apply canon_related_to_str, perm_equiv_related.
    now apply pe_dict_perm.
  - intros l l' Hp. apply canon_related_to_str, perm_equiv_related.
    now apply pe_list_perm.
  - intros a b Hab. unfold _make_hash.
    now rewrite (canon_related_to_str _ _ (perm_equiv_related _ _ Hab)).
Qed.

End Grouping.

Lemma kw_ab_equiv_kw_ba : perm_equiv kw_ab kw_ba.
Proof.
  unfold kw_ab, kw_ba.
  apply pe_trans with (PDict [(p_str "a", p_int 1); (p_str "b", PList [p_int 2; p_int 3])]).
  - apply pe_dict_cons; [apply pe_refl .. |].
    apply pe_dict_cons; [apply pe_refl| |apply pe_refl].
    apply pe_list_perm, perm_swap.
  - apply pe_dict_perm, perm_swap.
Qed.

Lemma canonicalize_order_independent_witness :
  _to_str (PDict [(p_str "a", p_int 1); (p_str "b", p_int 2)])
  = _to_str (PDict [(p_str "b", p_int 2); (p_str "a", p_int 1)])
  /\ _to_str (PList [p_int 3; p_int 2]) = _to_str (PList [p_int 2; p_int 3])
  /\ @_make_hash reference_extern kw_ab = @_make_hash reference_extern kw_ba.
Proof.
  destruct (@canonicalize_order_independent reference_extern) as (Hd & Hl & Hh).
  split; [|split].
  - apply Hd, perm_swap.
  - apply Hl, perm_swap.
  - apply (Hh (sample_run "C.m" kw_ab [] (Py.Ffin false 0 0) [])
              (sample_run "C.m" kw_ba [] (Py.Ffin false 0 0) [])).
    exact kw_ab_equiv_kw_ba.
Defined.

(** ** Unsupported values *)

Lemma mapM_ok_sorted_join (sep : string) (r : result (list string)) (e : exn) :
  (strs <- r ;; srt <- Py.sorted Py.str_lt strs ;; Ok (Py.join sep srt)) = Raise e ->
  r = Raise e.
Proof.
  destruct r as [strs|e']; simpl; [|congruence].
  destruct (sorted_str_ok strs) as [s ->]. discriminate.
Qed.

Lemma unsupported_to_str (v : pyval) : unsupported v -> _to_str v = Raise TypeError.
Proof.
  induction 1 as [t|v l _ IH|v l _ IH|k v d _ IH|k v d _ IH|k v d _ IH].
  - reflexivity.
  - rewrite to_str_list. cbn [mapM]. now rewrite IH.
  - rewrite to_str_list in *. apply mapM_ok_sorted_join in IH.
    cbn [mapM]. rewrite IH.
    destruct (_to_str v) eqn:Hv; simpl; [reflexivity|].
    now rewrite (to_str_raise _ _ Hv).
  - rewrite to_str_dict. cbn [mapM]. unfold pair_str at 1. cbn [fst snd].
    now rewrite IH.
  - rewrite to_str_dict. cbn [mapM]. unfold pair_str at 1. cbn [fst snd].
    rewrite IH. destruct (_to_str k) eqn:Hk; simpl; [reflexivity|].
    now rewrite (to_str_raise _ _ Hk).
  - rewrite to_str_dict in *. apply mapM_ok_sorted_join in IH.
    cbn [mapM]. rewrite IH.
    destruct (pair_str (k, v)) eqn:Hkv; simpl; [reflexivity|].
    now rewrite (pair_str_raise _ _ Hkv).
Qed.

Lemma unsupported_in_list (x : pyval) (l : list pyval) :
  In x l -> unsupported x -> unsupported (PList l).
Proof.
  induction l as [|y l IH]; simpl; [tauto|].
  intros [->|Hin] Hx; [now apply un_list_head|].
  apply un_list_tail; auto.
Qed.

Lemma unsupported_in_dict (k v : pyval) (d : list (pyval * pyval)) :
  In (k, v) d -> unsupported k \/ unsupported v -> unsupported (PDict d).
Proof.
  induction d as [|[k' v'] d IH]; simpl; [tauto|].
  intros [[= -> ->]|Hin] Hx.
  - destruct Hx; [now apply un_dict_key|now apply un_dict_value].
  - apply un_dict_tail; auto.
Qed.

Lemma to_str_unsupported (v : pyval) (e : exn) :
  _to_str v = Raise e -> unsupported v.
Proof.
  revert e. induction v as [x|l IH|d IH|t] using pyval_induction; intros e.
  - rewrite to_str_scalar. discriminate.
  - rewrite to_str_list. intros Hr. apply mapM_ok_sorted_join, mapM_raise in Hr.
    destruct Hr as (x & Hin & Hx). rewrite Forall_forall in IH.
    eauto using unsupported_in_list.
  - rewrite to_str_dict. intros Hr. apply mapM_ok_sorted_join, mapM_raise in Hr.
    destruct Hr as ([k v] & Hin & Hx). rewrite Forall_forall in IH.
    destruct (IH _ Hin) as [IHk IHv]. cbn [fst snd] in *.
    apply (unsupported_in_dict k v); [assumption|].
    unfold pair_str in Hx. cbn [fst snd] in Hx.
    destruct (_to_str k) eqn:Hk; simpl in Hx; [|left; eauto].
    destruct (_to_str v) eqn:Hv; simpl in Hx; [discriminate|right; eauto].
  - intros _. constructor.
Qed.

Section UnsupportedFold.
Context `{Extern}.

(** C5: a value of any other type makes canonicalization fail with
    [TypeError], at the top or nested at any depth (and nothing else makes
    it fail); [add_result] on a run result whose [key.kw] contains such a
    value raises that error and leaves the groups as they were. *)
Theorem unsupported_type_aborts_fold :
  (forall t, _to_str (POther t) = Raise TypeError)
  /\ (forall v, unsupported v <-> _to_str v = Raise TypeError)
  /\ (forall v e, _to_str v = Raise e -> unsupported v /\ e = TypeError)
  /\ (forall self r,
        unsupported (key_kw r) -> add_result self r = (self, Raise TypeError)).
Proof.
  split; [reflexivity|]. split; [|split].
  - intros v. split; [apply unsupported_to_str|apply to_str_unsupported].
  - intros v e He. split; eauto using to_str_unsupported, to_str_raise.
  - intros self r Hu. unfold add_result, _make_hash.
    now rewrite (unsupported_to_str _ Hu).
Qed.

End UnsupportedFold.

Lemma unsupported_type_aborts_fold_witness :
  let kw := PDict [(p_str "flavor", PList [p_int 1; POther "set"])] in
  let r := sample_run "C.m" kw [sample_row "total" (seconds 1 0) "100%"]
             (Py.Ffin false 15 (-1)) [false] in
  _to_str kw = Raise TypeError
  /\ @add_result reference_extern [] r = ([], Raise TypeError).
Proof.
  destruct (@unsupported_type_aborts_fold reference_extern) as (_ & Hv & _ & Hf).
  assert (Hu : unsupported (PDict [(p_str "flavor", PList [p_int 1; POther "set"])])).
  { apply un_dict_value, un_list_tail, un_list_head, un_other. }
  split.
  - now apply Hv.
  - now apply Hf.
Defined.

(** ** Characters of rendered scalars *)

Lemma forall_chars_app (p : ascii -> bool) (a b : string) :
  forall_chars p (a ++ b) = forall_chars p a && forall_chars p b.
Proof.
  induction a as [|c a IH]; simpl; [reflexivity|].
  now rewrite IH, andb_assoc.
Qed.

Lemma forall_chars_rstrip_by (p q : ascii -> bool) (s : string) :
  forall_chars p s = true -> forall_chars p (Py.rstrip_by q s) = true.
Proof.
  induction s as [|c s IH]; simpl; [reflexivity|].
  intros Hc. apply andb_prop in Hc. destruct Hc as [Hc Hs].
  specialize (IH Hs). destruct (Py.rstrip_by q s); simpl in *.
  - destruct (q c); simpl; [reflexivity|now rewrite Hc].
  - now rewrite Hc, IH.
Qed.

Lemma forall_chars_lstrip_by (p q : ascii -> bool) (s : string) :
  forall_chars p s = true -> forall_chars p (Py.lstrip_by q s) = true.
Proof.
  induction s as [|c s IH]; simpl; [reflexivity|].
  intros Hc. destruct (q c); simpl; [|assumption].
  apply andb_prop in Hc. tauto.
Qed.

Lemma forall_chars_strip (p : ascii -> bool) (s : string) :
  forall_chars p s = true -> forall_chars p (Py.strip s) = true.
Proof.
  intros Hs. now apply forall_chars_rstrip_by, forall_chars_lstrip_by.
Qed.

Lemma forall_chars_take (p : ascii -> bool) (n : nat) (s : string) :
  forall_chars p s = true -> forall_chars p (Py.take n s) = true.
Proof.
  revert s. induction n as [|n IH]; intros [|c s]; simpl; try reflexivity.
  intros Hc. apply andb_prop in Hc. destruct Hc as [-> Hs]. now apply IH.
Qed.

Lemma forall_chars_drop (p : ascii -> bool) (n : nat) (s : string) :
  forall_chars p s = true -> forall_chars p (Py.drop n s) = true.
Proof.
  revert s. induction n as [|n IH]; intros [|c s]; simpl; try tauto.
  intros Hc. apply andb_prop in Hc. destruct Hc as [_ Hs]. now apply IH.
Qed.

Lemma zeros_not_N (n : nat) : forall_chars not_N (Py.zeros n) = true.
Proof. induction n as [|n IH]; simpl; [reflexivity|exact IH]. Qed.

Lemma uint_not_N (d : Decimal.uint) :
  forall_chars not_N (NilEmpty.string_of_uint d) = true.
Proof. induction d; simpl; assumption || reflexivity. Qed.

Lemma digits_not_N (m : N) : forall_chars not_N (Py.digits_of m) = true.
Proof. apply uint_not_N. Qed.

Lemma str_int_not_N (n : Z) : forall_chars not_N (Py.str_int n) = true.
Proof.
  unfold Py.str_int, NilZero.string_of_int, NilZero.string_of_uint.
  destruct (Z.to_int n) as [d|d]; destruct d; simpl; try reflexivity;
    apply uint_not_N.
Qed.

Ltac chars_not_N :=
  repeat first
    [ reflexivity
    | apply zeros_not_N | apply digits_not_N | apply str_int_not_N
    | apply forall_chars_take | apply forall_chars_drop
    | apply forall_chars_rstrip_by
    | rewrite forall_chars_app; apply andb_true_intro; split
    | match goal with
      | |- context [if ?b then _ else _] => destruct b
      end ].

Lemma str_float_not_N (f : Py.pyfloat) : forall_chars not_N (Py.str_float f) = true.
Proof.
  destruct f as [|neg|neg m e]; [reflexivity|now destruct neg|].
  unfold Py.str_float. cbv zeta. chars_not_N.
Qed.

Lemma str_scalar_not_N (x : scalar) :
  x <> SNone -> (forall s, x <> SStr s) -> forall_chars not_N (str_scalar x) = true.
Proof.
  destruct x as [|b|n|f|s]; simpl; intros H1 H2.
  - congruence.
  - now destruct b.
  - apply str_int_not_N.
  - apply str_float_not_N.
  - now elim (H2 s).
Qed.

(** ** The rendering of null *)

(** C4, as amended: null renders to the fixed literal ["None"]; a text
    scalar renders to its content trimmed of surrounding whitespace; the
    rendering of a non-null scalar differs from that of null unless the
    scalar is a text whose trimmed content is ["None"]. *)
Theorem null_rendering :
  _to_str (PScalar SNone) = Ok "None"
  /\ (forall s, _to_str (PScalar (SStr s)) = Ok (Py.strip s))
  /\ (forall x,
        x <> SNone ->
        (forall s, x = SStr s -> Py.strip s <> "None") ->
        _to_str (PScalar x) <> _to_str (PScalar SNone)).
Proof.
  split; [reflexivity|]. split; [reflexivity|].
  intros x Hx Hs. rewrite !to_str_scalar.
  destruct x as [|b|n|f|s]; try congruence.
  4: { intros [= Heq]. now apply (Hs s). }
  all: intros [= Heq];
    match type of Heq with
    | Py.strip ?t = _ =>
        assert (Hc : forall_chars not_N (Py.strip t) = true)
    end;
    [apply forall_chars_strip|rewrite Heq in Hc; discriminate].
  - now destruct b.
  - apply str_int_not_N.
  - apply str_float_not_N.
Qed.

Lemma null_rendering_witness :
  _to_str (PScalar (SInt 5)) <> _to_str (PScalar SNone)
  /\ _to_str (PScalar (SStr " none ")) <> _to_str (PScalar SNone).
Proof.
  destruct null_rendering as (_ & _ & H).
  split; apply H; try discriminate.
  intros s [= <-]. vm_compute. discriminate.
Defined.

(** C4 as stated fails: the text ["None"] is a non-null scalar and renders
    exactly as null does. *)
Lemma null_collides_with_text :
  SStr "None" <> SNone
  /\ _to_str (PScalar (SStr "None")) = _to_str (PScalar SNone).
Proof. split; [discriminate|reflexivity]. Qed.

(** ** Separators *)

Lemma append_empty_r (s : string) : s ++ "" = s.
Proof. induction s as [|c s IH]; simpl; [reflexivity|now rewrite IH]. Qed.

Lemma join_cons (sep x : string) (l : list string) :
  Py.join sep (x :: l) =
  x ++ match l with [] => "" | _ => sep ++ Py.join sep l end.
Proof. destruct l; simpl; [now rewrite append_empty_r|reflexivity]. Qed.

Lemma append_comma_inj (x y t1 t2 : string) :
  forall_chars not_comma x = true -> forall_chars not_comma y = true ->
  comma_tail t1 -> comma_tail t2 ->
  x ++ t1 = y ++ t2 -> x = y /\ t1 = t2.
Proof.
  revert y. induction x as [|c x IH]; intros [|d y] Hx Hy H1 H2; simpl in *.
  - auto.
  - intros ->. destruct H1 as [H1|[t' H1]]; [discriminate|].
    injection H1 as -> _. discriminate.
  - intros <-. destruct H2 as [H2|[t' H2]]; [discriminate|].
    injection H2 as -> _. discriminate.
  - intros [= -> Heq]. apply andb_prop in Hx, Hy.
    destruct (IH y) as [-> ->]; tauto.
Qed.

Lemma plain_facts (s : string) :
  plain s = true ->
  s <> "" /\ forall_chars not_comma s = true /\ Py.strip s = s.
Proof.
  unfold plain. intros Hp. apply andb_prop in Hp. destruct Hp as [Hp Hs].
  apply andb_prop in Hp. destruct Hp as [Hn Hc].
  apply String.eqb_eq in Hs. repeat split; auto.
  intros ->. discriminate.
Qed.

Lemma join_plain_inj (l1 l2 : list string) :
  Forall (fun s => plain s = true) l1 -> Forall (fun s => plain s = true) l2 ->
  Py.join "," l1 = Py.join "," l2 -> l1 = l2.
Proof.
  intros H1. revert l2. induction H1 as [|x l1 Hx H1 IH]; intros l2 H2.
  - destruct H2 as [|y l2 Hy H2]; [reflexivity|].
    rewrite join_cons. apply plain_facts in Hy. destruct Hy as (Hn & _).
    destruct y; [congruence|discriminate].
  - destruct H2 as [|y l2 Hy H2].
    + rewrite join_cons. apply plain_facts in Hx. destruct Hx as (Hn & _).
      destruct x; [congruence|discriminate].
    + rewrite !join_cons. intros Heq.
      apply plain_facts in Hx, Hy.
      apply append_comma_inj in Heq; try tauto.
      * destruct Heq as [-> Heq]. f_equal.
        destruct l1, l2; try discriminate; [reflexivity|].
        apply IH; [assumption|]. now injection Heq.
      * destruct l1; [now left|right; eexists; reflexivity].
      * destruct l2; [now left|right; eexists; reflexivity].
Qed.

Lemma mapM_to_str_texts (l : list string) :
  mapM _to_str (map p_str l) = Ok (map Py.strip l).
Proof.
  induction l as [|s l IH]; simpl; [reflexivity|]. now rewrite IH.
Qed.

Lemma map_strip_plain (l : list string) :
  Forall (fun s => plain s = true) l -> map Py.strip l = l.
Proof.
  induction 1 as [|s l Hs _ IH]; simpl; [reflexivity|].
  apply plain_facts in Hs. destruct Hs as (_ & _ & ->). now rewrite IH.
Qed.

Lemma to_str_plain_texts (l : list string) :
  Forall (fun s => plain s = true) l ->
  _to_str (PList (map p_str l)) = Ok (Py.join "," (isort String.ltb l)).
Proof.
  intros Hl. rewrite to_str_list, mapM_to_str_texts, (map_strip_plain _ Hl).
  simpl. now rewrite sorted_str_isort.
Qed.

(** *** Separators of mappings *)

Lemma append_sep_inj (c : ascii) (x y t1 t2 : string) :
  forall_chars (not_char c) x = true -> forall_chars (not_char c) y = true ->
  sep_tail c t1 -> sep_tail c t2 ->
  (x ++ t1 = y ++ t2 -> x = y /\ t1 = t2)%string.
Proof.
  assert (Hc : forall d t t', forall_chars (not_char c) (String d t) = true ->
                              String d t' <> String c t').
  { intros d t t' Hd [= ->]. cbn [forall_chars] in Hd. unfold not_char in Hd.
    now rewrite Ascii.eqb_refl in Hd. }
  revert y. induction x as [|a x IH]; intros [|b y] Hx Hy H1 H2; cbn [append].
  - auto.
  - intros ->. destruct H1 as [H1|[t' H1]]; [discriminate|].
    injection H1 as -> _. now elim (Hc _ _ y Hy).
  - intros <-. destruct H2 as [H2|[t' H2]]; [discriminate|].
    injection H2 as -> _. now elim (Hc _ _ x Hx).
  - intros [= -> Heq]. cbn [forall_chars] in Hx, Hy. apply andb_prop in Hx, Hy.
    destruct (IH y) as [-> ->]; tauto.
Qed.

Lemma join_sep_inj (c : ascii) (l1 l2 : list string) :
  Forall (fun s => s <> "" /\ forall_chars (not_char c) s = true) l1 ->
  Forall (fun s => s <> "" /\ forall_chars (not_char c) s = true) l2 ->
  Py.join (String c "") l1 = Py.join (String c "") l2 -> l1 = l2.
Proof.
  intros H1. revert l2. induction H1 as [|x l1 [Hxn Hx] H1 IH]; intros l2 H2.
  - destruct H2 as [|y l2 [Hyn Hy] H2]; [reflexivity|].
    rewrite join_cons. destruct y; [congruence|discriminate].
  - destruct H2 as [|y l2 [Hyn Hy] H2].
    + rewrite join_cons. destruct x; [congruence|discriminate].
    + rewrite !join_cons. intros Heq.
      apply (append_sep_inj c) in Heq; try assumption.
      * destruct Heq as [-> Heq]. f_equal.
        destruct l1, l2; try discriminate; [reflexivity|].
        apply IH; [assumption|]. now injection Heq.
      * destruct l1; [now left|right; eexists; reflexivity].
      * destruct l2; [now left|right; eexists; reflexivity].
Qed.

Lemma plain_pair_facts (kv : string * string) :
  plain_pair kv = true ->
  Py.strip (fst kv) = fst kv /\ Py.strip (snd kv) = snd kv
  /\ forall_chars (not_char ":") (fst kv) = true
  /\ forall_chars (not_char "|") (pair_text kv) = true.
Proof.
  unfold plain_pair, trimmed, pair_text. intros Hp.
  apply andb_prop in Hp. destruct Hp as [Hp Hvb].
  apply andb_prop in Hp. destruct Hp as [Hp Hkb].
  apply andb_prop in Hp. destruct Hp as [Hp Hkc].
  apply andb_prop in Hp. destruct Hp as [Hk Hv].
  apply String.eqb_eq in Hk, Hv.
  split; [assumption|]. split; [assumption|]. split; [assumption|].
  rewrite forall_chars_app. apply andb_true_intro. split; [assumption|].
  cbn [append forall_chars]. now rewrite Hvb.
Qed.

Lemma pair_text_inj (a b : string * string) :
  plain_pair a = true -> plain_pair b = true ->
  pair_text a = pair_text b -> a = b.
Proof.
  intros Ha Hb. apply plain_pair_facts in Ha, Hb.
  destruct Ha as (_ & _ & Ha & _), Hb as (_ & _ & Hb & _).
  destruct a as [k v], b as [k' v']. unfold pair_text. cbn [fst snd] in *.
  intros Heq. apply (append_sep_inj ":") in Heq; try assumption.
  - destruct Heq as [-> [= ->]]. reflexivity.
  - right. eexists. reflexivity.
  - right. eexists. reflexivity.
Qed.

Lemma map_pair_text_inj (d1 d2 : list (string * string)) :
  Forall (fun kv => plain_pair kv = true) d1 ->
  Forall (fun kv => plain_pair kv = true) d2 ->
  map pair_text d1 = map pair_text d2 -> d1 = d2.
Proof.
  intros H1. revert d2. induction H1 as [|a d1 Ha H1 IH]; intros d2 H2.
  - destruct d2; [reflexivity|discriminate].
  - destruct H2 as [|b d2 Hb H2]; [discriminate|].
    cbn [map]. intros [= Hab Heq]. f_equal; [now apply pair_text_inj|now apply IH].
Qed.

Lemma mapM_pair_str (d : list (string * string)) :
  Forall (fun kv => plain_pair kv = true) d ->
  mapM pair_str (map p_pair d) = Ok (map pair_text d).
Proof.
  induction 1 as [|kv d Hkv _ IH]; cbn [map mapM]; [reflexivity|].
  rewrite IH. apply plain_pair_facts in Hkv. destruct Hkv as (Hk & Hv & _).
  unfold pair_str, p_pair, p_str, pair_text. cbn [fst snd].
  rewrite !to_str_scalar. cbn [str_scalar bind]. rewrite Hk, Hv.
  unfold Py.join. cbn [String.concat]. reflexivity.
Qed.

Lemma to_str_plain_pairs (d : list (string * string)) :
  Forall (fun kv => plain_pair kv = true) d ->
  _to_str (PDict (map p_pair d))
  = Ok (Py.join "|" (isort String.ltb (map pair_text d))).
Proof.
  intros Hd. rewrite to_str_dict, (mapM_pair_str _ Hd). cbn [bind].
  now rewrite sorted_str_isort.
Qed.

Lemma pair_texts_separable (d : list (string * string)) :
  Forall (fun kv => plain_pair kv = true) d ->
  Forall (fun s => s <> "" /\ forall_chars (not_char "|") s = true)
    (isort String.ltb (map pair_text d)).
Proof.
  intros Hd. eapply Permutation_Forall; [apply isort_Permutation|].
  apply Forall_map. eapply Forall_impl; [|exact Hd].
  intros [k v] Hkv. apply plain_pair_facts in Hkv. destruct Hkv as (_ & _ & _ & Hb).
  split; [|assumption]. unfold pair_text. cbn [fst snd].
  destruct k; discriminate.
Qed.

(** C2, as amended: the separators are the literals [","], ["|"] and
    [":"], which scalar content may contain, so canonicalization tells
    structurally different values apart only where the scalars avoid the
    separator that joins them.  Two sequences of non-empty, trimmed text
    scalars without a comma have the same canonical string exactly when
    one is a reordering of the other; so have two mappings from text to
    text, all trimmed, whose keys hold neither [":"] nor ["|"] and whose
    values hold no ["|"]. *)
Theorem plain_values_separated :
  (forall l1 l2,
      Forall (fun s => plain s = true) l1 ->
      Forall (fun s => plain s = true) l2 ->
      (_to_str (PList (map p_str l1)) = _to_str (PList (map p_str l2))
       <-> Permutation l1 l2))
  /\ (forall d1 d2,
        Forall (fun kv => plain_pair kv = true) d1 ->
        Forall (fun kv => plain_pair kv = true) d2 ->
        (_to_str (PDict (map p_pair d1)) = _to_str (PDict (map p_pair d2))
         <-> Permutation d1 d2)).
Proof.
  split.
  - intros l1 l2 H1 H2.
    rewrite (to_str_plain_texts _ H1), (to_str_plain_texts _ H2).
    split.
    + intros [= Heq]. apply join_plain_inj in Heq.
      * rewrite (isort_Permutation String.ltb l1), Heq.
        symmetry. apply isort_Permutation.
      * eapply Permutation_Forall; [apply isort_Permutation|assumption].
      * eapply Permutation_Forall; [apply isort_Permutation|assumption].
    + intros Hp. do 2 f_equal.
      apply (isort_perm_invariant String.ltb str_ltb_asym str_ltb_trans str_ltb_total).
      assumption.
  - intros d1 d2 H1 H2.
    rewrite (to_str_plain_pairs _ H1), (to_str_plain_pairs _ H2).
    split.
    + intros [= Heq].
      apply (join_sep_inj "|") in Heq; try now apply pair_texts_separable.
      assert (Hp : Permutation (map pair_text d1) (map pair_text d2)).
      { rewrite (isort_Permutation String.ltb (map pair_text d1)), Heq.
        symmetry. apply isort_Permutation. }
      apply Permutation_map_inv in Hp. destruct Hp as (d3 & Hmap & Hp).
      apply map_pair_text_inj in Hmap.
      * subst d3. now symmetry.
      * assumption.
      * eapply Permutation_Forall; [exact Hp|assumption].
    + intros Hp. do 2 f_equal.
      apply (isort_perm_invariant String.ltb str_ltb_asym str_ltb_trans str_ltb_total).
      now apply Permutation_map.
Qed.

Lemma plain_values_separated_witness :
  (_to_str (PList (map p_str ["m1.small"; "m1.tiny"]))
   = _to_str (PList (map p_str ["m1.tiny"; "m1.small"]))
   <-> Permutation ["m1.small"; "m1.tiny"] ["m1.tiny"; "m1.small"])
  /\ (_to_str (PDict (map p_pair [("image", "cirros:0.3"); ("flavor", "m1.tiny")]))
      = _to_str (PDict (map p_pair [("flavor", "m1.tiny"); ("image", "cirros:0.3")]))
      <-> Permutation [("image", "cirros:0.3"); ("flavor", "m1.tiny")]
            [("flavor", "m1.tiny"); ("image", "cirros:0.3")]).
Proof.
  destruct plain_values_separated as [Hl Hd].
  split; [apply Hl|apply Hd]; repeat constructor.
Defined.

(** C2 as stated fails: a text scalar may contain the separator, and then
    a one-element sequence and a two-element sequence, which are not equal
    up to reordering, have the same canonical string. *)
Lemma separator_collision :
  ~ perm_equiv (PList [p_str "a,b"]) (PList [p_str "a"; p_str "b"])
  /\ _to_str (PList [p_str "a,b"]) = _to_str (PList [p_str "a"; p_str "b"]).
Proof.
  split; [|reflexivity].
  intros Hp. apply perm_equiv_related in Hp. simpl in Hp.
  apply Permutation_length in Hp. discriminate.
Qed.

(** ** Dictionaries *)

Lemma dict_get_set_same {V : Type} (k : string) (v : V) (d : Dict.t V) :
  Dict.get k (Dict.set k v d) = Some v.
Proof.
  induction d as [|[k' v'] d IH]; simpl.
  - now rewrite String.eqb_refl.
  - destruct (String.eqb k k') eqn:Hk; simpl; rewrite Hk; auto.
Qed.

Lemma dict_get_set_other {V : Type} (k k' : string) (v : V) (d : Dict.t V) :
  k' <> k -> Dict.get k' (Dict.set k v d) = Dict.get k' d.
Proof.
  intros Hne. induction d as [|[k0 v0] d IH]; simpl.
  - apply String.eqb_neq in Hne. now rewrite Hne.
  - destruct (String.eqb k k0) eqn:Hk; simpl.
    + apply String.eqb_eq in Hk. subst k0.
      apply String.eqb_neq in Hne. now rewrite Hne.
    + destruct (String.eqb k' k0); auto.
Qed.

Lemma dict_get_In {V : Type} (k : string) (v : V) (d : Dict.t V) :
  Dict.get k d = Some v -> In (k, v) d.
Proof.
  induction d as [|[k' v'] d IH]; simpl; [discriminate|].
  destruct (String.eqb k k') eqn:Hk.
  - apply String.eqb_eq in Hk. intros [= ->]. left. now subst.
  - auto.
Qed.

Lemma dict_mem_In {V : Type} (k : string) (d : Dict.t V) :
  Dict.mem k d = true <-> In k (map fst d).
Proof.
  unfold Dict.mem. induction d as [|[k' v'] d IH]; simpl.
  - split; [discriminate|tauto].
  - destruct (String.eqb k k') eqn:Hk.
    + apply String.eqb_eq in Hk. subst. split; auto.
    + apply String.eqb_neq in Hk. rewrite IH. split; [auto|].
      intros [Heq|Hin]; [congruence|assumption].
Qed.

(** ** The SLA counter *)

Lemma count_sla_failures_filter (n : Z) (l : list sla_entry) :
  count_sla_failures n l =
  n + Z.of_nat (List.length (filter (fun s => negb (sla_success s)) l)).
Proof.
  unfold count_sla_failures. revert n.
  induction l as [|s l IH]; intros n; simpl; [lia|].
  rewrite IH. destruct (sla_success s); simpl; lia.
Qed.

Section SlaCounter.
Context `{Extern}.

Lemma group_of_sla (key : string) (r : run_result) (self : trends_data) (g : group) :
  group_of key r self = Ok g -> g_sla_failures g = sla_failures_of key self.
Proof.
  unfold group_of, sla_failures_of. destruct (Dict.get key self) as [g0|].
  - now intros [= ->].
  - destruct (json_dumps (key_kw r)); simpl; [|discriminate].
    now intros [= <-].
Qed.

(** The state after [add_result]: either nothing was touched, or the group
    stored under the key of the run result was written back with its
    counter advanced. *)
Lemma add_result_state (self : trends_data) (r : run_result) :
  (exists e, add_result self r = (self, Raise e))
  \/ (exists key g acts out,
        _make_hash (key_kw r) = Ok key
        /\ group_of key r self = Ok g
        /\ add_result self r =
           (Dict.set key
              {| g_actions := acts;
                 g_sla_failures := sla_failures_of key self + failed_slas r;
                 g_name := g_name g; g_config := g_config g |} self, out)).
Proof.
  unfold add_result.
  destruct (_make_hash (key_kw r)) as [key|e]; [|left; eauto].
  destruct (group_of key r self) as [g|e] eqn:Hg; [|left; eauto].
  right. exists key, g.
  rewrite count_sla_failures_filter, (group_of_sla _ _ _ _ Hg).
  fold (failed_slas r). cbn [g_actions g_sla_failures g_name g_config].
  destruct (timestamp r) as [ts|e]; [|eauto 6].
  destruct (add_actions _ ts (g_actions g)) as [acts out]. eauto 6.
Qed.

Lemma add_result_ok_hash (self self' : trends_data) (r : run_result) :
  add_result self r = (self', Ok tt) -> exists key, _make_hash (key_kw r) = Ok key.
Proof.
  unfold add_result. destruct (_make_hash (key_kw r)); [eauto|discriminate].
Qed.

Lemma add_result_sla (self : trends_data) (r : run_result) (key : string) :
  _make_hash (key_kw r) = Ok key ->
  (exists e, add_result self r = (self, Raise e))
  \/ (sla_failures_of key (fst (add_result self r))
      = sla_failures_of key self + failed_slas r
      /\ forall k, k <> key ->
           sla_failures_of k (fst (add_result self r)) = sla_failures_of k self).
Proof.
  intros Hkey. destruct (add_result_state self r) as [?|(key' & g & acts & out & Hk & Hg & ->)];
    [now left|right].
  assert (key' = key) as -> by congruence.
  cbn [fst]. unfold sla_failures_of. split.
  - now rewrite dict_get_set_same.
  - intros k Hne. now rewrite dict_get_set_other.
Qed.

Lemma failed_slas_nonneg (r : run_result) : 0 <= failed_slas r.
Proof. unfold failed_slas. lia. Qed.

(** C6: a fold adds to the counter of its group exactly the number of [sla]
    entries whose [success] is false, and leaves the other groups' counters
    alone; three folds into one group with the entries [[true]], [[false]]
    and [[false; true]] give [2]; no call of [add_result], completed or
    not, makes a counter decrease. *)
Theorem sla_failures_counted :
  (forall self self' r,
      add_result self r = (self', Ok tt) ->
      exists key,
        _make_hash (key_kw r) = Ok key
        /\ sla_failures_of key self' = sla_failures_of key self + failed_slas r
        /\ forall k, k <> key -> sla_failures_of k self' = sla_failures_of k self)
  /\ (forall r1 r2 r3 key self',
        _make_hash (key_kw r1) = Ok key ->
        _make_hash (key_kw r2) = Ok key ->
        _make_hash (key_kw r3) = Ok key ->
        map sla_success (sla r1) = [true] ->
        map sla_success (sla r2) = [false] ->
        map sla_success (sla r3) = [false; true] ->
        add_results [] [r1; r2; r3] = (self', Ok tt) ->
        sla_failures_of key self' = 2)
  /\ (forall self r k,
        sla_failures_of k self <= sla_failures_of k (fst (add_result self r))).
Proof.
  assert (Hstep : forall self self' r key,
             _make_hash (key_kw r) = Ok key ->
             add_result self r = (self', Ok tt) ->
             sla_failures_of key self' = sla_failures_of key self + failed_slas r
             /\ forall k, k <> key -> sla_failures_of k self' = sla_failures_of k self).
  { intros self self' r key Hk Hr.
    destruct (add_result_sla self r key Hk) as [[e He]|Hs].
    - rewrite He in Hr. discriminate.
    - now rewrite Hr in Hs. }
  split; [|split].
  - intros self self' r Hr. destruct (add_result_ok_hash _ _ _ Hr) as [key Hk].
    exists key. split; [assumption|]. eauto.
  - intros r1 r2 r3 key self' H1 H2 H3 S1 S2 S3. cbn [add_results].
    destruct (add_result [] r1) as [s1 [[]|e]] eqn:E1; [|discriminate].
    destruct (add_result s1 r2) as [s2 [[]|e]] eqn:E2; [|discriminate].
    destruct (add_result s2 r3) as [s3 [[]|e]] eqn:E3; [|discriminate].
    intros [= <-].
    destruct (Hstep _ _ _ _ H3 E3) as [-> _].
    destruct (Hstep _ _ _ _ H2 E2) as [-> _].
    destruct (Hstep _ _ _ _ H1 E1) as [-> _].
    unfold failed_slas.
    destruct (sla r1) as [|[a1] [|? ?]]; try discriminate.
    destruct (sla r2) as [|[a2] [|? ?]]; try discriminate.
    destruct (sla r3) as [|[a3] [|[a4] [|? ?]]]; try discriminate.
    cbn in S1, S2, S3. injection S1 as ->. injection S2 as ->.
    injection S3 as -> ->. reflexivity.
  - intros self r k.
    destruct (_make_hash (key_kw r)) as [key|e] eqn:Hk.
    + destruct (add_result_sla self r key Hk) as [[e ->]|[Hs Ho]]; [cbn; lia|].
      destruct (String.eqb_spec k key) as [->|Hne].
      * rewrite Hs. pose proof (failed_slas_nonneg r). lia.
      * rewrite (Ho _ Hne). lia.
    + unfold add_result. rewrite Hk. cbn. lia.
Qed.

End SlaCounter.

Lemma sla_failures_counted_witness :
  let run := fun slas =>
    sample_run "C.m" kw_ab [sample_row "total" (seconds 1 0) "100%"]
      (Py.Ffin false 15 (-1)) slas in
  sla_failures_of "a:1|b:2,3"
    (fst (@add_results reference_extern []
            [run [true]; run [false]; run [false; true]])) = 2.
Proof.
  destruct (@sla_failures_counted reference_extern) as (_ & H3 & _).
  intros run.
  apply (H3 (run [true]) (run [false]) (run [false; true]));
    vm_compute; reflexivity.
Defined.

(** ** The builtin [sorted] *)

Section SortedFacts.
Context {A : Type} (lt : A -> A -> result bool).

Lemma insort_Permutation (x : A) (l r : list A) :
  Py.insort lt x l = Ok r -> Permutation (x :: l) r.
Proof.
  revert r. induction l as [|y l IH]; simpl; intros r.
  - now intros [= <-].
  - destruct (lt y x) as [[|]|e]; simpl; try discriminate.
    + destruct (Py.insort lt x l) as [r'|e]; simpl; [|discriminate].
      intros [= <-]. rewrite perm_swap. apply perm_skip. now apply IH.
    + now intros [= <-].
Qed.

Lemma sorted_Permutation (l s : list A) :
  Py.sorted lt l = Ok s -> Permutation l s.
Proof.
  revert s. induction l as [|x l IH]; simpl; intros s.
  - now intros [= <-].
  - destruct (Py.sorted lt l) as [s'|e]; simpl; [|discriminate].
    intros Hi. apply insort_Permutation in Hi.
    rewrite <- Hi. apply perm_skip. now apply IH.
Qed.

Lemma insort_ok (x : A) (l : list A) :
  (forall y, In y l -> exists b, lt y x = Ok b) ->
  exists r, Py.insort lt x l = Ok r.
Proof.
  induction l as [|y l IH]; simpl; intros Hl; [eauto|].
  destruct (Hl y) as [b ->]; [now left|]. simpl.
  destruct b; [|eauto].
  destruct IH as [r ->]; [auto|]. simpl. eauto.
Qed.

Lemma sorted_ok (l : list A) :
  (forall a b, In a l -> In b l -> exists r, lt a b = Ok r) ->
  exists s, Py.sorted lt l = Ok s.
Proof.
  induction l as [|x l IH]; simpl; intros Hl; [eauto|].
  destruct IH as [s Hs]; [auto|]. rewrite Hs. simpl.
  apply insort_ok. intros y Hy. apply Hl; [right|now left].
  apply Permutation_in with s; [|assumption].
  symmetry. now apply sorted_Permutation.
Qed.

(** An order [R] that [lt] decides is respected by the list returned. *)
Section Respects.
Variable R : A -> A -> Prop.
Hypothesis R_trans : forall a b c, R a b -> R b c -> R a c.
Hypothesis lt_true : forall a b, lt a b = Ok true -> R a b.
Hypothesis lt_false : forall a b, lt a b = Ok false -> R b a.

Lemma insort_StronglySorted (x : A) (l r : list A) :
  StronglySorted R l -> Py.insort lt x l = Ok r -> StronglySorted R r.
Proof.
  revert r. induction l as [|y l IH]; simpl; intros r Hs.
  - intros [= <-]. repeat constructor.
  - apply StronglySorted_inv in Hs. destruct Hs as [Hs Hy].
    destruct (lt y x) as [[|]|e] eqn:Hyx; simpl; try discriminate.
    + destruct (Py.insort lt x l) as [r'|e] eqn:Hr; simpl; [|discriminate].
      intros [= <-]. constructor; [now apply IH|].
      apply insort_Permutation in Hr. rewrite Forall_forall in *.
      intros z Hz. apply (Permutation_in _ (Permutation_sym Hr)) in Hz.
      destruct Hz as [<-|Hz]; auto.
    + intros [= <-]. constructor; [now constructor|].
      constructor; [auto|]. rewrite Forall_forall in *. eauto.
Qed.

Lemma sorted_StronglySorted (l s : list A) :
  Py.sorted lt l = Ok s -> StronglySorted R s.
Proof.
  revert s. induction l as [|x l IH]; simpl; intros s.
  - intros [= <-]. constructor.
  - destruct (Py.sorted lt l) as [s'|e]; simpl; [|discriminate].
    apply insort_StronglySorted. now apply IH.
Qed.

End Respects.

(** Neighbours of the list returned never descend, as soon as [lt] is
    asymmetric. *)
Hypothesis lt_asym : forall a b, lt a b = Ok true -> lt b a = Ok false.

Lemma insort_Sorted (x : A) (l r : list A) :
  Sorted (fun a b => lt b a = Ok false) l ->
  Py.insort lt x l = Ok r ->
  Sorted (fun a b => lt b a = Ok false) r.
Proof.
  revert r. induction l as [|y l IH]; simpl; intros r Hs.
  - intros [= <-]. repeat constructor.
  - apply Sorted_inv in Hs. destruct Hs as [Hs Hy].
    destruct (lt y x) as [[|]|e] eqn:Hyx; simpl; try discriminate.
    + destruct (Py.insort lt x l) as [r'|e] eqn:Hr; simpl; [|discriminate].
      intros [= <-]. constructor; [now apply IH|].
      destruct l as [|z l]; simpl in Hr.
      * injection Hr as <-. constructor. now apply lt_asym.
      * destruct (lt z x) as [[|]|e]; simpl in Hr; try discriminate.
        -- destruct (Py.insort lt x l); simpl in Hr; [|discriminate].
           injection Hr as <-. constructor. now inversion Hy.
        -- injection Hr as <-. constructor. now apply lt_asym.
    + intros [= <-]. constructor; [now constructor|now constructor].
Qed.

Lemma sorted_Sorted (l s : list A) :
  Py.sorted lt l = Ok s -> Sorted (fun a b => lt b a = Ok false) s.
Proof.
  revert s. induction l as [|x l IH]; simpl; intros s.
  - intros [= <-]. constructor.
  - destruct (Py.sorted lt l) as [s'|e]; simpl; [|discriminate].
    apply insort_Sorted. now apply IH.
Qed.

End SortedFacts.

(** ** Comparison of samples *)

Lemma float_cmp_antisym (x y : Py.pyfloat) :
  Py.float_cmp y x = option_map CompOpp (Py.float_cmp x y).
Proof.
  destruct x as [|a|n1 m1 e1], y as [|b|n2 m2 e2]; simpl; try reflexivity.
  - now destruct a, b.
  - now destruct a.
  - now destruct b.
  - now rewrite (Z.min_comm e2 e1), Z.compare_antisym.
Qed.

Lemma py_eq_sym (x y : scalar) : py_eq x y = py_eq y x.
Proof.
  destruct x, y; unfold py_eq; cbn [num_of]; try reflexivity;
    try apply String.eqb_sym;
    match goal with
    | |- context [Py.float_cmp ?a ?b] =>
        rewrite (float_cmp_antisym b a); now destruct (Py.float_cmp b a) as [[]|]
    end.
Qed.

Lemma py_lt_asym (x y : scalar) : py_lt x y = Ok true -> py_lt y x = Ok false.
Proof.
  destruct x, y; unfold py_lt; cbn [num_of]; try discriminate;
    try (intros [= Hlt]; now rewrite (str_ltb_asym _ _ Hlt));
    match goal with
    | |- context [Py.float_cmp ?a ?b] =>
        rewrite (float_cmp_antisym a b); now destruct (Py.float_cmp a b) as [[]|]
    end.
Qed.

Lemma entry_lt_asym (a b : entry) : entry_lt a b = Ok true -> entry_lt b a = Ok false.
Proof.
  unfold entry_lt. rewrite (Z.eqb_sym (fst b)), (py_eq_sym (snd b)).
  destruct (fst a =? fst b) eqn:Hts.
  - destruct (py_eq (snd a) (snd b)); [discriminate|]. apply py_lt_asym.
  - intros [= Hlt]. f_equal. lia.
Qed.

Lemma entry_lt_true (a b : entry) : entry_lt a b = Ok true -> fst a <= fst b.
Proof.
  unfold entry_lt. destruct (fst a =? fst b) eqn:Hts; [lia|].
  intros [= Hlt]. lia.
Qed.

Lemma entry_lt_false (a b : entry) : entry_lt a b = Ok false -> fst b <= fst a.
Proof.
  unfold entry_lt. destruct (fst a =? fst b) eqn:Hts; [lia|].
  intros [= Hlt]. lia.
Qed.

Lemma sorted_time_ordered (l v : list entry) :
  Py.sorted entry_lt l = Ok v -> time_ordered l v.
Proof.
  intros Hs. repeat split.
  - now apply sorted_Permutation in Hs.
  - apply (sorted_StronglySorted entry_lt (fun a b => fst a <= fst b)) in Hs; auto.
    + intros a b c. lia.
    + apply entry_lt_true.
    + apply entry_lt_false.
  - apply (sorted_Sorted entry_lt entry_lt_asym) in Hs. exact Hs.
Qed.

Lemma same_kind_comparable (x y : scalar) :
  same_kind x y = true ->
  exists b, (if py_eq x y then Ok false else py_lt x y) = Ok b.
Proof.
  destruct x, y; unfold same_kind, py_eq, py_lt; cbn [num_of is_number andb];
    try discriminate; intros _;
    try (destruct (String.eqb _ _); eauto; fail);
    match goal with
    | |- context [Py.float_cmp ?a ?b] => destruct (Py.float_cmp a b) as [[]|]; eauto
    | _ => eauto
    end.
Qed.

Lemma tie_safe_sorted (l : list entry) :
  tie_safe l -> exists v, Py.sorted entry_lt l = Ok v.
Proof.
  intros Hl. apply sorted_ok. intros a b Ha Hb. unfold entry_lt.
  destruct (fst a =? fst b) eqn:Hts; [|eauto].
  apply same_kind_comparable, Hl; auto. lia.
Qed.

(** ** Rendering *)

Lemma mapM_ok_In {A B : Type} (f : A -> result B) (l : list A) (r : list B) :
  mapM f l = Ok r -> forall y, In y r -> exists x, In x l /\ f x = Ok y.
Proof.
  revert r. induction l as [|x l IH]; simpl; intros r.
  - intros [= <-] y [].
  - destruct (f x) as [y0|e] eqn:Hx; simpl; [|discriminate].
    destruct (mapM f l) as [r'|e]; simpl; [|discriminate].
    intros [= <-] y [<-|Hy]; [eauto|].
    destruct (IH _ eq_refl _ Hy) as (x' & Hin & Hf). eauto.
Qed.

Lemma mapM_ok_all {A B : Type} (f : A -> result B) (l : list A) :
  (forall x, In x l -> exists y, f x = Ok y) -> exists r, mapM f l = Ok r.
Proof.
  induction l as [|x l IH]; simpl; intros Hl; [eauto|].
  destruct (Hl x) as [y ->]; [now left|].
  destruct IH as [r ->]; [auto|]. simpl. eauto.
Qed.

Lemma mapM_In_raises {A B : Type} (f : A -> result B) (l : list A) (x : A) (e : exn) :
  In x l -> f x = Raise e -> exists e', mapM f l = Raise e'.
Proof.
  induction l as [|y l IH]; simpl; [tauto|].
  intros [->|Hin] Hx.
  - rewrite Hx. simpl. eauto.
  - destruct (f y); simpl; [|eauto].
    destruct (IH Hin Hx) as [e' ->]. simpl. eauto.
Qed.

Lemma sort_durations_In (d : Dict.t (list entry)) (ds : series) (k : string)
  (v : list entry) :
  sort_durations d = Ok ds -> In (k, v) ds ->
  exists l, In (k, l) d /\ Py.sorted entry_lt l = Ok v.
Proof.
  intros Hs Hin. destruct (mapM_ok_In _ _ _ Hs _ Hin) as ([k' l] & Hl & Hf).
  cbn [fst snd] in Hf.
  destruct (Py.sorted entry_lt l) as [v'|e] eqn:Hv; simpl in Hf; [|discriminate].
  injection Hf as -> ->. eauto.
Qed.

Lemma sort_durations_ok (d : Dict.t (list entry)) :
  (forall k l, In (k, l) d -> tie_safe l) -> exists ds, sort_durations d = Ok ds.
Proof.
  intros Hd. apply mapM_ok_all. intros [k l] Hin.
  destruct (tie_safe_sorted l (Hd _ _ Hin)) as [v Hv].
  cbn [fst snd]. rewrite Hv. simpl. eauto.
Qed.

Lemma In_tag_all (action a k : string) (v : list entry) (s : series) :
  In (a, k, v) (tag_all action s) <-> a = action /\ In (k, v) s.
Proof.
  unfold tag_all. rewrite in_map_iff. split.
  - intros ([k' v'] & [= <- <- <-] & Hin). auto.
  - intros [-> Hin]. exists (k, v). auto.
Qed.

Lemma render_actions_series (items : list (string * action_series)) (t t' : trend)
  (a k : string) (v : list entry) :
  render_actions items t = Ok t' ->
  In (a, k, v) (trend_series t') ->
  In (a, k, v) (trend_series t)
  \/ exists data l,
       In (a, data) items /\ In (k, l) (action_series_list data)
       /\ Py.sorted entry_lt l = Ok v.
Proof.
  revert t. induction items as [|[action data] items IH]; intros t; simpl.
  - intros [= <-]. auto.
  - destruct (sort_durations (a_durations data)) as [ds|e] eqn:Hds; simpl;
      [|discriminate].
    destruct (Py.sorted entry_lt (a_success data)) as [sc|e] eqn:Hsc; simpl;
      [|discriminate].
    assert (Hnew : forall a' k' v',
               a' = action ->
               In (k', v') (ds ++ [("success", sc)])%list ->
               exists l, In (k', l) (action_series_list data)
                         /\ Py.sorted entry_lt l = Ok v').
    { intros a' k' v' _ Hin. unfold action_series_list.
      apply in_app_or in Hin. destruct Hin as [Hin|[[= <- <-]|[]]].
      - destruct (sort_durations_In _ _ _ _ Hds Hin) as (l & Hl & Hv).
        exists l. split; [apply in_or_app; now left|assumption].
      - exists (a_success data). split; [apply in_or_app; right; now left|assumption]. }
    destruct (String.eqb action "total") eqn:Htot; intros Hr Hin;
      destruct (IH _ Hr Hin) as [Hold|(data' & l & Hd & Hl & Hv)];
      try (right; exists data', l; auto; fail).
    + unfold trend_series in Hold. cbn [t_total t_actions total_series] in Hold.
      apply in_app_or in Hold. destruct Hold as [Hold|Hold].
      * cbn [to_durations to_success] in Hold. apply In_tag_all in Hold.
        destruct Hold as [-> Hold]. apply String.eqb_eq in Htot. subst action.
        destruct (Hnew "total" k v eq_refl Hold) as (l & Hl & Hv).
        right. exists data, l. auto.
      * left. unfold trend_series. apply in_or_app. now right.
    + unfold trend_series in Hold. cbn [t_total t_actions] in Hold.
      apply in_app_or in Hold. destruct Hold as [Hold|Hold].
      * left. unfold trend_series. apply in_or_app. now left.
      * rewrite flat_map_app in Hold. apply in_app_or in Hold.
        destruct Hold as [Hold|Hold].
        -- left. unfold trend_series. apply in_or_app. now right.
        -- simpl in Hold. rewrite app_nil_r in Hold.
           unfold action_out_series in Hold.
           cbn [ao_name ao_durations ao_success] in Hold.
           apply In_tag_all in Hold. destruct Hold as [-> Hold].
           destruct (Hnew action k v eq_refl Hold) as (l & Hl & Hv).
           right. exists data, l. auto.
Qed.

Lemma render_actions_fields (items : list (string * action_series)) (t t' : trend) :
  render_actions items t = Ok t' ->
  t_name t' = t_name t /\ t_cls t' = t_cls t /\ t_met t' = t_met t
  /\ t_sla_failures t' = t_sla_failures t /\ t_config t' = t_config t
  /\ t_stat t' = t_stat t.
Proof.
  revert t. induction items as [|[action data] items IH]; intros t; simpl.
  - intros [= <-]. auto 6.
  - destruct (sort_durations (a_durations data)); simpl; [|discriminate].
    destruct (Py.sorted entry_lt (a_success data)); simpl; [|discriminate].
    destruct (String.eqb action "total"); intros Hr; apply IH in Hr; exact Hr.
Qed.

Lemma render_actions_no_total (items : list (string * action_series)) (t t' : trend) :
  Dict.mem "total" items = false ->
  render_actions items t = Ok t' -> t_total t' = t_total t.
Proof.
  unfold Dict.mem. revert t.
  induction items as [|[action data] items IH]; intros t;
    cbn [Dict.get render_actions].
  - now intros _ [= <-].
  - rewrite (String.eqb_sym "total" action).
    destruct (String.eqb action "total"); [discriminate|].
    intros Hm.
    destruct (sort_durations (a_durations data)); cbn [bind]; [|discriminate].
    destruct (Py.sorted entry_lt (a_success data)); cbn [bind]; [|discriminate].
    intros Hr. now rewrite (IH _ Hm Hr).
Qed.

Lemma render_actions_total (items : list (string * action_series)) (t t' : trend) :
  Dict.mem "total" items = true \/ t_total t <> None ->
  render_actions items t = Ok t' -> exists tot, t_total t' = Some tot.
Proof.
  unfold Dict.mem. revert t.
  induction items as [|[action data] items IH]; intros t;
    cbn [Dict.get render_actions].
  - intros [Hm|Hm] [= <-]; [discriminate|].
    destruct (t_total t); [eauto|congruence].
  - rewrite (String.eqb_sym "total" action).
    destruct (sort_durations (a_durations data)); cbn [bind];
      [|intros _; discriminate].
    destruct (Py.sorted entry_lt (a_success data)); cbn [bind];
      [|intros _; discriminate].
    destruct (String.eqb action "total"); intros Hm Hr.
    + eapply IH; [|exact Hr]. right. cbn [t_total]. discriminate.
    + eapply IH; [|exact Hr]. destruct Hm as [Hm|Hm]; [now left|now right].
Qed.

Lemma render_actions_ok (items : list (string * action_series)) (t : trend) :
  (forall a data k l,
      In (a, data) items -> In (k, l) (action_series_list data) -> tie_safe l) ->
  exists t', render_actions items t = Ok t'.
Proof.
  revert t. induction items as [|[action data] items IH]; intros t Hs; simpl.
  - eauto.
  - destruct (sort_durations_ok (a_durations data)) as [ds ->].
    { intros k l Hin. apply (Hs action data k l); [now left|].
      unfold action_series_list. apply in_or_app. now left. }
    destruct (tie_safe_sorted (a_success data)) as [sc ->].
    { apply (Hs action data "success"); [now left|].
      unfold action_series_list. apply in_or_app. right. now left. }
    simpl. destruct (String.eqb action "total"); apply IH;
      intros a d k l Hin Hk; (apply (Hs a d k l); [now right|assumption]).
Qed.

Lemma split_nonempty (sep : ascii) (s : string) : Py.split sep s <> [].
Proof.
  destruct s as [|c s]; simpl; [discriminate|].
  destruct (Ascii.eqb c sep); [discriminate|].
  destruct (Py.split sep s); discriminate.
Qed.

Lemma split_no_dot (s : string) : contains_dot s = false -> Py.split "." s = [s].
Proof.
  unfold contains_dot. induction s as [|c s IH];
    cbn [list_ascii_of_string existsb Py.split]; [reflexivity|].
  rewrite (Ascii.eqb_sym "." c). destruct (Ascii.eqb c "."); cbn [orb];
    [discriminate|].
  intros Hs. now rewrite (IH Hs).
Qed.

Lemma split_dot (s : string) :
  contains_dot s = true -> exists cls met rest, Py.split "." s = cls :: met :: rest.
Proof.
  unfold contains_dot. induction s as [|c s IH];
    cbn [list_ascii_of_string existsb Py.split]; [discriminate|].
  rewrite (Ascii.eqb_sym "." c). destruct (Ascii.eqb c "."); cbn [orb].
  - intros _. pose proof (split_nonempty "." s) as Hne.
    destruct (Py.split "." s) as [|w ws]; [congruence|eauto].
  - intros Hs. destruct (IH Hs) as (cls & met & rest & ->). eauto.
Qed.

Lemma In_stored_series (g : group) (a k : string) (l : list entry) :
  In (a, k, l) (stored_series g) <->
  exists data, In (a, data) (g_actions g) /\ In (k, l) (action_series_list data).
Proof.
  unfold stored_series. rewrite in_flat_map. split.
  - intros ([a' data] & Hin & Ht). cbn [fst snd] in Ht.
    apply In_tag_all in Ht. destruct Ht as [-> Ht]. eauto.
  - intros (data & Hin & Hk). exists (a, data). split; [assumption|].
    apply In_tag_all. auto.
Qed.

Lemma fold_numeric (comp : Computation) (l : list entry) (st : comp_state comp) :
  fold_left (fun st i => if is_number (snd i) then comp_add comp st (snd i) else st) l st
  = fold_left (comp_add comp) (filter is_number (map snd l)) st.
Proof.
  revert st. induction l as [|i l IH]; intros st; simpl; [reflexivity|].
  destruct (is_number (snd i)); simpl; apply IH.
Qed.

(** The reducer receives the numeric samples of the series, in order, and
    nothing else. *)
Lemma feed_numeric_samples (comp : Computation) (durations : series) :
  feed comp durations
  = comp_result comp
      (fold_left (comp_add comp) (numeric_samples durations) (comp_new comp)).
Proof.
  unfold feed, numeric_samples. f_equal. generalize (comp_new comp).
  induction durations as [|[k v] d IH]; intros st; simpl; [reflexivity|].
  rewrite IH, fold_numeric, map_app, filter_app, fold_left_app. reflexivity.
Qed.

Section Rendering.
Context `{Extern}.

Lemma render_group_no_dot (g : group) :
  contains_dot (g_name g) = false -> render_group g = Raise IndexError.
Proof.
  intros Hn. unfold render_group. now rewrite (split_no_dot _ Hn).
Qed.

Lemma render_group_series (g : group) (t : trend) :
  render_group g = Ok t ->
  t_name t = g_name g
  /\ forall a k v,
       In (a, k, v) (trend_series t) ->
       exists l, In (a, k, l) (stored_series g) /\ Py.sorted entry_lt l = Ok v.
Proof.
  unfold render_group.
  destruct (Py.split "." (g_name g)) as [|cls [|met rest]]; try discriminate.
  destruct (render_actions _ _) as [t0|e] eqn:Hr; simpl; [|discriminate].
  destruct (t_total t0) as [tot|] eqn:Htot; [|discriminate].
  intros [= <-]. cbn [t_name]. split.
  - now destruct (render_actions_fields _ _ _ Hr) as (-> & _).
  - intros a k v Hin.
    assert (Hin0 : In (a, k, v) (trend_series t0)).
    { unfold trend_series, total_series in *. cbn [t_total t_actions] in Hin.
      rewrite Htot. exact Hin. }
    destruct (render_actions_series _ _ _ _ _ _ Hr Hin0)
      as [Hold|(data & l & Hd & Hl & Hv)].
    + contradiction Hold.
    + exists l. split; [|assumption]. apply In_stored_series. eauto.
Qed.

Lemma render_group_no_total (g : group) :
  Dict.mem "total" (g_actions g) = false ->
  (forall t, render_group g <> Ok t)
  /\ (contains_dot (g_name g) = true ->
      (forall a k l, In (a, k, l) (stored_series g) -> tie_safe l) ->
      render_group g = Raise (KeyError "durations")).
Proof.
  intros Hm. unfold render_group. split.
  - intros t.
    destruct (Py.split "." (g_name g)) as [|cls [|met rest]]; try discriminate.
    destruct (render_actions _ _) as [t0|e] eqn:Hr; simpl; [|discriminate].
    now rewrite (render_actions_no_total _ _ _ Hm Hr).
  - intros Hd Hs. destruct (split_dot _ Hd) as (cls & met & rest & ->).
    match goal with
    | |- context [render_actions ?i ?t0] =>
        destruct (render_actions_ok i t0) as [t' Hr]
    end.
    { intros a data k l Hin Hk. apply (Hs a k l), In_stored_series. eauto. }
    rewrite Hr. simpl. now rewrite (render_actions_no_total _ _ _ Hm Hr).
Qed.

Lemma render_group_ok (g : group) :
  renderable g ->
  exists t tot,
    render_group g = Ok t
    /\ t_total t = Some tot
    /\ t_stat t = [("min", feed MinComputation (to_durations tot));
                   ("max", feed MaxComputation (to_durations tot));
                   ("avg", feed MeanComputation (to_durations tot))].
Proof.
  intros (Hd & Hm & Hs). unfold render_group.
  destruct (split_dot _ Hd) as (cls & met & rest & ->).
  match goal with
  | |- context [render_actions ?i ?t0] =>
      destruct (render_actions_ok i t0) as [t' Hr]
  end.
  { intros a data k l Hin Hk. apply (Hs a k l), In_stored_series. eauto. }
  rewrite Hr. simpl.
  destruct (render_actions_total _ _ _ (or_introl Hm) Hr) as [tot Htot].
  rewrite Htot. eexists _, tot. split; [reflexivity|]. cbn [t_total t_stat]. auto.
Qed.

Lemma get_data_In (self : trends_data) (trends : list trend) (t : trend) :
  get_data self = Ok trends -> In t trends ->
  exists key g, In (key, g) self /\ render_group g = Ok t.
Proof.
  unfold get_data.
  destruct (mapM render_group (map snd self)) as [ts|e] eqn:Hm; simpl; [|discriminate].
  intros Hs Hin. apply sorted_Permutation in Hs.
  apply (Permutation_in _ (Permutation_sym Hs)) in Hin.
  destruct (mapM_ok_In _ _ _ Hm _ Hin) as (g & Hg & Hr).
  apply in_map_iff in Hg. destruct Hg as ([key g'] & <- & Hg). eauto.
Qed.

Lemma get_data_raises (self : trends_data) (key : string) (g : group) :
  In (key, g) self -> (forall t, render_group g <> Ok t) ->
  exists e, get_data self = Raise e.
Proof.
  intros Hin Hr. unfold get_data.
  destruct (render_group g) as [t|e] eqn:Hg; [now elim (Hr t)|].
  destruct (mapM_In_raises render_group (map snd self) g e) as [e' ->]; auto.
  - apply in_map_iff. exists (key, g). auto.
  - simpl. eauto.
Qed.

Lemma get_data_ok (self : trends_data) :
  (forall key g, In (key, g) self -> exists t, render_group g = Ok t) ->
  exists trends, get_data self = Ok trends.
Proof.
  intros Hall. unfold get_data.
  destruct (mapM_ok_all render_group (map snd self)) as [ts ->].
  { intros g Hg. apply in_map_iff in Hg. destruct Hg as ([key g'] & <- & Hg). eauto. }
  simpl. unfold Py.str_lt.
  rewrite (sorted_total_isort (fun a b => String.ltb (t_name a) (t_name b))). eauto.
Qed.

End Rendering.

(** ** Folding a run result *)

Lemma in_duration_names (tgt : string) :
  In tgt (map fst duration_columns) -> String.eqb tgt "success" = false.
Proof.
  simpl. intros [<-|[<-|[<-|[<-|[<-|[<-|[]]]]]]]; reflexivity.
Qed.

Lemma append_durations_spec (pairs : list (string * string)) (row : Dict.t scalar)
  (ts : Z) (d d' : Dict.t (list entry)) :
  NoDup (map fst pairs) ->
  append_durations pairs row ts d = (d', Ok tt) ->
  forall tgt,
    (In tgt (map fst pairs) -> exists v, dur d' tgt = (dur d tgt ++ [(ts, v)])%list)
    /\ (~ In tgt (map fst pairs) -> Dict.get tgt d' = Dict.get tgt d).
Proof.
  revert d. induction pairs as [|[tgt0 src] pairs IH]; intros d Hnd; cbn [append_durations].
  - intros [= <-] tgt. split; [intros []|reflexivity].
  - cbn [map fst] in Hnd. apply NoDup_cons_iff in Hnd. destruct Hnd as [Hnotin Hnd].
    destruct (Dict.get tgt0 d) as [l|] eqn:Hl; [|discriminate].
    destruct (Dict.get src row) as [v|] eqn:Hv; [|discriminate].
    intros Hr tgt. destruct (IH _ Hnd Hr tgt) as [IHin IHout].
    cbn [map fst In]. destruct (String.eqb_spec tgt0 tgt) as [->|Hne].
    + split; [|tauto]. intros _. exists v. unfold dur at 1.
      rewrite (IHout Hnotin), dict_get_set_same. unfold dur. now rewrite Hl.
    + split.
      * intros [Heq|Hin]; [congruence|]. destruct (IHin Hin) as [v' Hv'].
        exists v'. rewrite Hv'. unfold dur. rewrite dict_get_set_other; auto.
      * intros Hout. rewrite IHout; [|tauto]. rewrite dict_get_set_other; auto.
Qed.

Lemma duration_columns_NoDup : NoDup (map fst duration_columns).
Proof.
  simpl. repeat (constructor; [simpl; intuition discriminate|]). constructor.
Qed.

(** One action of one run: its seven series each gain one sample with the
    timestamp of the run, and no other action is touched. *)
Lemma add_action_spec (action : string) (row : Dict.t scalar) (ts : Z)
  (actions actions' : Dict.t action_series) :
  add_action action row ts actions = (actions', Ok tt) ->
  (forall name, In name series_names ->
     exists v, series_in actions' action name
               = (series_in actions action name ++ [(ts, v)])%list)
  /\ (exists v, parse_success row = Ok v
                /\ series_in actions' action "success"
                   = (series_in actions action "success" ++ [(ts, v)])%list)
  /\ (forall a, a <> action -> Dict.get a actions' = Dict.get a actions).
Proof.
  unfold add_action.
  destruct (parse_success row) as [sv|e]; [|discriminate].
  destruct (append_durations _ _ _ _) as [d out] eqn:Hd.
  intros [= <- ->].
  pose proof (append_durations_spec _ _ _ _ _ duration_columns_NoDup Hd) as Hspec.
  assert (Hold : forall name,
             series_in actions action name
             = if String.eqb name "success"
               then a_success match Dict.get action actions with
                              | Some a => a | None => new_action end
               else dur (a_durations match Dict.get action actions with
                                      | Some a => a | None => new_action end) name).
  { intros name. unfold series_in.
    destruct (Dict.get action actions); [reflexivity|].
    destruct (String.eqb name "success"); [reflexivity|].
    unfold dur, new_action. cbn [a_durations].
    destruct (Dict.get name _) as [l|] eqn:Hl; [|reflexivity].
    apply dict_get_In in Hl. simpl in Hl.
    repeat (destruct Hl as [[= _ <-]|Hl]; [reflexivity|]). destruct Hl. }
  split; [|split].
  - intros name Hn. rewrite Hold. unfold series_in at 1.
    rewrite dict_get_set_same. cbn [a_success a_durations].
    destruct Hn as [<-|Hn]; [cbn; eauto|].
    rewrite (in_duration_names _ Hn). apply Hspec, Hn.
  - exists sv. split; [reflexivity|]. rewrite Hold. unfold series_in.
    now rewrite dict_get_set_same.
  - intros a Hne. now apply dict_get_set_other.
Qed.

Lemma add_actions_spec (stat : list (string * Dict.t scalar)) (ts : Z)
  (actions actions' : Dict.t action_series) :
  NoDup (map fst stat) ->
  add_actions stat ts actions = (actions', Ok tt) ->
  forall action,
    (In action (map fst stat) ->
       forall name, In name series_names ->
         exists v, series_in actions' action name
                   = (series_in actions action name ++ [(ts, v)])%list)
    /\ (~ In action (map fst stat) ->
          Dict.get action actions' = Dict.get action actions).
Proof.
  revert actions. induction stat as [|[a0 row] stat IH]; intros actions Hnd;
    cbn [add_actions].
  - intros [= <-] action. split; [intros []|reflexivity].
  - cbn [map fst] in Hnd. apply NoDup_cons_iff in Hnd. destruct Hnd as [Hnotin Hnd].
    destruct (add_action a0 row ts actions) as [acts1 [[]|e]] eqn:Ha; [|discriminate].
    intros Hr action. destruct (IH _ Hnd Hr action) as [IHin IHout].
    destruct (add_action_spec _ _ _ _ _ Ha) as (Hsame & _ & Hother).
    cbn [map fst In]. destruct (String.eqb_spec a0 action) as [->|Hne].
    + split; [|tauto]. intros _ name Hn.
      destruct (Hsame name Hn) as [v Hv]. exists v. rewrite <- Hv.
      unfold series_in. now rewrite (IHout Hnotin).
    + split.
      * intros [Heq|Hin] name Hn; [congruence|].
        destruct (IHin Hin name Hn) as [v Hv]. exists v. rewrite Hv.
        unfold series_in. rewrite Hother; auto.
      * intros Hout. rewrite IHout; [|tauto]. apply Hother. auto.
Qed.

Lemma dict_set_keys {V : Type} (k : string) (v : V) (d : Dict.t V) :
  map fst (Dict.set k v d)
  = if Dict.mem k d then map fst d else (map fst d ++ [k])%list.
Proof.
  unfold Dict.mem. induction d as [|[k' v'] d IH]; simpl; [reflexivity|].
  destruct (String.eqb k k') eqn:Hk; simpl; [reflexivity|].
  rewrite IH. now destruct (Dict.get k d).
Qed.

Lemma make_stat_keys (cols : list string) (rows : list (string * list scalar)) :
  NoDup (map fst (make_stat cols rows))
  /\ forall a, In a (map fst (make_stat cols rows)) <-> In a (map fst rows).
Proof.
  unfold make_stat.
  assert (Hgen : forall d : Dict.t (Dict.t scalar),
             NoDup (map fst d) ->
             let d' := fold_left
                         (fun d row =>
                            Dict.set (fst row)
                              (Dict.of_pairs (zip cols (SStr (fst row) :: snd row))) d)
                         rows d in
             NoDup (map fst d')
             /\ forall a, In a (map fst d') <-> In a (map fst d) \/ In a (map fst rows)).
  { induction rows as [|row rows IH]; intros d Hd; cbn [fold_left map].
    - split; [assumption|]. intros a. simpl. tauto.
    - destruct (IH (Dict.set (fst row)
                      (Dict.of_pairs (zip cols (SStr (fst row) :: snd row))) d))
        as [Hnd Hin].
      + rewrite dict_set_keys. destruct (Dict.mem (fst row) d) eqn:Hm; [assumption|].
        apply NoDup_app; [assumption|repeat constructor; auto|].
        intros x Hx [<-|[]]. apply dict_mem_In in Hx. congruence.
      + split; [assumption|]. intros a. rewrite Hin, dict_set_keys.
        destruct (Dict.mem (fst row) d) eqn:Hm.
        * apply dict_mem_In in Hm. cbn [In]. split; [tauto|].
          intros [Ha|[<-|Ha]]; auto.
        * rewrite in_app_iff. cbn [In]. tauto. }
  destruct (Hgen [] (NoDup_nil _)) as [Hnd Hin]. split; [assumption|].
  intros a. rewrite Hin. simpl. tauto.
Qed.

(** Whatever the outcome, the stored samples stay in place. *)
Lemma dur_set (d : Dict.t (list entry)) (tgt0 tgt : string) (l : list entry) :
  dur (Dict.set tgt0 l d) tgt = if String.eqb tgt0 tgt then l else dur d tgt.
Proof.
  unfold dur. destruct (String.eqb_spec tgt0 tgt) as [->|Hne].
  - now rewrite dict_get_set_same.
  - rewrite dict_get_set_other; auto.
Qed.

Lemma append_durations_prefix (pairs : list (string * string)) (row : Dict.t scalar)
  (ts : Z) (d d' : Dict.t (list entry)) (out : result unit) (tgt : string) :
  append_durations pairs row ts d = (d', out) ->
  exists tail, dur d' tgt = (dur d tgt ++ tail)%list.
Proof.
  revert d. induction pairs as [|[tgt0 src] pairs IH]; intros d; cbn [append_durations].
  - intros [= <- _]. exists []. now rewrite app_nil_r.
  - destruct (Dict.get tgt0 d) as [l|] eqn:Hl;
      [|intros [= <- _]; exists []; now rewrite app_nil_r].
    destruct (Dict.get src row) as [v|];
      [|intros [= <- _]; exists []; now rewrite app_nil_r].
    intros Hr. destruct (IH _ Hr) as [tail ->]. rewrite dur_set.
    destruct (String.eqb_spec tgt0 tgt) as [->|Hne].
    + unfold dur. rewrite Hl, <- app_assoc. eauto.
    + eauto.
Qed.

Lemma series_in_set (actions : Dict.t action_series) (a0 a name : string)
  (x : action_series) :
  series_in (Dict.set a0 x actions) a name
  = if String.eqb a0 a
    then (if String.eqb name "success" then a_success x else dur (a_durations x) name)
    else series_in actions a name.
Proof.
  unfold series_in. destruct (String.eqb_spec a0 a) as [->|Hne].
  - now rewrite dict_get_set_same.
  - rewrite dict_get_set_other; auto.
Qed.

Lemma series_in_new_action (actions : Dict.t action_series) (a name : string) :
  series_in actions a name
  = if String.eqb name "success"
    then a_success match Dict.get a actions with Some x => x | None => new_action end
    else dur (a_durations match Dict.get a actions with
                           | Some x => x | None => new_action end) name.
Proof.
  unfold series_in. destruct (Dict.get a actions); [reflexivity|].
  destruct (String.eqb name "success"); [reflexivity|].
  unfold dur, new_action. cbn [a_durations].
  destruct (Dict.get name _) as [l|] eqn:Hl; [|reflexivity].
  apply dict_get_In in Hl. simpl in Hl.
  repeat (destruct Hl as [[= _ <-]|Hl]; [reflexivity|]). destruct Hl.
Qed.

Lemma add_action_prefix (action : string) (row : Dict.t scalar) (ts : Z)
  (actions actions' : Dict.t action_series) (out : result unit) (a name : string) :
  add_action action row ts actions = (actions', out) ->
  exists tail, series_in actions' a name = (series_in actions a name ++ tail)%list.
Proof.
  unfold add_action.
  destruct (parse_success row) as [sv|e].
  - destruct (append_durations _ _ _ _) as [d o] eqn:Hd. intros [= <- _].
    rewrite series_in_set. destruct (String.eqb action a) eqn:Ha;
      [|exists []; now rewrite app_nil_r].
    apply String.eqb_eq in Ha. subst a. rewrite (series_in_new_action actions).
    cbn [a_success a_durations].
    destruct (String.eqb name "success"); [eauto|].
    apply (append_durations_prefix _ _ _ _ _ _ name Hd).
  - intros [= <- _]. rewrite series_in_set.
    destruct (String.eqb action a) eqn:Ha; [|exists []; now rewrite app_nil_r].
    apply String.eqb_eq in Ha. subst a. rewrite (series_in_new_action actions).
    exists []. now rewrite app_nil_r.
Qed.

Lemma add_actions_prefix (stat : list (string * Dict.t scalar)) (ts : Z)
  (actions actions' : Dict.t action_series) (out : result unit) (a name : string) :
  add_actions stat ts actions = (actions', out) ->
  exists tail, series_in actions' a name = (series_in actions a name ++ tail)%list.
Proof.
  revert actions. induction stat as [|[a0 row] stat IH]; intros actions;
    cbn [add_actions].
  - intros [= <- _]. exists []. now rewrite app_nil_r.
  - destruct (add_action a0 row ts actions) as [acts1 o] eqn:Ha.
    destruct (add_action_prefix _ _ _ _ _ _ a name Ha) as [t1 H1].
    destruct o as [[]|e].
    + intros Hr. destruct (IH _ Hr) as [t2 ->]. rewrite H1, <- app_assoc. eauto.
    + intros [= <- _]. eauto.
Qed.

Lemma in_stat_In (action : string) (r : run_result) :
  in_stat action r = true <-> In action (map fst (stat_rows r)).
Proof.
  unfold in_stat. rewrite existsb_exists. split.
  - intros (a & Hin & Heq). apply String.eqb_eq in Heq. now subst.
  - intros Hin. exists action. split; [assumption|apply String.eqb_refl].
Qed.

Section FoldSpec.
Context `{Extern}.

Lemma group_of_series (key : string) (r : run_result) (self : trends_data)
  (g : group) (action name : string) :
  group_of key r self = Ok g ->
  series_of key action name self = series_in (g_actions g) action name.
Proof.
  unfold group_of, series_of. destruct (Dict.get key self) as [g0|].
  - now intros [= ->].
  - destruct (json_dumps (key_kw r)); simpl; [|discriminate].
    now intros [= <-].
Qed.

(** A completed fold: the seven series of every action of the stat table
    gain one sample in the group of the run result; every other series of
    the state is as before. *)
Lemma add_result_spec (self self' : trends_data) (r : run_result) :
  add_result self r = (self', Ok tt) ->
  exists key ts,
    _make_hash (key_kw r) = Ok key
    /\ timestamp r = Ok ts
    /\ forall k action name,
         In name series_names ->
         if String.eqb k key && in_stat action r
         then exists v, series_of k action name self'
                        = (series_of k action name self ++ [(ts, v)])%list
         else series_of k action name self' = series_of k action name self.
Proof.
  unfold add_result.
  destruct (_make_hash (key_kw r)) as [key|e]; [|discriminate].
  destruct (group_of key r self) as [g|e] eqn:Hg; [|discriminate].
  destruct (timestamp r) as [ts|e]; [|discriminate].
  cbn [g_actions g_sla_failures g_name g_config].
  destruct (add_actions _ ts (g_actions g)) as [acts out] eqn:Ha.
  intros [= <- ->]. exists key, ts. split; [reflexivity|]. split; [reflexivity|].
  intros k action name Hn.
  destruct (make_stat_keys (stat_cols r) (stat_rows r)) as [Hnd Hkeys].
  destruct (add_actions_spec _ _ _ _ Hnd Ha action) as [Hin Hout].
  destruct (String.eqb_spec k key) as [->|Hne]; cbn [andb].
  - rewrite (group_of_series _ _ _ _ action name Hg).
    destruct (in_stat action r) eqn:Hs;
      unfold series_of; rewrite dict_get_set_same; cbn [g_actions].
    + apply Hin; [|assumption]. now apply Hkeys, in_stat_In.
    + unfold series_in. rewrite Hout; [reflexivity|].
      rewrite Hkeys, <- in_stat_In. congruence.
  - unfold series_of. now rewrite dict_get_set_other.
Qed.

Lemma add_result_prefix (self : trends_data) (r : run_result)
  (key action name : string) :
  exists tail,
    series_of key action name (fst (add_result self r))
    = (series_of key action name self ++ tail)%list.
Proof.
  unfold add_result.
  destruct (_make_hash (key_kw r)) as [k|e];
    [|exists []; now rewrite app_nil_r].
  destruct (group_of k r self) as [g|e] eqn:Hg;
    [|exists []; now rewrite app_nil_r].
  assert (Hset : forall g',
             (exists tail, series_in (g_actions g') action name
                           = (series_in (g_actions g) action name ++ tail)%list) ->
             exists tail, series_of key action name (Dict.set k g' self)
                          = (series_of key action name self ++ tail)%list).
  { intros g' [tail Ht]. destruct (String.eqb_spec key k) as [->|Hne].
    - rewrite (group_of_series _ _ _ _ action name Hg).
      unfold series_of. rewrite dict_get_set_same. eauto.
    - unfold series_of. rewrite dict_get_set_other; [|assumption].
      exists []. now rewrite app_nil_r. }
  destruct (timestamp r) as [ts|e]; cbn [fst].
  - cbn [g_actions g_sla_failures g_name g_config].
    destruct (add_actions _ ts (g_actions g)) as [acts out] eqn:Ha. cbn [fst].
    apply Hset. cbn [g_actions]. apply (add_actions_prefix _ _ _ _ _ _ _ Ha).
  - apply Hset. cbn [g_actions]. exists []. now rewrite app_nil_r.
Qed.

Lemma add_results_prefix (rs : list run_result) (self : trends_data)
  (key action name : string) :
  exists tail,
    series_of key action name (fst (add_results self rs))
    = (series_of key action name self ++ tail)%list.
Proof.
  revert self. induction rs as [|r rs IH]; intros self; cbn [add_results].
  - exists []. now rewrite app_nil_r.
  - destruct (add_result_prefix self r key action name) as [t1 H1].
    destruct (add_result self r) as [s1 [[]|e]]; cbn [fst] in *.
    + destruct (IH s1) as [t2 ->]. rewrite H1, <- app_assoc. eauto.
    + eauto.
Qed.

Lemma folds_with_cons (key action : string) (r : run_result) (rs : list run_result)
  (k : string) :
  _make_hash (key_kw r) = Ok k ->
  folds_with key action (r :: rs)
  = ((if String.eqb k key && in_stat action r then 1 else 0)
     + folds_with key action rs)%nat.
Proof.
  intros Hk. unfold folds_with. cbn [filter]. rewrite Hk.
  now destruct (String.eqb k key && in_stat action r).
Qed.

Lemma add_results_spec (rs : list run_result) (self self' : trends_data) :
  add_results self rs = (self', Ok tt) ->
  forall key action name,
    In name series_names ->
    exists tail,
      series_of key action name self'
      = (series_of key action name self ++ tail)%list
      /\ List.length tail = folds_with key action rs.
Proof.
  revert self. induction rs as [|r rs IH]; intros self; cbn [add_results].
  - intros [= <-] key action name _. exists []. now rewrite app_nil_r.
  - destruct (add_result self r) as [s1 [[]|e]] eqn:Hr; [|discriminate].
    intros Hrs key action name Hn.
    destruct (add_result_spec _ _ _ Hr) as (k & ts & Hk & _ & Hstep).
    destruct (IH _ Hrs key action name Hn) as (tail & -> & Hlen).
    rewrite (folds_with_cons _ _ _ _ _ Hk).
    specialize (Hstep key action name Hn).
    rewrite (String.eqb_sym key k) in Hstep.
    destruct (String.eqb k key && in_stat action r).
    + destruct Hstep as [v ->]. exists ((ts, v) :: tail).
      rewrite <- app_assoc. split; [reflexivity|]. simpl. now rewrite Hlen.
    + rewrite Hstep. exists tail. auto.
Qed.

(** C8: a completed fold appends exactly one sample to the success series
    and to each of the six duration series of every action of its stat
    table, in its own group, and leaves every stored sample in place; so
    after the folds of a pass each of these series has as many samples as
    there were folds into that group whose stat table had the action; and
    whatever the calls of [add_result] and however they end, the series
    before them is a prefix of the series after them. *)
Theorem fold_append_only :
  (forall self self' r,
      add_result self r = (self', Ok tt) ->
      exists key,
        _make_hash (key_kw r) = Ok key
        /\ forall k action name,
             In name series_names ->
             exists tail,
               series_of k action name self'
               = (series_of k action name self ++ tail)%list
               /\ List.length tail
                  = if String.eqb k key && in_stat action r then 1%nat else 0%nat)
  /\ (forall rs self',
        add_results [] rs = (self', Ok tt) ->
        forall key action name,
          In name series_names ->
          List.length (series_of key action name self') = folds_with key action rs)
  /\ (forall rs self key action name,
        exists tail,
          series_of key action name (fst (add_results self rs))
          = (series_of key action name self ++ tail)%list).
Proof.
  split; [|split].
  - intros self self' r Hr.
    destruct (add_result_spec _ _ _ Hr) as (key & ts & Hk & _ & Hstep).
    exists key. split; [assumption|]. intros k action name Hn.
    specialize (Hstep k action name Hn).
    destruct (String.eqb k key && in_stat action r).
    + destruct Hstep as [v ->]. now exists [(ts, v)].
    + rewrite Hstep. exists []. now rewrite app_nil_r.
  - intros rs self' Hrs key action name Hn.
    destruct (add_results_spec _ _ _ Hrs key action name Hn) as (tail & -> & Hlen).
    exact Hlen.
  - intros rs self key action name. apply add_results_prefix.
Qed.

End FoldSpec.

Lemma fold_append_only_witness :
  let rs := [sample_run "C.m" kw_ab
               [sample_row "boot" (seconds 1 0) "100%";
                sample_row "total" (seconds 2 0) "100%"]
               (Py.Ffin false 25 (-1)) [true];
             sample_run "C.m" kw_ba
               [sample_row "total" (seconds 3 0) "n/a"]
               (Py.Ffin false 15 (-1)) [false]] in
  let self' := fst (@add_results reference_extern [] rs) in
  (List.length (series_of "a:1|b:2,3" "boot" "min" self')
   = @folds_with reference_extern "a:1|b:2,3" "boot" rs)
  /\ (List.length (series_of "a:1|b:2,3" "total" "success" self')
      = @folds_with reference_extern "a:1|b:2,3" "total" rs).
Proof.
  destruct (@fold_append_only reference_extern) as (_ & Hn & _).
  intros rs self'. split; apply Hn; try (vm_compute; reflexivity).
  - simpl. tauto.
  - simpl. tauto.
Defined.

(** ** What [get_data] requires of a group *)

Lemma dict_set_In {V : Type} (k k' : string) (v v' : V) (d : Dict.t V) :
  In (k', v') (Dict.set k v d) -> (k' = k /\ v' = v) \/ In (k', v') d.
Proof.
  induction d as [|[k0 v0] d IH]; simpl.
  - intros [[= <- <-]|[]]. auto.
  - destruct (String.eqb k k0) eqn:Hk; simpl.
    + apply String.eqb_eq in Hk. subst k0.
      intros [[= <- <-]|Hin]; auto.
    + intros [Heq|Hin]; [auto|]. destruct (IH Hin); auto.
Qed.

Lemma dict_set_nonempty {V : Type} (k : string) (v : V) (d : Dict.t V) :
  Dict.set k v d <> [].
Proof.
  destruct d as [|[k0 v0] d]; simpl; [discriminate|].
  destruct (String.eqb k k0); discriminate.
Qed.

Section Requirements.
Context `{Extern}.

Lemma group_of_origin (key : string) (r : run_result) (self : trends_data) (g : group) :
  group_of key r self = Ok g ->
  In (key, g) self \/ (g_actions g = [] /\ g_name g = key_name r).
Proof.
  unfold group_of. destruct (Dict.get key self) as [g0|] eqn:Hg.
  - intros [= <-]. left. now apply dict_get_In.
  - destruct (json_dumps (key_kw r)); simpl; [|discriminate].
    intros [= <-]. right. auto.
Qed.

(** A completed fold, seen from the groups: the group of the run result
    is written back with the actions of the stat table added, its name
    kept; the other groups are untouched. *)
Lemma add_result_groups (self self' : trends_data) (r : run_result) :
  add_result self r = (self', Ok tt) ->
  self' <> []
  /\ forall k g',
       In (k, g') self' ->
       In (k, g') self
       \/ exists g,
            (In (k, g) self \/ (g_actions g = [] /\ g_name g = key_name r))
            /\ g_name g' = g_name g
            /\ forall action,
                 in_stat action r = false ->
                 Dict.mem action (g_actions g') = Dict.mem action (g_actions g).
Proof.
  unfold add_result.
  destruct (_make_hash (key_kw r)) as [key|e]; [|discriminate].
  destruct (group_of key r self) as [g|e] eqn:Hg; [|discriminate].
  destruct (timestamp r) as [ts|e]; [|discriminate].
  cbn [g_actions g_sla_failures g_name g_config].
  destruct (add_actions _ ts (g_actions g)) as [acts out] eqn:Ha.
  intros [= <- ->]. split; [apply dict_set_nonempty|].
  intros k g' Hin. apply dict_set_In in Hin. destruct Hin as [[-> ->]|Hin]; [|now left].
  right. exists g. split; [now apply group_of_origin in Hg|].
  split; [reflexivity|]. intros action Hs. cbn [g_actions].
  destruct (make_stat_keys (stat_cols r) (stat_rows r)) as [Hnd Hkeys].
  destruct (add_actions_spec _ _ _ _ Hnd Ha action) as [_ Hout].
  unfold Dict.mem. rewrite Hout; [reflexivity|].
  rewrite Hkeys, <- in_stat_In. congruence.
Qed.

Lemma add_results_no_total (rs : list run_result) (self self' : trends_data) :
  add_results self rs = (self', Ok tt) ->
  (forall r, In r rs -> in_stat "total" r = false) ->
  (forall k g, In (k, g) self -> Dict.mem "total" (g_actions g) = false) ->
  (forall k g, In (k, g) self' -> Dict.mem "total" (g_actions g) = false)
  /\ (rs <> [] -> self' <> []).
Proof.
  revert self. induction rs as [|r rs IH]; intros self; cbn [add_results].
  - intros [= <-] _ Hself. split; [assumption|congruence].
  - destruct (add_result self r) as [s1 [[]|e]] eqn:Hr; [|discriminate].
    intros Hrs Hno Hself.
    destruct (add_result_groups _ _ _ Hr) as [Hne Hgroups].
    assert (Hs1 : forall k g, In (k, g) s1 -> Dict.mem "total" (g_actions g) = false).
    { intros k g' Hin. destruct (Hgroups _ _ Hin) as [Hold|(g & Hg & _ & Hm)]; [eauto|].
      rewrite Hm; [|apply Hno; now left].
      destruct Hg as [Hg|[-> _]]; [eauto|reflexivity]. }
    destruct (IH _ Hrs (fun r' Hr' => Hno r' (or_intror Hr')) Hs1) as [Hall Hne'].
    split; [assumption|]. intros _.
    destruct rs as [|r' rs]; [|apply Hne'; discriminate].
    cbn in Hrs. injection Hrs as <-. assumption.
Qed.

(** C9: [get_data] does not return for a group without the action
    ["total"]: rendering such a group raises, with [KeyError] for the
    group-level [durations] when nothing else is wrong with it; so
    [get_data] raises whenever the state holds such a group, in particular
    after a pass none of whose stat tables had a ["total"] row. *)
Theorem get_data_requires_total :
  (forall g, Dict.mem "total" (g_actions g) = false ->
             forall t, render_group g <> Ok t)
  /\ (forall g,
        Dict.mem "total" (g_actions g) = false ->
        contains_dot (g_name g) = true ->
        (forall a k l, In (a, k, l) (stored_series g) -> tie_safe l) ->
        render_group g = Raise (KeyError "durations"))
  /\ (forall self key g,
        In (key, g) self -> Dict.mem "total" (g_actions g) = false ->
        exists e, get_data self = Raise e)
  /\ (forall rs self',
        rs <> [] ->
        add_results [] rs = (self', Ok tt) ->
        (forall r, In r rs -> in_stat "total" r = false) ->
        exists e, get_data self' = Raise e).
Proof.
  split; [|split; [|split]].
  - intros g Hm. now apply render_group_no_total.
  - intros g Hm. now apply render_group_no_total.
  - intros self key g Hin Hm. apply (get_data_raises self key g Hin).
    now apply render_group_no_total.
  - intros rs self' Hne Hrs Hno.
    destruct (add_results_no_total _ _ _ Hrs Hno) as [Hall Hne']; [intros k g []|].
    specialize (Hne' Hne). destruct self' as [|[k g] self']; [congruence|].
    apply (get_data_raises _ k g); [now left|].
    apply render_group_no_total, (Hall k). now left.
Qed.

(** C10: [get_data] does not return for a group whose name has no ["."]:
    rendering such a group raises [IndexError] at [split(".")[1]], so
    [get_data] raises whenever the state holds such a group; a group gets
    its name from the [key.name] of the run result that creates it, and
    when the first run result folded has such a name, [IndexError] is what
    [get_data] raises. *)
Theorem get_data_requires_dotted_name :
  (forall g, contains_dot (g_name g) = false -> render_group g = Raise IndexError)
  /\ (forall self key g,
        In (key, g) self -> contains_dot (g_name g) = false ->
        exists e, get_data self = Raise e)
  /\ (forall self self' r key,
        _make_hash (key_kw r) = Ok key ->
        Dict.mem key self = false ->
        add_result self r = (self', Ok tt) ->
        contains_dot (key_name r) = false ->
        exists e, get_data self' = Raise e)
  /\ (forall self' r,
        add_result [] r = (self', Ok tt) ->
        contains_dot (key_name r) = false ->
        get_data self' = Raise IndexError).
Proof.
  assert (Hcreated : forall self self' r key,
             _make_hash (key_kw r) = Ok key ->
             Dict.mem key self = false ->
             add_result self r = (self', Ok tt) ->
             exists g', self' = Dict.set key g' self /\ g_name g' = key_name r).
  { intros self self' r key Hk Hm. unfold add_result. rewrite Hk.
    unfold group_of, Dict.mem in *. destruct (Dict.get key self); [discriminate|].
    destruct (json_dumps (key_kw r)); simpl; [|discriminate].
    destruct (timestamp r); [|discriminate].
    destruct (add_actions _ _ _) as [acts out]. intros [= <- ->]. eauto. }
  split; [|split; [|split]].
  - apply render_group_no_dot.
  - intros self key g Hin Hd. apply (get_data_raises self key g Hin).
    intros t. rewrite (render_group_no_dot _ Hd). discriminate.
  - intros self self' r key Hk Hm Hr Hd.
    destruct (Hcreated _ _ _ _ Hk Hm Hr) as (g' & -> & Hname).
    apply (get_data_raises _ key g').
    + apply dict_get_In, dict_get_set_same.
    + intros t. rewrite render_group_no_dot; [discriminate|congruence].
  - intros self' r Hr Hd.
    destruct (add_result_ok_hash _ _ _ Hr) as [key Hk].
    destruct (Hcreated [] _ _ _ Hk eq_refl Hr) as (g' & -> & Hname).
    unfold get_data. cbn [Dict.set map snd mapM].
    rewrite render_group_no_dot; [reflexivity|congruence].
Qed.

End Requirements.

Lemma get_data_requires_total_witness :
  exists e,
    @get_data reference_extern
      (fst (@add_results reference_extern []
              [sample_run "Nova.boot" kw_ab
                 [sample_row "boot" (seconds 1 0) "100%"]
                 (Py.Ffin false 15 (-1)) [true]]))
    = Raise e.
Proof.
  destruct (@get_data_requires_total reference_extern) as (_ & _ & _ & Hn).
  apply (Hn [sample_run "Nova.boot" kw_ab
               [sample_row "boot" (seconds 1 0) "100%"]
               (Py.Ffin false 15 (-1)) [true]]).
  - discriminate.
  - vm_compute. reflexivity.
  - intros r [<-|[]]. vm_compute. reflexivity.
Defined.

Lemma get_data_requires_dotted_name_witness :
  @get_data reference_extern
    (fst (@add_result reference_extern []
            (sample_run "boot_server" kw_ab
               [sample_row "total" (seconds 1 0) "100%"]
               (Py.Ffin false 15 (-1)) [true])))
  = Raise IndexError.
Proof.
  destruct (@get_data_requires_dotted_name reference_extern) as (_ & _ & _ & Hn).
  apply (Hn _ (sample_run "boot_server" kw_ab
                 [sample_row "total" (seconds 1 0) "100%"]
                 (Py.Ffin false 15 (-1)) [true])); vm_compute; reflexivity.
Defined.

(** ** Order of the rendered series *)

Section Finalize.
Context `{Extern}.

(** C3, as amended: every duration sub-series and every success series
    that [get_data] returns is the series stored for that action under
    that name, rearranged by [sorted] on [(timestamp, value)] tuples: a
    permutation of the stored samples, ascending by timestamp whatever the
    order of ingestion, in which two neighbours never descend in the tuple
    order, so that samples with equal timestamps are ordered by value. *)
Theorem finalize_series_ordered (self : trends_data) (trends : list trend) :
  get_data self = Ok trends ->
  forall t, In t trends ->
  exists key g,
    In (key, g) self
    /\ t_name t = g_name g
    /\ forall a k v,
         In (a, k, v) (trend_series t) ->
         exists l, In (a, k, l) (stored_series g) /\ time_ordered l v.
Proof.
  intros Hg t Hin.
  destruct (get_data_In _ _ _ Hg Hin) as (key & g & Hkg & Hr).
  destruct (render_group_series _ _ Hr) as [Hname Hseries].
  exists key, g. split; [assumption|]. split; [assumption|].
  intros a k v Hv. destruct (Hseries _ _ _ Hv) as (l & Hl & Hs).
  exists l. split; [assumption|]. now apply sorted_time_ordered.
Qed.

(** Non-numeric samples away from ties: a text success cell that does
    not parse as a number, as ["n/a"], gives the success percent [0] and
    the fold goes on; the
    reducers of [get_data] receive the numeric duration samples only; and
    [get_data] returns, whatever non-numeric duration values the series
    hold, for groups with a dotted name and an action ["total"] provided
    that no series has two samples with the same timestamp and values of
    different kinds. *)
Theorem non_numeric_samples_tolerated :
  Py.float_of_str (Py.rstrip "%" "n/a") = None
  /\ (forall row s,
        Dict.get "Success" row = Some (SStr s) ->
        Py.float_of_str (Py.rstrip "%" s) = None ->
        parse_success row = Ok (SInt 0))
  /\ (forall action row ts actions actions' s,
        Dict.get "Success" row = Some (SStr s) ->
        Py.float_of_str (Py.rstrip "%" s) = None ->
        add_action action row ts actions = (actions', Ok tt) ->
        series_in actions' action "success"
        = (series_in actions action "success" ++ [(ts, SInt 0)])%list)
  /\ (forall comp durations,
        feed comp durations
        = comp_result comp
            (fold_left (comp_add comp) (numeric_samples durations) (comp_new comp)))
  /\ (forall self,
        (forall key g, In (key, g) self -> renderable g) ->
        exists trends,
          get_data self = Ok trends
          /\ forall t, In t trends ->
               exists tot,
                 t_total t = Some tot
                 /\ t_stat t
                    = [("min", feed MinComputation (to_durations tot));
                       ("max", feed MaxComputation (to_durations tot));
                       ("avg", feed MeanComputation (to_durations tot))]).
Proof.
  assert (Hparse : forall row s,
             Dict.get "Success" row = Some (SStr s) ->
             Py.float_of_str (Py.rstrip "%" s) = None ->
             parse_success row = Ok (SInt 0)).
  { intros row s Hrow Hs. unfold parse_success. now rewrite Hrow, Hs. }
  split; [reflexivity|]. split; [exact Hparse|]. split; [|split].
  - intros action row ts actions actions' s Hrow Hs Ha.
    destruct (add_action_spec _ _ _ _ _ Ha) as (_ & (v & Hv & ->) & _).
    rewrite (Hparse _ _ Hrow Hs) in Hv. now injection Hv as <-.
  - apply feed_numeric_samples.
  - intros self Hall.
    destruct (get_data_ok self) as [trends Hg].
    { intros key g Hin. destruct (render_group_ok g (Hall _ _ Hin)) as (t & _ & Ht & _).
      eauto. }
    exists trends. split; [assumption|]. intros t Hin.
    destruct (get_data_In _ _ _ Hg Hin) as (key & g & Hkg & Hr).
    destruct (render_group_ok g (Hall _ _ Hkg)) as (t' & tot & Ht' & Htot & Hstat).
    assert (t' = t) as -> by congruence. eauto.
Qed.

End Finalize.

Lemma finalize_series_ordered_witness :
  @add_results reference_extern [] mixed_runs = (mixed_state, Ok tt)
  /\ @get_data reference_extern mixed_state = Ok mixed_trends
  /\ exists t,
       mixed_trends = [t]
       /\ exists key g,
            In (key, g) mixed_state
            /\ t_name t = g_name g
            /\ forall a k v,
                 In (a, k, v) (trend_series t) ->
                 exists l, In (a, k, l) (stored_series g) /\ time_ordered l v.
Proof.
  split; [vm_compute; reflexivity|]. split; [vm_compute; reflexivity|].
  eexists. split; [reflexivity|].
  apply (@finalize_series_ordered reference_extern mixed_state mixed_trends).
  - vm_compute. reflexivity.
  - left. reflexivity.
Defined.

(** C3 as stated fails: two runs of one configuration start at the same
    millisecond, the first with the durations [5.0], the second with
    [3.0]; the stored series keeps the order of insertion, the rendered
    one puts [3.0] first, which is not the order a stable sort by
    timestamp gives. *)
Lemma ties_ordered_by_value :
  let stored := [(1500, seconds 5 0); (1500, seconds 3 0)] in
  let rendered := [(1500, seconds 3 0); (1500, seconds 5 0)] in
  @add_results reference_extern [] tie_runs = (tie_state, Ok tt)
  /\ series_of "a:1|b:2,3" "total" "min" tie_state = stored
  /\ (exists t,
        @get_data reference_extern tie_state = Ok [t]
        /\ In ("total", "min", rendered) (trend_series t))
  /\ stable_by_timestamp stored = stored
  /\ rendered <> stable_by_timestamp stored.
Proof.
  cbv zeta. split; [vm_compute; reflexivity|]. split; [vm_compute; reflexivity|].
  split; [|split].
  - eexists
      (match @get_data reference_extern tie_state with
       | Ok (t :: _) => t
       | _ => {| t_stat := []; t_name := ""; t_cls := ""; t_met := "";
                 t_sla_failures := 0; t_config := ""; t_actions := [];
                 t_total := None |}
       end).
    split; [vm_compute; reflexivity|]. vm_compute. left. reflexivity.
  - vm_compute. reflexivity.
  - vm_compute. discriminate.
Qed.

Lemma tie_safe_distinct (a b : entry) : fst a <> fst b -> tie_safe [a; b].
Proof.
  intros Hne x y Hx Hy Hts.
  destruct Hx as [<-|[<-|[]]], Hy as [<-|[<-|[]]]; try congruence.
  - now destruct (snd a).
  - now destruct (snd b).
Qed.

Lemma non_numeric_samples_tolerated_witness :
  parse_success [("Success", SStr "n/a")] = Ok (SInt 0)
  /\ @add_results reference_extern [] mixed_runs = (mixed_state, Ok tt)
  /\ exists trends,
       @get_data reference_extern mixed_state = Ok trends
       /\ forall t, In t trends ->
            exists tot,
              t_total t = Some tot
              /\ t_stat t
                 = [("min", feed (@MinComputation reference_extern) (to_durations tot));
                    ("max", feed (@MaxComputation reference_extern) (to_durations tot));
                    ("avg", feed (@MeanComputation reference_extern) (to_durations tot))].
Proof.
  destruct (@non_numeric_samples_tolerated reference_extern) as (_ & Hb & _ & _ & He).
  split; [apply (Hb _ "n/a"); vm_compute; reflexivity|].
  split; [vm_compute; reflexivity|].
  apply He. intros key g [[= <- <-]|[]].
  split; [vm_compute; reflexivity|]. split; [vm_compute; reflexivity|].
  intros a k l Hin. cbv [stored_series flat_map g_actions tag_all action_series_list
                         a_durations a_success map app fst snd] in Hin.
  repeat (destruct Hin as [[= <- <- <-]|Hin];
          [apply tie_safe_distinct; discriminate|]).
  destruct Hin.
Defined.

(** C7 fails on the code: two runs of one configuration start at the
    same millisecond, the first with the duration cells ["n/a"], the
    second with [1.5]; both folds complete, and [get_data] raises
    [TypeError] when [sorted] compares the two samples, before the filter
    that keeps non-numeric values from the reducers is reached.  With
    numbers in both runs it returns. *)
Lemma mixed_tie_raises :
  @add_results reference_extern [] mixed_tie_runs = (mixed_tie_state, Ok tt)
  /\ series_of "a:1|b:2,3" "total" "min" mixed_tie_state
     = [(1500, SStr "n/a"); (1500, seconds 15 (-1))]
  /\ @get_data reference_extern mixed_tie_state = Raise TypeError
  /\ @add_results reference_extern [] tie_runs = (tie_state, Ok tt)
  /\ @get_data reference_extern tie_state <> Raise TypeError.
Proof.
  repeat split; try (vm_compute; reflexivity).
  vm_compute. discriminate.
Qed.

(** * Further properties *)

(** ** The list that [get_data] returns *)

Section StableByKey.
Context {A : Type} (key : A -> string).

Lemma filter_insert_key (n : string) (x : A) (l : list A) :
  filter (fun y => String.eqb (key y) n)
         (insert (fun a b => String.ltb (key a) (key b)) x l)
  = filter (fun y => String.eqb (key y) n) (x :: l).
Proof.
  induction l as [|y l IH]; [reflexivity|].
  cbn [insert]. destruct (String.ltb (key y) (key x)) eqn:Hlt; [|reflexivity].
  cbn [filter] in *. rewrite IH.
  destruct (String.eqb_spec (key x) n) as [Hx|Hx];
    destruct (String.eqb_spec (key y) n) as [Hy|Hy]; try reflexivity.
  rewrite Hx, Hy, str_ltb_irrefl in Hlt. discriminate.
Qed.

Lemma filter_isort_key (n : string) (l : list A) :
  filter (fun y => String.eqb (key y) n)
         (isort (fun a b => String.ltb (key a) (key b)) l)
  = filter (fun y => String.eqb (key y) n) l.
Proof.
  induction l as [|x l IH]; [reflexivity|].
  cbn [isort]. rewrite filter_insert_key. cbn [filter]. now rewrite IH.
Qed.

End StableByKey.

Lemma str_leb_trans (a b c : string) :
  String.ltb b a = false -> String.ltb c b = false -> String.ltb c a = false.
Proof.
  intros Hab Hbc. destruct (String.ltb c a) eqn:Hca; [|reflexivity].
  rewrite (ltb_le_lt String.ltb str_ltb_trans str_ltb_total b a c Hbc Hca) in Hab.
  discriminate.
Qed.

Lemma mapM_length {A B : Type} (f : A -> result B) (l : list A) (r : list B) :
  mapM f l = Ok r -> List.length r = List.length l.
Proof.
  revert r. induction l as [|x l IH]; simpl; intros r.
  - now intros [= <-].
  - destruct (f x); simpl; [|discriminate].
    destruct (mapM f l) as [r'|]; simpl; [|discriminate].
    intros [= <-]. simpl. now rewrite (IH r').
Qed.

Section Output.
Context `{Extern}.

(** X1: when [get_data] returns, it returns one rendered group per group
    of the state, in ascending order of name, and groups of the same name
    stay in the order in which they were created. *)
Theorem get_data_sorted_by_name (self : trends_data) (trends : list trend) :
  get_data self = Ok trends ->
  exists rendered,
    mapM render_group (map snd self) = Ok rendered
    /\ List.length trends = List.length self
    /\ Permutation rendered trends
    /\ StronglySorted (fun a b => String.ltb (t_name b) (t_name a) = false) trends
    /\ forall n,
         filter (fun t => String.eqb (t_name t) n) trends
         = filter (fun t => String.eqb (t_name t) n) rendered.
Proof.
  unfold get_data.
  destruct (mapM render_group (map snd self)) as [rendered|e] eqn:Hm; simpl;
    [|discriminate].
  intros Hs. exists rendered. split; [reflexivity|].
  pose proof (sorted_Permutation _ _ _ Hs) as Hp.
  split; [|split; [assumption|split]].
  - rewrite <- (Permutation_length Hp), (mapM_length _ _ _ Hm). apply length_map.
  - apply (sorted_StronglySorted _ (fun a b => String.ltb (t_name b) (t_name a) = false))
      in Hs; [assumption| | |].
    + intros a b c. apply str_leb_trans.
    + intros a b [= Hlt]. now apply str_ltb_asym.
    + intros a b [= Hlt]. exact Hlt.
  - intros n. unfold Py.str_lt in Hs.
    rewrite (sorted_total_isort (fun a b => String.ltb (t_name a) (t_name b))) in Hs.
    injection Hs as <-. apply filter_isort_key.
Qed.

Lemma render_actions_names (items : list (string * action_series)) (t t' : trend) :
  render_actions items t = Ok t' ->
  exists outs,
    mapM render_action_out (filter (fun i => not_total (fst i)) items) = Ok outs
    /\ t_actions t' = (t_actions t ++ outs)%list.
Proof.
  revert t. induction items as [|[action data] items IH]; intros t;
    cbn [render_actions filter fst].
  - intros [= <-]. exists []. split; [reflexivity|now rewrite app_nil_r].
  - destruct (sort_durations (a_durations data)) as [ds|e] eqn:Hds; cbn [bind];
      [|discriminate].
    destruct (Py.sorted entry_lt (a_success data)) as [sc|e] eqn:Hsc; cbn [bind];
      [|discriminate].
    unfold not_total at 1. destruct (String.eqb action "total"); cbn [negb].
    + intros Hr. destruct (IH _ Hr) as (outs & Ho & Ha). eauto.
    + intros Hr. destruct (IH _ Hr) as (outs & Ho & Ha).
      cbn [t_actions] in Ha. rewrite <- app_assoc in Ha.
      eexists. split; [|exact Ha]. cbn [mapM].
      unfold render_action_out at 1. cbn [fst snd]. rewrite Hds, Hsc. cbn [bind].
      now rewrite Ho.
Qed.

Lemma render_actions_the_total (items : list (string * action_series)) (t t' : trend)
  (data : action_series) :
  NoDup (map fst items) ->
  Dict.get "total" items = Some data ->
  render_actions items t = Ok t' ->
  exists ds s,
    sort_durations (a_durations data) = Ok ds
    /\ Py.sorted entry_lt (a_success data) = Ok s
    /\ t_total t' = Some {| to_length := List.length (a_success data);
                            to_durations := ds;
                            to_success := [("success", s)] |}.
Proof.
  revert t. induction items as [|[action d] items IH]; intros t;
    cbn [render_actions Dict.get map fst]; [discriminate|].
  intros Hnd. apply NoDup_cons_iff in Hnd. destruct Hnd as [Hnotin Hnd].
  rewrite (String.eqb_sym "total" action).
  destruct (sort_durations (a_durations d)) as [ds|e] eqn:Hds; cbn [bind];
    [|intros _; discriminate].
  destruct (Py.sorted entry_lt (a_success d)) as [sc|e] eqn:Hsc; cbn [bind];
    [|intros _; discriminate].
  destruct (String.eqb action "total") eqn:Ha.
  - intros [= <-] Hr. apply String.eqb_eq in Ha. subst action.
    exists ds, sc. split; [assumption|]. split; [assumption|].
    assert (Hm : Dict.mem "total" items = false).
    { destruct (Dict.mem "total" items) eqn:Hm; [|reflexivity].
      apply dict_mem_In in Hm. contradiction. }
    now rewrite (render_actions_no_total _ _ _ Hm Hr).
  - intros Hg Hr. now apply (IH _ Hnd Hg Hr).
Qed.

(** X2: in a rendered group the action ["total"] is not listed among
    [actions]: it supplies the group-level [length], [durations] and
    [success]; every other action is listed, in the order of the actions of
    the group, with its sorted durations and its sorted success series
    under the label ["success"]. *)
Theorem total_rendered_apart (g : group) (t : trend) :
  NoDup (map fst (g_actions g)) ->
  render_group g = Ok t ->
  mapM render_action_out (filter (fun i => not_total (fst i)) (g_actions g))
  = Ok (t_actions t)
  /\ map ao_name (t_actions t) = filter not_total (map fst (g_actions g))
  /\ exists data ds s,
       Dict.get "total" (g_actions g) = Some data
       /\ sort_durations (a_durations data) = Ok ds
       /\ Py.sorted entry_lt (a_success data) = Ok s
       /\ t_total t = Some {| to_length := List.length (a_success data);
                              to_durations := ds;
                              to_success := [("success", s)] |}.
Proof.
  intros Hnd. unfold render_group.
  destruct (Py.split "." (g_name g)) as [|cls [|met rest]]; try discriminate.
  destruct (render_actions _ _) as [t0|e] eqn:Hr; cbn [bind]; [|discriminate].
  destruct (t_total t0) as [tot|] eqn:Htot; [|discriminate].
  intros [= <-]. cbn [t_actions t_total].
  destruct (render_actions_names _ _ _ Hr) as (outs & Ho & Ha).
  cbn [t_actions app] in Ha. subst outs.
  split; [assumption|]. split.
  - clear - Ho. revert Ho. generalize (t_actions t0).
    induction (g_actions g) as [|[a d] items IH]; intros outs; cbn [filter map fst].
    + now intros [= <-].
    + destruct (not_total a); [|apply IH]. cbn [mapM].
      unfold render_action_out at 1. cbn [fst snd].
      destruct (sort_durations (a_durations d)); cbn [bind]; [|discriminate].
      destruct (Py.sorted entry_lt (a_success d)); cbn [bind]; [|discriminate].
      destruct (mapM render_action_out _) as [os|] eqn:Hos; cbn [bind];
        [|discriminate].
      intros [= <-]. cbn [map ao_name]. now rewrite (IH os).
  - destruct (Dict.get "total" (g_actions g)) as [data|] eqn:Hg.
    + destruct (render_actions_the_total _ _ _ _ Hnd Hg Hr) as (ds & s & Hds & Hs & Ht).
      exists data, ds, s. rewrite <- Htot. auto.
    + assert (Hm : Dict.mem "total" (g_actions g) = false).
      { unfold Dict.mem. now rewrite Hg. }
      rewrite (render_actions_no_total _ _ _ Hm Hr) in Htot. discriminate.
Qed.

End Output.

Lemma get_data_sorted_by_name_witness :
  @add_results reference_extern [] two_group_runs = (two_group_state, Ok tt)
  /\ map t_name two_group_trends = ["Cinder.create"; "Nova.boot"]
  /\ exists rendered,
       mapM (@render_group reference_extern) (map snd two_group_state) = Ok rendered
       /\ List.length two_group_trends = List.length two_group_state
       /\ Permutation rendered two_group_trends
       /\ StronglySorted (fun a b => String.ltb (t_name b) (t_name a) = false)
            two_group_trends
       /\ forall n,
            filter (fun t => String.eqb (t_name t) n) two_group_trends
            = filter (fun t => String.eqb (t_name t) n) rendered.
Proof.
  split; [vm_compute; reflexivity|]. split; [vm_compute; reflexivity|].
  apply (@get_data_sorted_by_name reference_extern two_group_state two_group_trends).
  vm_compute. reflexivity.
Defined.

Lemma total_rendered_apart_witness :
  map ao_name (t_actions nova_trend) = ["boot"; "delete"]
  /\ mapM render_action_out
       (filter (fun i => not_total (fst i)) (g_actions nova_group))
     = Ok (t_actions nova_trend)
  /\ map ao_name (t_actions nova_trend)
     = filter not_total (map fst (g_actions nova_group))
  /\ exists data ds s,
       Dict.get "total" (g_actions nova_group) = Some data
       /\ sort_durations (a_durations data) = Ok ds
       /\ Py.sorted entry_lt (a_success data) = Ok s
       /\ t_total nova_trend
          = Some {| to_length := List.length (a_success data);
                    to_durations := ds;
                    to_success := [("success", s)] |}.
Proof.
  split; [vm_compute; reflexivity|].
  apply (@total_rendered_apart reference_extern nova_group nova_trend).
  - repeat constructor; simpl; intuition discriminate.
  - vm_compute. reflexivity.
Defined.

(** ** Names *)

Lemma join_split (sep : ascii) (s : string) :
  Py.join (String sep "") (Py.split sep s) = s.
Proof.
  induction s as [|c s IH]; [reflexivity|].
  cbn [Py.split]. pose proof (split_nonempty sep s) as Hne.
  destruct (Ascii.eqb_spec c sep) as [->|Hc].
  - rewrite join_cons. destruct (Py.split sep s) as [|w ws]; [congruence|].
    rewrite IH. reflexivity.
  - destruct (Py.split sep s) as [|w ws]; [congruence|].
    rewrite join_cons in *. cbn [append] in *. now rewrite IH.
Qed.

Lemma split_segments (s : string) :
  Forall (fun w => contains_dot w = false) (Py.split "." s).
Proof.
  unfold contains_dot. induction s as [|c s IH]; [repeat constructor|].
  cbn [Py.split]. pose proof (split_nonempty "." s) as Hne.
  destruct (Ascii.eqb_spec c ".") as [->|Hc].
  - constructor; [reflexivity|assumption].
  - destruct (Py.split "." s) as [|w ws]; [congruence|].
    inversion IH as [|? ? Hw Hws]; subst. constructor; [|assumption].
    cbn [list_ascii_of_string existsb]. rewrite Hw.
    destruct (Ascii.eqb_spec "." c); [congruence|reflexivity].
Qed.

Section Names.
Context `{Extern}.

(** X3: a rendered group carries the name, the SLA counter and the config
    of its group; [cls] and [met] are the first two dot-separated segments
    of the name (neither holds a dot), so that the name is [cls.met]
    followed by the remaining segments, if any. *)
Theorem rendered_group_fields (g : group) (t : trend) :
  render_group g = Ok t ->
  t_name t = g_name g
  /\ t_sla_failures t = g_sla_failures g
  /\ t_config t = g_config g
  /\ contains_dot (t_cls t) = false
  /\ contains_dot (t_met t) = false
  /\ exists rest,
       Py.split "." (g_name g) = t_cls t :: t_met t :: rest
       /\ g_name g = Py.join "." (t_cls t :: t_met t :: rest).
Proof.
  unfold render_group. pose proof (split_segments (g_name g)) as Hseg.
  pose proof (join_split "." (g_name g)) as Hjoin.
  destruct (Py.split "." (g_name g)) as [|cls [|met rest]]; try discriminate.
  destruct (render_actions _ _) as [t0|e] eqn:Hr; cbn [bind]; [|discriminate].
  destruct (t_total t0) as [tot|]; [|discriminate].
  intros [= <-]. cbn [t_name t_sla_failures t_config t_cls t_met].
  destruct (render_actions_fields _ _ _ Hr) as (-> & -> & -> & -> & -> & _).
  cbn [t_name t_sla_failures t_config t_cls t_met].
  inversion Hseg as [|? ? Hc Hseg']; subst. inversion Hseg' as [|? ? Hm _]; subst.
  repeat split; try assumption. exists rest. split; [reflexivity|now symmetry].
Qed.

End Names.

Lemma rendered_group_fields_witness :
  t_cls nova_trend = "Nova" /\ t_met nova_trend = "boot"
  /\ t_name nova_trend = g_name nova_group
  /\ t_sla_failures nova_trend = g_sla_failures nova_group
  /\ t_config nova_trend = g_config nova_group
  /\ contains_dot (t_cls nova_trend) = false
  /\ contains_dot (t_met nova_trend) = false
  /\ exists rest,
       Py.split "." (g_name nova_group) = t_cls nova_trend :: t_met nova_trend :: rest
       /\ g_name nova_group = Py.join "." (t_cls nova_trend :: t_met nova_trend :: rest).
Proof.
  split; [reflexivity|]. split; [reflexivity|].
  apply (@rendered_group_fields reference_extern nova_group nova_trend).
  vm_compute. reflexivity.
Defined.

(** ** Groups *)

Lemma dict_mem_existsb {V : Type} (k : string) (d : Dict.t V) :
  Dict.mem k d = existsb (String.eqb k) (map fst d).
Proof.
  unfold Dict.mem. induction d as [|[k' v] d IH]; simpl; [reflexivity|].
  destruct (String.eqb k k'); [reflexivity|exact IH].
Qed.

Lemma see_NoDup (seen : list string) (k : string) :
  NoDup seen -> NoDup (see seen k).
Proof.
  intros Hnd. unfold see. destruct (existsb (String.eqb k) seen) eqn:He; [assumption|].
  apply NoDup_app; [assumption|repeat constructor; auto|].
  intros x Hx [Heq|[]]. subst x.
  assert (existsb (String.eqb k) seen = true); [|congruence].
  apply existsb_exists. exists k. split; [assumption|apply String.eqb_refl].
Qed.

Lemma fold_see_NoDup (keys seen : list string) :
  NoDup seen -> NoDup (fold_left see keys seen).
Proof.
  revert seen. induction keys as [|k keys IH]; intros seen Hnd; simpl; [assumption|].
  apply IH. now apply see_NoDup.
Qed.

Section Groups.
Context `{Extern}.

(** X4: no call of [add_result], completed or not, deletes a group or
    changes the name or the config of a group; the call either keeps the
    keys of the state as they are, or appends the key of its run result
    for a new group named and configured after that run result. *)
Theorem groups_created_once (self : trends_data) (r : run_result) :
  (forall k g,
      Dict.get k self = Some g ->
      exists g', Dict.get k (fst (add_result self r)) = Some g'
                 /\ g_name g' = g_name g /\ g_config g' = g_config g)
  /\ (map fst (fst (add_result self r)) = map fst self
      \/ exists key config,
           _make_hash (key_kw r) = Ok key
           /\ Dict.mem key self = false
           /\ json_dumps (key_kw r) = Ok config
           /\ map fst (fst (add_result self r)) = (map fst self ++ [key])%list
           /\ exists g', Dict.get key (fst (add_result self r)) = Some g'
                         /\ g_name g' = key_name r /\ g_config g' = config).
Proof.
  destruct (add_result_state self r) as [[e ->]|(key & g & acts & out & Hk & Hg & ->)];
    cbn [fst].
  - split; [eauto|now left].
  - split.
    + intros k g0 Hk0. destruct (String.eqb_spec k key) as [->|Hne].
      * rewrite dict_get_set_same. eexists. split; [reflexivity|].
        unfold group_of in Hg. rewrite Hk0 in Hg. injection Hg as <-. auto.
      * rewrite dict_get_set_other; eauto.
    + rewrite dict_set_keys. destruct (Dict.mem key self) eqn:Hm; [now left|].
      right. unfold group_of in Hg. unfold Dict.mem in Hm.
      destruct (Dict.get key self) eqn:Hget; [discriminate|].
      destruct (json_dumps (key_kw r)) as [config|]; simpl in Hg; [|discriminate].
      injection Hg as <-. exists key, config.
      split; [assumption|]. split; [unfold Dict.mem; now rewrite Hget|].
      split; [reflexivity|]. split; [reflexivity|].
      rewrite dict_get_set_same. eexists. split; [reflexivity|]. auto.
Qed.

Lemma add_result_keys (self self' : trends_data) (r : run_result) :
  add_result self r = (self', Ok tt) ->
  exists key, _make_hash (key_kw r) = Ok key
              /\ map fst self' = see (map fst self) key.
Proof.
  intros Hr.
  destruct (add_result_state self r) as [[e He]|(key & g & acts & out & Hk & Hg & He)];
    rewrite He in Hr; [discriminate|].
  injection Hr as <- _. exists key. split; [assumption|].
  rewrite dict_set_keys. unfold see. now rewrite dict_mem_existsb.
Qed.

Lemma add_results_keys (rs : list run_result) (self self' : trends_data) :
  add_results self rs = (self', Ok tt) ->
  exists keys,
    mapM (fun r => _make_hash (key_kw r)) rs = Ok keys
    /\ map fst self' = fold_left see keys (map fst self).
Proof.
  revert self. induction rs as [|r rs IH]; intros self; cbn [add_results mapM].
  - intros [= <-]. exists []. auto.
  - destruct (add_result self r) as [s1 [[]|e]] eqn:Hr; [|discriminate].
    intros Hrs. destruct (add_result_keys _ _ _ Hr) as (key & Hk & Hs1).
    destruct (IH _ Hrs) as (keys & Hm & Hkeys).
    exists (key :: keys). rewrite Hk, Hm. cbn [bind fold_left].
    split; [reflexivity|]. now rewrite Hkeys, Hs1.
Qed.

(** X5: after a pass that completes, the groups of the state are the
    distinct keys of the run results folded, each at the place of its
    first occurrence, and no key appears twice. *)
Theorem groups_are_distinct_keys (rs : list run_result) (self' : trends_data) :
  add_results [] rs = (self', Ok tt) ->
  exists keys,
    mapM (fun r => _make_hash (key_kw r)) rs = Ok keys
    /\ map fst self' = first_seen keys
    /\ NoDup (map fst self').
Proof.
  intros Hrs. destruct (add_results_keys _ _ _ Hrs) as (keys & Hm & Hk).
  exists keys. split; [assumption|]. split; [exact Hk|].
  rewrite Hk. apply fold_see_NoDup. constructor.
Qed.

(** X7: a fold is not atomic: once the key of the run result is computed
    and its group found or created, the group is in the state after the
    call with its SLA failures counted, also when the call raises later
    on. *)
Theorem fold_not_atomic (self : trends_data) (r : run_result) (key : string)
  (g : group) :
  _make_hash (key_kw r) = Ok key ->
  group_of key r self = Ok g ->
  Dict.mem key (fst (add_result self r)) = true
  /\ sla_failures_of key (fst (add_result self r))
     = sla_failures_of key self + failed_slas r.
Proof.
  intros Hk Hg. unfold add_result. rewrite Hk, Hg.
  cbn [g_actions g_sla_failures g_name g_config].
  rewrite count_sla_failures_filter, (group_of_sla _ _ _ _ Hg).
  fold (failed_slas r).
  destruct (timestamp r) as [ts|e];
    [destruct (add_actions _ ts (g_actions g)) as [acts out]|];
    cbn [fst]; unfold Dict.mem, sla_failures_of;
    rewrite dict_get_set_same; auto.
Qed.

End Groups.

Lemma groups_are_distinct_keys_witness :
  let rs := (two_group_runs ++ [run_at (Py.Ffin false 35 (-1)) (seconds 4 0) "100%"])%list in
  exists keys,
    mapM (fun r => @_make_hash reference_extern (key_kw r)) rs = Ok keys
    /\ map fst (fst (@add_results reference_extern [] rs)) = first_seen keys
    /\ NoDup (map fst (fst (@add_results reference_extern [] rs))).
Proof.
  intros rs. apply (@groups_are_distinct_keys reference_extern rs).
  vm_compute. reflexivity.
Defined.

Lemma fold_not_atomic_witness :
  snd (@add_result reference_extern [] short_cols_run) = Raise (KeyError "Median (sec)")
  /\ Dict.mem "a:1|b:2,3" (fst (@add_result reference_extern [] short_cols_run)) = true
  /\ sla_failures_of "a:1|b:2,3" (fst (@add_result reference_extern [] short_cols_run))
     = sla_failures_of "a:1|b:2,3" [] + failed_slas short_cols_run.
Proof.
  split; [vm_compute; reflexivity|].
  apply (@fold_not_atomic reference_extern [] short_cols_run "a:1|b:2,3"
           {| g_actions := []; g_sla_failures := 0; g_name := "Nova.boot";
              g_config := "a:1|b:2,3" |}); vm_compute; reflexivity.
Defined.

(** ** What a fold reads and stores *)

Lemma append_durations_values (pairs : list (string * string)) (row : Dict.t scalar)
  (ts : Z) (d d' : Dict.t (list entry)) :
  NoDup (map fst pairs) ->
  append_durations pairs row ts d = (d', Ok tt) ->
  forall tgt src,
    In (tgt, src) pairs ->
    exists v, Dict.get src row = Some v
              /\ dur d' tgt = (dur d tgt ++ [(ts, v)])%list.
Proof.
  revert d. induction pairs as [|[tgt0 src0] pairs IH]; intros d Hnd;
    cbn [append_durations].
  - intros _ tgt src [].
  - destruct (Dict.get tgt0 d) as [l|] eqn:Hl; [|discriminate].
    destruct (Dict.get src0 row) as [v0|] eqn:Hv; [|discriminate].
    intros Hr tgt src Hin.
    pose proof Hnd as Hnd0. cbn [map fst] in Hnd.
    apply NoDup_cons_iff in Hnd. destruct Hnd as [Hnotin Hnd].
    destruct Hin as [[= <- <-]|Hin].
    + exists v0. split; [assumption|].
      destruct (append_durations_spec _ _ _ _ _ Hnd Hr tgt0) as [_ Hout].
      unfold dur. rewrite (Hout Hnotin), dict_get_set_same, Hl. reflexivity.
    + destruct (IH _ Hnd Hr tgt src Hin) as (v & Hv' & Hd).
      exists v. split; [assumption|]. rewrite Hd, dur_set.
      destruct (String.eqb_spec tgt0 tgt) as [->|Hne]; [|reflexivity].
      elim Hnotin. apply in_map_iff. exists (tgt, src). auto.
Qed.

Lemma add_action_values (action : string) (row : Dict.t scalar) (ts : Z)
  (actions actions' : Dict.t action_series) :
  add_action action row ts actions = (actions', Ok tt) ->
  (exists sv, parse_success row = Ok sv
              /\ series_in actions' action "success"
                 = (series_in actions action "success" ++ [(ts, sv)])%list)
  /\ forall tgt src,
       In (tgt, src) duration_columns ->
       exists v, Dict.get src row = Some v
                 /\ series_in actions' action tgt
                    = (series_in actions action tgt ++ [(ts, v)])%list.
Proof.
  intros Ha. split; [apply (add_action_spec _ _ _ _ _ Ha)|].
  revert Ha. unfold add_action.
  destruct (parse_success row) as [sv|e]; [|discriminate].
  destruct (append_durations _ _ _ _) as [d out] eqn:Hd.
  intros [= <- ->] tgt src Hin.
  destruct (append_durations_values _ _ _ _ _ duration_columns_NoDup Hd tgt src Hin)
    as (v & Hv & Hdur).
  exists v. split; [assumption|].
  assert (Hn : String.eqb tgt "success" = false).
  { apply in_duration_names, in_map_iff. exists (tgt, src). auto. }
  rewrite series_in_set, String.eqb_refl, (series_in_new_action actions), Hn.
  cbn [a_durations]. exact Hdur.
Qed.

Lemma add_actions_values (stat : list (string * Dict.t scalar)) (ts : Z)
  (actions actions' : Dict.t action_series) :
  NoDup (map fst stat) ->
  add_actions stat ts actions = (actions', Ok tt) ->
  forall action row,
    In (action, row) stat ->
    (exists sv, parse_success row = Ok sv
                /\ series_in actions' action "success"
                   = (series_in actions action "success" ++ [(ts, sv)])%list)
    /\ forall tgt src,
         In (tgt, src) duration_columns ->
         exists v, Dict.get src row = Some v
                   /\ series_in actions' action tgt
                      = (series_in actions action tgt ++ [(ts, v)])%list.
Proof.
  revert actions. induction stat as [|[a0 row0] stat IH]; intros actions Hnd;
    cbn [add_actions].
  - intros _ action row [].
  - cbn [map fst] in Hnd. apply NoDup_cons_iff in Hnd. destruct Hnd as [Hnotin Hnd].
    destruct (add_action a0 row0 ts actions) as [acts1 [[]|e]] eqn:Ha; [|discriminate].
    intros Hr action row Hin.
    destruct (add_action_spec _ _ _ _ _ Ha) as (_ & _ & Hother).
    destruct Hin as [[= -> ->]|Hin].
    + destruct (add_actions_spec _ _ _ _ Hnd Hr action) as [_ Hout].
      assert (Hsame : forall name,
                 series_in actions' action name = series_in acts1 action name).
      { intros name. unfold series_in. now rewrite (Hout Hnotin). }
      destruct (add_action_values _ _ _ _ _ Ha) as [(sv & Hsv & Hs) Hd].
      split.
      * exists sv. split; [assumption|]. now rewrite Hsame.
      * intros tgt src Hts. destruct (Hd tgt src Hts) as (v & Hv & Hdur).
        exists v. split; [assumption|]. now rewrite Hsame.
    + assert (Hne : action <> a0).
      { intros ->. apply Hnotin, in_map_iff. exists (a0, row). auto. }
      assert (Hsame : forall name,
                 series_in acts1 action name = series_in actions action name).
      { intros name. unfold series_in. now rewrite (Hother _ Hne). }
      destruct (IH _ Hnd Hr action row Hin) as [(sv & Hsv & Hs) Hd].
      split.
      * exists sv. split; [assumption|]. now rewrite Hs, Hsame.
      * intros tgt src Hts. destruct (Hd tgt src Hts) as (v & Hv & Hdur).
        exists v. split; [assumption|]. now rewrite Hdur, Hsame.
Qed.

Lemma make_stat_rows (cols : list string) (rows : list (string * list scalar))
  (action : string) (row : Dict.t scalar) :
  In (action, row) (make_stat cols rows) ->
  exists cells,
    In (action, cells) rows
    /\ row = Dict.of_pairs (zip cols (SStr action :: cells)).
Proof.
  unfold make_stat.
  assert (Hgen : forall d : Dict.t (Dict.t scalar),
             In (action, row)
                (fold_left
                   (fun d r =>
                      Dict.set (fst r)
                        (Dict.of_pairs (zip cols (SStr (fst r) :: snd r))) d)
                   rows d) ->
             In (action, row) d
             \/ exists cells,
                  In (action, cells) rows
                  /\ row = Dict.of_pairs (zip cols (SStr action :: cells))).
  { induction rows as [|[a cells] rows IH]; intros d; cbn [fold_left fst snd].
    - auto.
    - intros Hin. destruct (IH _ Hin) as [Hd|(cells' & Hc & Hrow)].
      + apply dict_set_In in Hd. destruct Hd as [[-> ->]|Hd]; [|now left].
        right. exists cells. split; [now left|reflexivity].
      + right. exists cells'. split; [now right|assumption]. }
  intros Hin. destruct (Hgen [] Hin) as [[]|Hr]. exact Hr.
Qed.

Lemma zip_keys {B : Type} (cols : list string) (cells : list B) (k : string) :
  In k (map fst (zip cols cells)) -> In k cols.
Proof.
  revert cells. induction cols as [|c cols IH]; intros [|b cells]; simpl; try tauto.
  intros [->|Hin]; eauto.
Qed.

Lemma of_pairs_keys {V : Type} (pairs : list (string * V)) (k : string) (v : V) :
  Dict.get k (Dict.of_pairs pairs) = Some v -> In k (map fst pairs).
Proof.
  unfold Dict.of_pairs.
  assert (Hgen : forall d : Dict.t V,
             In k (map fst (fold_left (fun d kv => Dict.set (fst kv) (snd kv) d) pairs d)) ->
             In k (map fst d) \/ In k (map fst pairs)).
  { induction pairs as [|[k0 v0] pairs IH]; intros d; cbn [fold_left fst snd map].
    - auto.
    - intros Hin. destruct (IH _ Hin) as [Hd|Hp]; [|right; now right].
      rewrite dict_set_keys in Hd. destruct (Dict.mem k0 d); [now left|].
      apply in_app_or in Hd. destruct Hd as [Hd|[<-|[]]]; [now left|right; now left]. }
  intros Hg. destruct (Hgen []) as [[]|Hp]; [|exact Hp].
  apply dict_mem_In. unfold Dict.mem. now rewrite Hg.
Qed.

Section FoldValues.
Context `{Extern}.

(** X8: what a completed fold stores: for every action of the stat table,
    with [row] the row of that action, the success series of the action
    in the group of the run result gains [(ts, success)], where [success]
    is what the [Success] cell parses to, and the series of every
    statistic gains [(ts, v)], where [v] is the cell of [row] in the
    column of that statistic; [ts] is the start of the run in
    milliseconds, the same in all the samples of the fold. *)
Theorem fold_stores_row_cells (self self' : trends_data) (r : run_result) :
  add_result self r = (self', Ok tt) ->
  exists key ts,
    _make_hash (key_kw r) = Ok key
    /\ timestamp r = Ok ts
    /\ forall action row,
         stat_row r action = Some row ->
         (exists sv, parse_success row = Ok sv
                     /\ series_of key action "success" self'
                        = (series_of key action "success" self ++ [(ts, sv)])%list)
         /\ forall tgt src,
              In (tgt, src) duration_columns ->
              exists v, Dict.get src row = Some v
                        /\ series_of key action tgt self'
                           = (series_of key action tgt self ++ [(ts, v)])%list.
Proof.
  unfold add_result, stat_row.
  destruct (_make_hash (key_kw r)) as [key|e]; [|discriminate].
  destruct (group_of key r self) as [g|e] eqn:Hg; [|discriminate].
  destruct (timestamp r) as [ts|e]; [|discriminate].
  cbn [g_actions g_sla_failures g_name g_config].
  destruct (add_actions _ ts (g_actions g)) as [acts out] eqn:Ha.
  intros [= <- ->]. exists key, ts. split; [reflexivity|]. split; [reflexivity|].
  intros action row Hrow. apply dict_get_In in Hrow.
  destruct (make_stat_keys (stat_cols r) (stat_rows r)) as [Hnd _].
  destruct (add_actions_values _ _ _ _ Hnd Ha action row Hrow) as [(sv & Hsv & Hs) Hd].
  assert (Hnew : forall name,
             series_of key action name
               (Dict.set key {| g_actions := acts;
                                g_sla_failures := count_sla_failures (g_sla_failures g) (sla r);
                                g_name := g_name g; g_config := g_config g |} self)
             = series_in acts action name).
  { intros name. unfold series_of. now rewrite dict_get_set_same. }
  split.
  - exists sv. split; [assumption|].
    now rewrite Hnew, (group_of_series _ _ _ _ action "success" Hg).
  - intros tgt src Hts. destruct (Hd tgt src Hts) as (v & Hv & Hdur).
    exists v. split; [assumption|].
    now rewrite Hnew, (group_of_series _ _ _ _ action tgt Hg).
Qed.

(** X9: a stat table that lacks the [Success] column or the column of one
    of the six statistics cannot be folded: with at least one row,
    [add_result] raises. *)
Theorem missing_column_raises (self : trends_data) (r : run_result) (c : string) :
  stat_rows r <> [] ->
  In c required_columns ->
  ~ In c (stat_cols r) ->
  exists e, snd (add_result self r) = Raise e.
Proof.
  intros Hrows Hc Hmiss.
  destruct (add_result self r) as [self' [[]|e]] eqn:Hr; [|cbn; eauto].
  exfalso.
  destruct (fold_stores_row_cells _ _ _ Hr) as (key & ts & _ & _ & Hstore).
  destruct (stat_rows r) as [|[a cells] rows] eqn:Hrs; [congruence|].
  destruct (make_stat_keys (stat_cols r) (stat_rows r)) as [_ Hkeys].
  assert (Ha : In a (map fst (make_stat (stat_cols r) (stat_rows r)))).
  { apply Hkeys. rewrite Hrs. now left. }
  apply dict_mem_In in Ha. unfold Dict.mem in Ha.
  destruct (Dict.get a (make_stat (stat_cols r) (stat_rows r))) as [row|] eqn:Hrow;
    [|discriminate].
  destruct (Hstore a row Hrow) as [(sv & Hsv & _) Hd].
  destruct (make_stat_rows _ _ _ _ (dict_get_In _ _ _ Hrow)) as (cells' & _ & ->).
  assert (Hcol : forall k v,
             Dict.get k (Dict.of_pairs (zip (stat_cols r) (SStr a :: cells'))) = Some v ->
             In k (stat_cols r)).
  { intros k v Hk. eapply zip_keys, of_pairs_keys, Hk. }
  destruct Hc as [<-|Hc].
  - unfold parse_success in Hsv.
    destruct (Dict.get "Success" _) as [v|] eqn:Hv; [|discriminate]. eauto.
  - apply in_map_iff in Hc. destruct Hc as ([tgt src] & <- & Hin).
    destruct (Hd tgt src Hin) as (v & Hv & _). eauto.
Qed.

End FoldValues.

Lemma fold_stores_row_cells_witness :
  exists key ts,
    @_make_hash reference_extern (key_kw tie_run_2) = Ok key
    /\ @timestamp reference_extern tie_run_2 = Ok ts
    /\ forall action row,
         stat_row tie_run_2 action = Some row ->
         (exists sv, parse_success row = Ok sv
                     /\ series_of key action "success" tie_state
                        = (series_of key action "success" tie_state_1
                           ++ [(ts, sv)])%list)
         /\ forall tgt src,
              In (tgt, src) duration_columns ->
              exists v, Dict.get src row = Some v
                        /\ series_of key action tgt tie_state
                           = (series_of key action tgt tie_state_1
                              ++ [(ts, v)])%list.
Proof.
  apply (@fold_stores_row_cells reference_extern tie_state_1 tie_state tie_run_2).
  vm_compute. reflexivity.
Defined.

Lemma missing_column_raises_witness :
  exists e, snd (@add_result reference_extern [] short_cols_run) = Raise e.
Proof.
  apply (@missing_column_raises reference_extern [] short_cols_run "Max (sec)").
  - discriminate.
  - simpl. tauto.
  - simpl. intuition discriminate.
Defined.

(** ** Series without ties *)

Lemma insort_by_time (x : entry) (s : list entry) :
  ~ In (fst x) (map fst s) ->
  Py.insort entry_lt x s = Ok (insert (fun a b => fst a <? fst b) x s).
Proof.
  induction s as [|y s IH]; [reflexivity|].
  cbn [map In Py.insort insert]. intros Hnotin.
  assert (Hne : (fst y =? fst x) = false) by (apply Z.eqb_neq; tauto).
  unfold entry_lt at 1. rewrite Hne. cbn [bind].
  destruct (fst y <? fst x); [|reflexivity].
  rewrite IH; [reflexivity|tauto].
Qed.

Lemma sorted_by_time (l : list entry) :
  NoDup (map fst l) -> Py.sorted entry_lt l = Ok (stable_by_timestamp l).
Proof.
  unfold stable_by_timestamp. induction l as [|x l IH]; [reflexivity|].
  cbn [map Py.sorted isort]. intros Hnd.
  apply NoDup_cons_iff in Hnd. destruct Hnd as [Hnotin Hnd].
  rewrite (IH Hnd). cbn [bind]. apply insort_by_time.
  intros Hin. apply Hnotin.
  apply (Permutation_in (l := map fst (isort (fun a b => fst a <? fst b) l)));
    [|assumption].
  apply Permutation_map, Permutation_sym, isort_Permutation.
Qed.

Section NoTies.
Context `{Extern}.

(** X10: a series whose samples have pairwise distinct timestamps is
    rendered in the order of the timestamps alone, whatever the values,
    numeric or not; so a group whose stored series have no two samples
    with the same timestamp is rendered with every series sorted by
    timestamp. *)
Theorem distinct_timestamps_sorted_by_time :
  (forall l, NoDup (map fst l) -> Py.sorted entry_lt l = Ok (stable_by_timestamp l))
  /\ (forall g t,
        render_group g = Ok t ->
        (forall a k l, In (a, k, l) (stored_series g) -> NoDup (map fst l)) ->
        forall a k v,
          In (a, k, v) (trend_series t) ->
          exists l, In (a, k, l) (stored_series g) /\ v = stable_by_timestamp l).
Proof.
  split; [exact sorted_by_time|].
  intros g t Hr Hnd a k v Hin.
  destruct (render_group_series _ _ Hr) as [_ Hseries].
  destruct (Hseries _ _ _ Hin) as (l & Hl & Hs).
  exists l. split; [assumption|].
  rewrite (sorted_by_time l (Hnd _ _ _ Hl)) in Hs. now injection Hs.
Qed.

End NoTies.

Lemma distinct_timestamps_sorted_by_time_witness :
  Py.sorted entry_lt [(2500, SStr "n/a"); (1500, seconds 15 (-1))]
  = Ok (stable_by_timestamp [(2500, SStr "n/a"); (1500, seconds 15 (-1))])
  /\ forall a k v,
       In (a, k, v) (trend_series mixed_trend) ->
       exists l, In (a, k, l) (stored_series mixed_group) /\ v = stable_by_timestamp l.
Proof.
  destruct (@distinct_timestamps_sorted_by_time reference_extern) as (Hl & Hg).
  split.
  - apply Hl. repeat constructor; simpl; intuition discriminate.
  - apply (Hg mixed_group mixed_trend); [vm_compute; reflexivity|].
    intros a k l Hin.
    cbv [stored_series flat_map mixed_group g_actions tag_all action_series_list
         a_durations a_success map app fst snd] in Hin.
    repeat (destruct Hin as [[= <- <- <-]|Hin];
            [repeat constructor; simpl; intuition discriminate|]).
    destruct Hin.
Defined.

(** ** What canonicalization conflates *)

Lemma sorted_str_single (s : string) : Py.sorted Py.str_lt [s] = Ok [s].
Proof. reflexivity. Qed.

Section Conflation.
Context `{Extern}.

(** X11: canonicalization keeps neither the nesting of one-element
    sequences nor the type of a scalar: a sequence of one element has the
    canonical string, and so the group key, of that element; an integer
    and a boolean have those of the text that spells them; the empty
    sequence, the empty mapping and blank text all give the empty
    string. *)
Theorem canonicalization_conflates :
  (forall v, _to_str (PList [v]) = _to_str v
             /\ _make_hash (PList [v]) = _make_hash v)
  /\ (forall n, _make_hash (PScalar (SInt n))
                = _make_hash (PScalar (SStr (Py.str_int n))))
  /\ (forall b, _make_hash (PScalar (SBool b))
                = _make_hash (PScalar (SStr (Py.str_bool b))))
  /\ _to_str (PList []) = Ok ""
  /\ _to_str (PDict []) = Ok ""
  /\ (forall s, forall_chars Py.isspace s = true -> _to_str (PScalar (SStr s)) = Ok "").
Proof.
  assert (Hone : forall v, _to_str (PList [v]) = _to_str v).
  { intros v. rewrite to_str_list. cbn [mapM].
    destruct (_to_str v) as [s|e]; cbn [bind]; [|reflexivity].
    rewrite sorted_str_single. cbn [bind]. unfold Py.join. cbn [String.concat].
    reflexivity. }
  split; [|split; [|split; [|split; [|split]]]]; try reflexivity.
  - intros v. split; [apply Hone|]. unfold _make_hash. now rewrite Hone.
  - intros s Hs. rewrite to_str_scalar. cbn [str_scalar]. f_equal.
    unfold Py.strip.
    assert (Hl : Py.lstrip_by Py.isspace s = "").
    { induction s as [|c s IH]; [reflexivity|]. cbn [forall_chars] in Hs.
      apply andb_prop in Hs. destruct Hs as [Hc Hs]. cbn [Py.lstrip_by].
      rewrite Hc. auto. }
    now rewrite Hl.
Qed.

End Conflation.

(** ** Reading back a rendered integer *)

Lemma rstrip_by_none (p : ascii -> bool) (s : string) :
  forall_chars (fun c => negb (p c)) s = true -> Py.rstrip_by p s = s.
Proof.
  induction s as [|c s IH]; [reflexivity|].
  cbn [forall_chars Py.rstrip_by]. intros Hc.
  apply andb_prop in Hc. destruct Hc as [Hc Hs]. rewrite (IH Hs).
  destruct s; [|reflexivity]. apply negb_true_iff in Hc. now rewrite Hc.
Qed.

Lemma strip_none (s : string) : forall_chars not_space s = true -> Py.strip s = s.
Proof.
  intros Hs. unfold Py.strip.
  assert (Hl : Py.lstrip_by Py.isspace s = s).
  { destruct s as [|c s]; [reflexivity|]. cbn [forall_chars] in Hs.
    apply andb_prop in Hs. destruct Hs as [Hc _]. unfold not_space in Hc.
    apply negb_true_iff in Hc. cbn [Py.lstrip_by]. now rewrite Hc. }
  rewrite Hl. now apply rstrip_by_none.
Qed.

Lemma uint_not_space (d : Decimal.uint) :
  forall_chars not_space (NilEmpty.string_of_uint d) = true.
Proof. induction d; simpl; assumption || reflexivity. Qed.

Lemma digitpart_rest_uint (d : Decimal.uint) (acc : N) (cnt : nat) :
  Py.digitpart_rest acc cnt (list_ascii_of_string (NilEmpty.string_of_uint d))
  = (uint_acc d acc,
     (cnt + String.length (NilEmpty.string_of_uint d))%nat, []).
Proof.
  revert acc cnt. induction d; intros acc cnt;
    cbn [NilEmpty.string_of_uint list_ascii_of_string String.length uint_acc];
    [now rewrite Nat.add_0_r| ..];
    cbn [Py.digitpart_rest];
    match goal with
    | |- context [Py.is_digit ?c] =>
        replace (Py.is_digit c) with true by reflexivity;
        match goal with
        | |- context [Py.digit_val c] =>
            let v := eval vm_compute in (Py.digit_val c) in
            change (Py.digit_val c) with v
        end
    end;
    cbv iota; rewrite IHd; do 2 f_equal; lia.
Qed.

Lemma uint_acc_pos (d : Decimal.uint) (p : positive) :
  uint_acc d (Npos p) = Npos (Pos.of_uint_acc d p).
Proof.
  revert p. induction d; intros p; cbn [uint_acc Pos.of_uint_acc];
    [reflexivity| ..];
    match goal with
    | |- uint_acc _ ?a = Npos (Pos.of_uint_acc _ ?b) =>
        replace a with (Npos b) by lia
    end; apply IHd.
Qed.

Lemma uint_acc_zero (d : Decimal.uint) : uint_acc d 0 = Pos.of_uint d.
Proof.
  induction d; cbn [uint_acc Pos.of_uint]; [reflexivity|exact IHd| ..];
    apply uint_acc_pos.
Qed.

Lemma digitpart_uint (d : Decimal.uint) :
  d <> Decimal.Nil ->
  Py.parse_sign (list_ascii_of_string (NilEmpty.string_of_uint d))
  = (false, list_ascii_of_string (NilEmpty.string_of_uint d))
  /\ exists k,
       Py.digitpart 0 (list_ascii_of_string (NilEmpty.string_of_uint d))
       = Some (Pos.of_uint d, k, []).
Proof.
  intros Hd. split; [destruct d; try congruence; reflexivity|].
  exists (String.length (NilEmpty.string_of_uint d)).
  pose proof (digitpart_rest_uint d 0 0) as Hrest.
  rewrite uint_acc_zero in Hrest.
  destruct d; try congruence;
    cbn [NilEmpty.string_of_uint list_ascii_of_string] in *;
    cbn [Py.digitpart]; cbn [Py.digitpart_rest] in Hrest;
    match goal with
    | |- context [Py.is_digit ?c] =>
        replace (Py.is_digit c) with true in * by reflexivity
    end;
    cbv iota in *; rewrite Hrest; reflexivity.
Qed.

Lemma pos_to_uint_not_nil (p : positive) : Pos.to_uint p <> Decimal.Nil.
Proof.
  intros Hn. pose proof (DecimalPos.Unsigned.of_to p) as Hp.
  rewrite Hn in Hp. discriminate.
Qed.

(** [int(str(n))] is [n]. *)
Lemma int_of_str_int (n : Z) : int_of_str (Py.str_int n) = Some n.
Proof.
  unfold int_of_str, Py.str_int. destruct n as [|p|p]; [reflexivity| |].
  - cbn [Z.to_int NilZero.string_of_int]. unfold NilZero.string_of_uint.
    pose proof (pos_to_uint_not_nil p) as Hd.
    destruct (digitpart_uint _ Hd) as [Hsign [k Hdig]].
    assert (Hs : (match Pos.to_uint p with
                  | Decimal.Nil => "0"
                  | _ => NilEmpty.string_of_uint (Pos.to_uint p)
                  end) = NilEmpty.string_of_uint (Pos.to_uint p)).
    { destruct (Pos.to_uint p); congruence. }
    rewrite Hs, (strip_none _ (uint_not_space _)), Hsign, Hdig.
    now rewrite DecimalPos.Unsigned.of_to.
  - cbn [Z.to_int NilZero.string_of_int]. unfold NilZero.string_of_uint.
    pose proof (pos_to_uint_not_nil p) as Hd.
    destruct (digitpart_uint _ Hd) as [Hsign [k Hdig]].
    assert (Hs : (match Pos.to_uint p with
                  | Decimal.Nil => "0"
                  | _ => NilEmpty.string_of_uint (Pos.to_uint p)
                  end) = NilEmpty.string_of_uint (Pos.to_uint p)).
    { destruct (Pos.to_uint p); congruence. }
    rewrite Hs, strip_none.
    + cbn [list_ascii_of_string Py.parse_sign].
      replace (Ascii.eqb "-" "-") with true by reflexivity.
      rewrite Hdig. now rewrite DecimalPos.Unsigned.of_to.
    + cbn [forall_chars]. now rewrite uint_not_space.
Qed.

(** ** The report of one scenario *)

Lemma split_length (s : string) :
  List.length (Py.split "." s) = S (count_dots s).
Proof.
  unfold count_dots. induction s as [|c s IH]; [reflexivity|].
  cbn [Py.split list_ascii_of_string filter].
  rewrite (Ascii.eqb_sym "." c).
  destruct (Ascii.eqb c "."); cbn [List.length].
  - now rewrite IH.
  - destruct (Py.split "." s) as [|w ws]; [discriminate|exact IH].
Qed.

Section ScenarioFacts.
Context `{ReportExtern}.

(** What [_process_scenario] has computed when it returns. *)
Lemma process_scenario_ok (data : scenario_data) (pos : Z) (out : scenario_out) :
  _process_scenario data pos = Ok out ->
  exists st,
    process_iterations (sd_info data) 1 (sd_iterations data)
      {| rs_errors := []; rs_additive := []; rs_complete := [];
         rs_main := {| main_area := new_chart MainStackedAreaChart (sd_info data);
                       main_hist := new_chart MainHistogramChart (sd_info data);
                       main_stat := new_chart MainStatsTable (sd_info data);
                       load_profile := new_chart LoadProfileChart (sd_info data);
                       atomic_pie := new_chart AtomicAvgChart (sd_info data);
                       atomic_area := new_chart AtomicStackedAreaChart (sd_info data);
                       atomic_hist := new_chart AtomicHistogramChart (sd_info data) |} |}
    = Ok st
    /\ Py.split "." (sd_key_name data) = [so_cls out; so_met out]
    /\ so_errors out = rs_errors st
    /\ so_additive_output out = map render (rs_additive st)
    /\ so_complete_output out = rs_complete st
    /\ so_iterations_iter out = render (main_area (rs_main st))
    /\ so_iterations_histogram out = render (main_hist (rs_main st))
    /\ so_table out = render (main_stat (rs_main st))
    /\ so_load_profile out = render (load_profile (rs_main st))
    /\ so_atomic_pie out = render (atomic_pie (rs_main st))
    /\ so_atomic_iter out = render (atomic_area (rs_main st))
    /\ so_atomic_histogram out = render (atomic_hist (rs_main st))
    /\ so_pos out = Py.str_int pos
    /\ so_name out =
         so_met out ++ (if pos =? 0 then ""
                        else " [" ++ Py.str_int (pos + 1) ++ "]")
    /\ so_iterations_pie out =
         [("success", iterations_count (sd_info data)
                      - Z.of_nat (List.length (rs_errors st)));
          ("errors", Z.of_nat (List.length (rs_errors st)))]
    /\ so_output_errors out = [].
Proof.
  unfold _process_scenario. intros Hp.
  destruct (process_iterations _ _ _ _) as [st|e]; cbn [bind] in Hp; [|discriminate].
  exists st. split; [reflexivity|].
  destruct (Py.split "." (sd_key_name data)) as [|cls [|met [|? ?]]];
    try discriminate.
  destruct (py_getitem (sd_key_kw data) "runner") as [r|e]; cbn [bind] in Hp;
    [|discriminate].
  destruct (py_getitem r "type") as [rt|e]; cbn [bind] in Hp; [|discriminate].
  destruct (dumps_config _ _) as [cfg|e]; cbn [bind] in Hp; [|discriminate].
  injection Hp as <-. cbn. repeat (split; [reflexivity|]). reflexivity.
Qed.

(** X12: when [_process_scenario] returns, the scenario's name is
    [cls], a dot, [met], neither of which holds a dot; [pos] is the
    position as decimal text, which [int] reads back; the display name is
    the method, followed by the position plus one in brackets for every
    position but zero. *)
Theorem scenario_name_parts (data : scenario_data) (pos : Z) (out : scenario_out) :
  _process_scenario data pos = Ok out ->
  sd_key_name data = so_cls out ++ "." ++ so_met out
  /\ contains_dot (so_cls out) = false
  /\ contains_dot (so_met out) = false
  /\ so_pos out = Py.str_int pos
  /\ int_of_str (so_pos out) = Some pos
  /\ so_name out =
       (if pos =? 0 then so_met out
        else so_met out ++ " [" ++ Py.str_int (pos + 1) ++ "]").
Proof.
  intros Hp.
  destruct (process_scenario_ok _ _ _ Hp)
    as (st & _ & Hs & _ & _ & _ & _ & _ & _ & _ & _ & _ & _ & Hpos & Hname & _).
  pose proof (join_split "." (sd_key_name data)) as Hj.
  pose proof (split_segments (sd_key_name data)) as Hd.
  rewrite Hs in Hj, Hd.
  inversion Hd as [|? ? Hc Hd']; subst. inversion Hd' as [|? ? Hm _]; subst.
  split; [|split; [exact Hc|split; [exact Hm|split; [exact Hpos|]]]].
  { rewrite <- Hj. reflexivity. }
  split; [rewrite Hpos; apply int_of_str_int|].
  rewrite Hname. destruct (pos =? 0); [apply append_empty_r|reflexivity].
Qed.

(** X13: a name that does not hold exactly one dot makes
    [_process_scenario] raise, whatever else the scenario holds. *)
Theorem scenario_name_needs_one_dot (data : scenario_data) (pos : Z) :
  count_dots (sd_key_name data) <> 1%nat ->
  exists e, _process_scenario data pos = Raise e.
Proof.
  intros Hn. destruct (_process_scenario data pos) as [out|e] eqn:Hp; [|eauto].
  destruct (process_scenario_ok _ _ _ Hp) as (st & _ & Hs & _).
  pose proof (split_length (sd_key_name data)) as Hl. rewrite Hs in Hl.
  cbn in Hl. congruence.
Qed.

(** The loop over the iterations, one local at a time. *)
Lemma add_error_ok (idx : Z) (itr : iteration) (errors errors' : list error_entry) :
  add_error idx (it_error itr) errors = Ok errors' ->
  (it_error itr = [] \/ List.length (it_error itr) = 3%nat)
  /\ forall rest,
       (errors' ++ error_entries (idx + 1) rest)%list
       = (errors ++ error_entries idx (itr :: rest))%list.
Proof.
  unfold add_error. cbn [error_entries].
  destruct (it_error itr) as [|typ [|msg [|trace [|? ?]]]]; try discriminate;
    intros [= <-].
  - split; [now left|reflexivity].
  - split; [now right|]. intros rest. now rewrite <- app_assoc.
Qed.

Lemma process_iterations_errors (info : scenario_info) (itrs : list iteration) :
  forall idx st st',
    process_iterations info idx itrs st = Ok st' ->
    rs_errors st' = (rs_errors st ++ error_entries idx itrs)%list
    /\ Forall (fun itr => it_error itr = [] \/ List.length (it_error itr) = 3%nat)
         itrs.
Proof.
  induction itrs as [|itr itrs IH]; intros idx st st'; cbn [process_iterations].
  - intros [= <-]. cbn. now rewrite app_nil_r.
  - destruct (add_error idx (it_error itr) (rs_errors st)) as [errors|e] eqn:He;
      cbn [bind]; [|discriminate].
    destruct (add_additive _ _ _ _) as [charts|e]; cbn [bind]; [|discriminate].
    destruct (mapM complete_chart _) as [cs|e]; cbn [bind]; [|discriminate].
    intros Hp. apply IH in Hp. cbn [rs_errors] in Hp. destruct Hp as [Hp Hall].
    destruct (add_error_ok _ _ _ _ He) as [Hv Hr].
    split; [now rewrite Hp, Hr|now constructor].
Qed.

Lemma process_iterations_main (info : scenario_info) (itrs : list iteration) :
  forall idx st st',
    process_iterations info idx itrs st = Ok st' ->
    rs_main st' = fold_left add_to_main itrs (rs_main st).
Proof.
  induction itrs as [|itr itrs IH]; intros idx st st'; cbn [process_iterations].
  - now intros [= <-].
  - destruct (add_error _ _ _) as [errors|e]; cbn [bind]; [|discriminate].
    destruct (add_additive _ _ _ _) as [charts|e]; cbn [bind]; [|discriminate].
    destruct (mapM complete_chart _) as [cs|e]; cbn [bind]; [|discriminate].
    intros Hp. apply IH in Hp. exact Hp.
Qed.

Lemma fold_add_to_main (itrs : list iteration) :
  forall m,
    let m' := fold_left add_to_main itrs m in
    main_area m' = fold_left add_iteration itrs (main_area m)
    /\ main_hist m' = fold_left add_iteration itrs (main_hist m)
    /\ main_stat m' = fold_left add_iteration itrs (main_stat m)
    /\ load_profile m' = fold_left add_iteration itrs (load_profile m)
    /\ atomic_pie m' = fold_left add_iteration itrs (atomic_pie m)
    /\ atomic_area m' = fold_left add_iteration itrs (atomic_area m)
    /\ atomic_hist m' = fold_left add_iteration itrs (atomic_hist m).
Proof.
  induction itrs as [|itr itrs IH]; intros m; cbn [fold_left].
  - repeat split.
  - apply (IH (add_to_main m itr)).
Qed.

Lemma process_iterations_complete (info : scenario_info) (itrs : list iteration) :
  forall idx st st',
    process_iterations info idx itrs st = Ok st' ->
    exists cs,
      rs_complete st' = (rs_complete st ++ cs)%list
      /\ Forall2 (fun itr charts => Forall2 widget_of (it_complete itr) charts)
           itrs cs.
Proof.
  assert (Hc : forall l cs, mapM complete_chart l = Ok cs -> Forall2 widget_of l cs).
  { induction l as [|c l IHl]; intros cs; cbn [mapM].
    - intros [= <-]. constructor.
    - unfold complete_chart at 1.
      destruct (plugin_get (co_chart_plugin c)) as [cls|e] eqn:Hg; cbn [bind];
        [|discriminate].
      destruct (mapM complete_chart l) as [cs'|e]; cbn [bind]; [|discriminate].
      intros [= <-]. constructor; [|now apply IHl].
      exists cls. split; [assumption|]. split.
      + apply dict_get_set_same.
      + intros k Hk. now apply dict_get_set_other. }
  induction itrs as [|itr itrs IH]; intros idx st st'; cbn [process_iterations].
  - intros [= <-]. exists []. split; [now rewrite app_nil_r|constructor].
  - destruct (add_error _ _ _) as [errors|e]; cbn [bind]; [|discriminate].
    destruct (add_additive _ _ _ _) as [charts|e]; cbn [bind]; [|discriminate].
    destruct (mapM complete_chart _) as [cs|e] eqn:Hm; cbn [bind]; [|discriminate].
    intros Hp. apply IH in Hp. cbn [rs_complete] in Hp.
    destruct Hp as (cs' & Hp & Hall). exists (cs :: cs'). split.
    + rewrite Hp, <- app_assoc. reflexivity.
    + constructor; [now apply Hc|assumption].
Qed.

Lemma error_entries_indices (itrs : list iteration) :
  forall idx,
    StronglySorted Z.lt (map e_iteration (error_entries idx itrs))
    /\ Forall (fun i => idx <= i < idx + Z.of_nat (List.length itrs))
         (map e_iteration (error_entries idx itrs)).
Proof.
  induction itrs as [|itr itrs IH]; intros idx; cbn [error_entries].
  - split; constructor.
  - destruct (IH (idx + 1)) as [Hs Hb].
    assert (Hb' : Forall (fun i => idx <= i < idx + Z.of_nat (List.length (itr :: itrs)))
                    (map e_iteration (error_entries (idx + 1) itrs))).
    { eapply Forall_impl; [|exact Hb]. intros i Hi. cbn beta in *. cbn [List.length]. lia. }
    destruct (it_error itr) as [|typ [|msg [|trace [|? ?]]]]; try (split; assumption).
    cbn [map e_iteration]. split.
    + constructor; [assumption|].
      eapply Forall_impl; [|exact Hb]. intros i Hi. cbn beta in *. lia.
    + constructor; [cbn beta; cbn [List.length]; lia|assumption].
Qed.

Lemma error_entries_length (itrs : list iteration) :
  Forall (fun itr => it_error itr = [] \/ List.length (it_error itr) = 3%nat) itrs ->
  forall idx,
    List.length (error_entries idx itrs) = List.length (failed itrs).
Proof.
  unfold failed. induction 1 as [|itr itrs Hv _ IH]; intros idx;
    cbn [error_entries filter]; [reflexivity|].
  destruct (it_error itr) as [|typ [|msg [|trace [|? ?]]]];
    try (destruct Hv as [Hv|Hv]; discriminate); cbn [List.length]; now rewrite IH.
Qed.

(** X14: the errors of a report are read off the iterations' [error]
    fields alone: one entry per failed iteration, numbered from one in
    the order of the iterations; every iteration's [error] is empty or
    has three items; the pie counts the failures against the count that
    the scenario's [info] states, not against the iterations present. *)
Theorem scenario_errors (data : scenario_data) (pos : Z) (out : scenario_out) :
  _process_scenario data pos = Ok out ->
  so_errors out = error_entries 1 (sd_iterations data)
  /\ Forall (fun itr => it_error itr = [] \/ List.length (it_error itr) = 3%nat)
       (sd_iterations data)
  /\ StronglySorted Z.lt (map e_iteration (so_errors out))
  /\ Forall (fun i => 1 <= i <= Z.of_nat (List.length (sd_iterations data)))
       (map e_iteration (so_errors out))
  /\ so_iterations_pie out =
       [("success", iterations_count (sd_info data)
                    - Z.of_nat (List.length (failed (sd_iterations data))));
        ("errors", Z.of_nat (List.length (failed (sd_iterations data))))]
  /\ so_output_errors out = [].
Proof.
  intros Hp.
  destruct (process_scenario_ok _ _ _ Hp)
    as (st & Hst & _ & He & _ & _ & _ & _ & _ & _ & _ & _ & _ & _ & _ & Hpie & Hoe).
  destruct (process_iterations_errors _ _ _ _ _ Hst) as [Hes Hv].
  cbn [rs_errors app] in Hes. rewrite Hes in He, Hpie.
  destruct (error_entries_indices (sd_iterations data) 1) as [Hs Hb].
  rewrite He. split; [reflexivity|]. split; [assumption|].
  split; [assumption|]. split.
  - eapply Forall_impl; [|exact Hb]. intros i Hi. cbn beta in Hi. lia.
  - rewrite Hpie, (error_entries_length _ Hv). split; [reflexivity|assumption].
Qed.

(** X15: each of the seven main charts of a report was given every
    iteration, failed or not, in the order of the iterations. *)
Theorem main_charts_fed (data : scenario_data) (pos : Z) (out : scenario_out) :
  _process_scenario data pos = Ok out ->
  so_iterations_iter out = fed MainStackedAreaChart data
  /\ so_iterations_histogram out = fed MainHistogramChart data
  /\ so_table out = fed MainStatsTable data
  /\ so_load_profile out = fed LoadProfileChart data
  /\ so_atomic_pie out = fed AtomicAvgChart data
  /\ so_atomic_iter out = fed AtomicStackedAreaChart data
  /\ so_atomic_histogram out = fed AtomicHistogramChart data.
Proof.
  intros Hp.
  destruct (process_scenario_ok _ _ _ Hp)
    as (st & Hst & _ & _ & _ & _ & H1 & H2 & H3 & H4 & H5 & H6 & H7 & _).
  apply process_iterations_main in Hst. cbn [rs_main] in Hst.
  rewrite H1, H2, H3, H4, H5, H6, H7, Hst. unfold fed.
  match goal with
  | |- context [fold_left add_to_main ?l ?m] =>
      destruct (fold_add_to_main l m) as (-> & -> & -> & -> & -> & -> & ->)
  end.
  cbn. repeat split.
Qed.

(** X16: the complete output of a report holds one list per iteration,
    in order, with one chart per complete output of that iteration: the
    output's own items, and under ["widget"] the widget of its plugin. *)
Theorem complete_output_per_iteration (data : scenario_data) (pos : Z)
  (out : scenario_out) :
  _process_scenario data pos = Ok out ->
  Forall2 (fun itr charts => Forall2 widget_of (it_complete itr) charts)
    (sd_iterations data) (so_complete_output out).
Proof.
  intros Hp.
  destruct (process_scenario_ok _ _ _ Hp) as (st & Hst & _ & _ & _ & Hc & _).
  destruct (process_iterations_complete _ _ _ _ _ Hst) as (cs & Hcs & Hall).
  cbn [rs_complete app] in Hcs. now rewrite Hc, Hcs.
Qed.

(** *** Additive charts *)

Lemma replace_nth_length {A : Type} (i : nat) (x : A) (l : list A) :
  List.length (replace_nth i x l) = List.length l.
Proof.
  revert i. induction l as [|y l IH]; intros [|i]; cbn; auto.
Qed.

Lemma nth_error_replace_nth {A : Type} (i j : nat) (x y : A) (l : list A) :
  nth_error l i = Some y ->
  nth_error (replace_nth i x l) j
  = if Nat.eqb j i then Some x else nth_error l j.
Proof.
  revert i j. induction l as [|z l IH]; intros [|i] [|j]; cbn;
    try discriminate; auto.
Qed.

Lemma column_app (i : nat) (done : list iteration) (itr : iteration) :
  column i (done ++ [itr]) = (column i done ++ cell (it_additive itr) i)%list.
Proof.
  unfold column. rewrite flat_map_app. cbn [flat_map]. now rewrite app_nil_r.
Qed.

Lemma column_beyond (i : nat) (itrs : list iteration) :
  (widest itrs <= i)%nat -> column i itrs = [].
Proof.
  unfold widest, column. induction itrs as [|itr itrs IH]; [reflexivity|].
  cbn [map flat_map]. intros Hw.
  change (Nat.max (List.length (it_additive itr))
            (list_max (map (fun itr => List.length (it_additive itr)) itrs)) <= i)%nat
    in Hw.
  rewrite IH by lia.
  destruct (nth_error (it_additive itr) i) eqn:Hn; [|reflexivity].
  assert (Hn' : nth_error (it_additive itr) i <> None) by congruence.
  apply nth_error_Some in Hn'. lia.
Qed.

Lemma widest_app (done : list iteration) (itr : iteration) :
  widest (done ++ [itr]) = Nat.max (widest done) (List.length (it_additive itr)).
Proof.
  unfold widest. rewrite map_app, list_max_app. cbn [map].
  unfold list_max at 2. cbn [fold_right]. lia.
Qed.

Lemma column_chart_snoc (info : scenario_info) (cls : PluginCls) (a b : additive)
  (col : list additive) :
  column_chart info cls a (col ++ [b])
  = add_output (column_chart info cls a col) (ad_data b).
Proof.
  unfold column_chart. cbn [map]. rewrite map_app. cbn [map fold_left].
  now rewrite fold_left_app.
Qed.

Lemma add_additive_columns (info : scenario_info) (done : list iteration)
  (additives : list additive) :
  forall rest pre charts charts',
    additives = (pre ++ rest)%list ->
    add_additive info (List.length pre) rest charts = Ok charts' ->
    charts_at info done additives (List.length pre) charts ->
    charts_at info done additives (List.length additives) charts'.
Proof.
  induction rest as [|a rest IH]; intros pre charts charts' Hadd; cbn [add_additive].
  - intros [= <-]. subst additives. now rewrite app_nil_r.
  - intros Hrun [Hlen Hcols].
    assert (Hadd' : additives = ((pre ++ [a]) ++ rest)%list)
      by now rewrite <- app_assoc.
    assert (Hcell : cell additives (List.length pre) = [a]).
    { unfold cell. subst additives. rewrite nth_error_app2 by lia.
      now rewrite Nat.sub_diag. }
    assert (Hlen' : List.length (pre ++ [a]) = S (List.length pre)).
    { rewrite length_app. cbn. lia. }
    destruct (nth_error charts (List.length pre)) as [chart|] eqn:Hn.
    + rewrite <- Hlen' in Hrun. apply (IH _ _ _ Hadd' Hrun). rewrite Hlen'.
      assert (Hlt : (List.length pre < List.length charts)%nat).
      { apply nth_error_Some. congruence. }
      split; [rewrite replace_nth_length; lia|].
      intros j c. rewrite (nth_error_replace_nth _ _ _ _ _ Hn).
      destruct (Nat.eqb_spec j (List.length pre)) as [->|Hj].
      * intros [= <-]. destruct (Hcols _ _ Hn) as (a0 & col & cls & Hc & Hg & ->).
        rewrite Nat.ltb_irrefl, app_nil_r in Hc.
        exists a0, (col ++ [a])%list, cls.
        replace (Nat.ltb (List.length pre) (S (List.length pre))) with true
          by (symmetry; apply Nat.ltb_lt; lia).
        rewrite Hcell, Hc. split; [reflexivity|]. split; [assumption|].
        symmetry. apply column_chart_snoc.
      * intros Hc. destruct (Hcols _ _ Hc) as (a0 & col & cls & Hcol & Hg & ->).
        exists a0, col, cls. split; [|auto].
        rewrite <- Hcol. f_equal.
        destruct (Nat.ltb_spec j (List.length pre)), (Nat.ltb_spec j (S (List.length pre)));
          try reflexivity; lia.
    + destruct (plugin_get (ad_chart_plugin a)) as [cls|e] eqn:Hg; cbn [bind] in Hrun;
        [|discriminate].
      rewrite <- Hlen' in Hrun. apply (IH _ _ _ Hadd' Hrun). rewrite Hlen'.
      apply nth_error_None in Hn.
      assert (Hi : List.length charts = List.length pre) by lia.
      split; [rewrite length_app; cbn [List.length]; lia|].
      intros j c Hc.
      destruct (Nat.lt_ge_cases j (List.length charts)) as [Hj|Hj].
      * rewrite nth_error_app1 in Hc by assumption.
        destruct (Hcols _ _ Hc) as (a0 & col & cls0 & Hcol & Hg0 & ->).
        exists a0, col, cls0. split; [|auto].
        rewrite <- Hcol. f_equal.
        destruct (Nat.ltb_spec j (List.length pre)), (Nat.ltb_spec j (S (List.length pre)));
          try reflexivity; lia.
      * rewrite nth_error_app2 in Hc by assumption.
        destruct (j - List.length charts)%nat as [|k] eqn:Hk;
          [|destruct k; discriminate].
        injection Hc as <-.
        assert (j = List.length pre) by lia. subst j.
        exists a, [], cls.
        rewrite (column_beyond (List.length pre) done) by lia.
        replace (Nat.ltb (List.length pre) (S (List.length pre))) with true
          by (symmetry; apply Nat.ltb_lt; lia).
        rewrite Hcell. auto.
Qed.

Lemma add_additive_iteration (info : scenario_info) (done : list iteration)
  (itr : iteration) (charts charts' : list Chart) :
  add_additive info 0 (it_additive itr) charts = Ok charts' ->
  charts_after info done charts ->
  charts_after info (done ++ [itr]) charts'.
Proof.
  intros Hrun [Hlen Hcols].
  destruct (add_additive_columns info done (it_additive itr) (it_additive itr) []
              charts charts' eq_refl Hrun) as [Hlen' Hcols'].
  { split; [cbn [List.length]; lia|].
    intros j c Hc. destruct (Hcols _ _ Hc) as (a & col & cls & Hcol & Hg & ->).
    exists a, col, cls. cbn [List.length Nat.ltb Nat.leb]. rewrite app_nil_r. auto. }
  split; [now rewrite widest_app|].
  intros j c Hc. destruct (Hcols' _ _ Hc) as (a & col & cls & Hcol & Hg & ->).
  exists a, col, cls. split; [|auto]. rewrite column_app, <- Hcol. f_equal.
  destruct (Nat.ltb_spec j (List.length (it_additive itr))) as [Hj|Hj];
    [reflexivity|].
  unfold cell. apply nth_error_None in Hj. now rewrite Hj.
Qed.

Lemma process_iterations_additive (info : scenario_info) (itrs : list iteration) :
  forall done idx st st',
    process_iterations info idx itrs st = Ok st' ->
    charts_after info done (rs_additive st) ->
    charts_after info (done ++ itrs) (rs_additive st').
Proof.
  induction itrs as [|itr itrs IH]; intros done idx st st'; cbn [process_iterations].
  - intros [= <-]. now rewrite app_nil_r.
  - destruct (add_error _ _ _) as [errors|e]; cbn [bind]; [|discriminate].
    destruct (add_additive _ _ _ _) as [charts|e] eqn:Ha; cbn [bind]; [|discriminate].
    destruct (mapM complete_chart _) as [cs|e]; cbn [bind]; [|discriminate].
    intros Hp Hinv.
    replace (done ++ itr :: itrs)%list with ((done ++ [itr]) ++ itrs)%list
      by now rewrite <- app_assoc.
    apply (IH _ _ _ _ Hp). cbn [rs_additive].
    now apply add_additive_iteration with (charts := rs_additive st).
Qed.

(** X17: the additive charts of a report are the columns of the
    iterations' additive outputs: as many charts as the longest list of
    an iteration; the chart at index [i] is made from the first output
    that any iteration gives at that index, and is fed the outputs that
    the iterations give there, in the order of the iterations. *)
Theorem additive_charts_by_column (data : scenario_data) (pos : Z)
  (out : scenario_out) :
  _process_scenario data pos = Ok out ->
  List.length (so_additive_output out) = widest (sd_iterations data)
  /\ forall i a col,
       column i (sd_iterations data) = a :: col ->
       exists cls,
         plugin_get (ad_chart_plugin a) = Ok cls
         /\ nth_error (so_additive_output out) i
            = Some (render (column_chart (sd_info data) cls a col)).
Proof.
  intros Hp.
  destruct (process_scenario_ok _ _ _ Hp) as (st & Hst & _ & _ & Ha & _).
  apply (process_iterations_additive _ _ []) in Hst.
  2:{ split; [reflexivity|]. intros [|j] c; discriminate. }
  cbn [app] in Hst. destruct Hst as [Hlen Hcols].
  rewrite Ha, length_map. split; [assumption|].
  intros i a col Hcol.
  destruct (nth_error (rs_additive st) i) as [c|] eqn:Hn.
  - destruct (Hcols _ _ Hn) as (a' & col' & cls & Hcol' & Hg & ->).
    rewrite Hcol in Hcol'. injection Hcol' as <- <-.
    exists cls. split; [assumption|]. now rewrite nth_error_map, Hn.
  - apply nth_error_None in Hn. rewrite column_beyond in Hcol by lia.
    discriminate.
Qed.

End ScenarioFacts.

(** ** The report of all scenarios *)

(** *** The order of the sort keys *)

Ltac key_order :=
  match goal with
  | H : ?x <> ?x |- _ => now elim H
  | H : String.ltb ?a ?a = true |- _ => now rewrite str_ltb_irrefl in H
  | H1 : String.ltb ?a ?b = true, H2 : String.ltb ?b ?a = true |- _ =>
      now rewrite (str_ltb_asym _ _ H1) in H2
  | H1 : String.ltb ?a ?b = true, H2 : String.ltb ?b ?a = false |- _ =>
      now rewrite (str_ltb_asym _ _ H1) in H2
  | H1 : String.ltb ?a ?b = true, H2 : String.ltb ?b ?c = true
    |- String.ltb ?a ?c = true => exact (str_ltb_trans _ _ _ H1 H2)
  | H1 : String.ltb ?a ?b = false, H2 : String.ltb ?b ?a = false, H : ?a <> ?b |- _ =>
      now elim H; apply str_ltb_total
  | H1 : String.ltb ?a ?b = false, H2 : String.ltb ?b ?a = false, H : ?b <> ?a |- _ =>
      now elim H; apply str_ltb_total
  | |- String.ltb ?a ?b = false => now apply str_ltb_asym
  | _ => assumption
  | _ => lia
  end.

Lemma task_key_ltb_asym (a b : string * string * Z) :
  task_key_ltb a b = true -> task_key_ltb b a = false.
Proof.
  destruct a as [[c1 m1] p1], b as [[c2 m2] p2]. unfold task_key_ltb.
  destruct (String.eqb_spec c1 c2) as [->|Hc].
  - rewrite String.eqb_refl. destruct (String.eqb_spec m1 m2) as [->|Hm].
    + rewrite String.eqb_refl. rewrite Z.ltb_lt, Z.ltb_ge. lia.
    + destruct (String.eqb_spec m2 m1); [congruence|]. apply str_ltb_asym.
  - destruct (String.eqb_spec c2 c1); [congruence|]. apply str_ltb_asym.
Qed.

Lemma task_key_ltb_trans (a b c : string * string * Z) :
  task_key_ltb a b = true -> task_key_ltb b c = true -> task_key_ltb a c = true.
Proof.
  destruct a as [[c1 m1] p1], b as [[c2 m2] p2], c as [[c3 m3] p3].
  unfold task_key_ltb.
  destruct (String.eqb_spec c1 c2) as [->|H12];
    destruct (String.eqb_spec c2 c3) as [->|H23];
    try destruct (String.eqb_spec c1 c3) as [->|H13];
    try (intros H1 H2; key_order).
  destruct (String.eqb_spec m1 m2) as [->|M12];
    destruct (String.eqb_spec m2 m3) as [->|M23];
    try destruct (String.eqb_spec m1 m3) as [->|M13];
    intros H1 H2; key_order.
Qed.

Lemma task_key_ltb_total (a b : string * string * Z) :
  task_key_ltb a b = false -> task_key_ltb b a = false -> a = b.
Proof.
  destruct a as [[c1 m1] p1], b as [[c2 m2] p2]. unfold task_key_ltb.
  destruct (String.eqb_spec c1 c2) as [->|Hc].
  - rewrite String.eqb_refl. destruct (String.eqb_spec m1 m2) as [->|Hm].
    + rewrite String.eqb_refl, !Z.ltb_ge. intros. f_equal. lia.
    + destruct (String.eqb_spec m2 m1); [congruence|]. intros. key_order.
  - destruct (String.eqb_spec c2 c1); [congruence|]. intros. key_order.
Qed.

Lemma task_key_leb_trans (a b c : string * string * Z) :
  task_key_ltb b a = false -> task_key_ltb c b = false -> task_key_ltb c a = false.
Proof.
  intros Hab Hbc. destruct (task_key_ltb c a) eqn:Hca; [|reflexivity].
  rewrite (ltb_le_lt task_key_ltb task_key_ltb_trans task_key_ltb_total b a c Hbc Hca)
    in Hab.
  discriminate.
Qed.

Lemma map_snd_zip {A B : Type} (l : list A) (r : list B) :
  List.length l = List.length r -> map snd (zip l r) = r.
Proof.
  revert r. induction l as [|a l IH]; intros [|b r]; cbn; try discriminate;
    [reflexivity|].
  intros [= Hl]. now rewrite IH.
Qed.

Lemma map_fst_zip {A B : Type} (l : list A) (r : list B) :
  List.length l = List.length r -> map fst (zip l r) = l.
Proof.
  revert r. induction l as [|a l IH]; intros [|b r]; cbn; try discriminate;
    [reflexivity|].
  intros [= Hl]. now rewrite IH.
Qed.

Lemma positions_from_length `{ReportTypes} (scenarios : list scenario_data) :
  forall seen, List.length (positions_from seen scenarios) = List.length scenarios.
Proof.
  induction scenarios as [|s rest IH]; intros seen; cbn; [reflexivity|].
  now rewrite IH.
Qed.

Section TasksFacts.
Context `{ReportExtern}.

Lemma keyed_tasks (tasks : list scenario_out) (keys : list (string * string * Z)) :
  mapM task_key tasks = Ok keys ->
  Forall (fun kt => task_key (snd kt) = Ok (fst kt)) (zip keys tasks).
Proof.
  revert keys. induction tasks as [|t tasks IH]; intros keys; cbn [mapM].
  - intros [= <-]. constructor.
  - destruct (task_key t) as [k|e] eqn:Hk; cbn [bind]; [|discriminate].
    destruct (mapM task_key tasks) as [ks|e]; cbn [bind]; [|discriminate].
    intros [= <-]. cbn [zip]. constructor; [assumption|now apply IH].
Qed.

Lemma sorted_tasks_ok (tasks s : list scenario_out) (keys : list (string * string * Z)) :
  mapM task_key tasks = Ok keys ->
  NoDup keys ->
  sorted_tasks tasks = Ok s ->
  Permutation tasks s /\ StronglySorted task_before s.
Proof.
  unfold sorted_tasks. intros Hk Hnd. rewrite Hk. cbn [bind].
  destruct (Py.sorted _ (zip keys tasks)) as [keyed|e] eqn:Hs; cbn [bind];
    [|discriminate].
  intros [= <-].
  pose proof (sorted_Permutation _ _ _ Hs) as Hp.
  pose proof (mapM_length _ _ _ Hk) as Hlen.
  split.
  - rewrite <- (map_snd_zip keys tasks) at 1 by assumption.
    now apply Permutation_map.
  - assert (Hall : Forall (fun kt => task_key (snd kt) = Ok (fst kt)) keyed).
    { apply (Permutation_Forall Hp). now apply keyed_tasks. }
    assert (Hnd' : NoDup (map fst keyed)).
    { apply (Permutation_NoDup (l := map fst (zip keys tasks)));
        [now apply Permutation_map|].
      now rewrite map_fst_zip. }
    apply (sorted_StronglySorted _
             (fun a b : string * string * Z * scenario_out =>
                task_key_ltb (fst b) (fst a) = false)) in Hs.
    + clear - Hs Hall Hnd'. induction Hs as [|kt keyed Hs IH Hle]; [constructor|].
      inversion Hall as [|? ? Hkt Hall']; subst.
      cbn [map] in *. apply NoDup_cons_iff in Hnd'. destruct Hnd' as [Hni Hnd'].
      constructor; [now apply IH|].
      rewrite Forall_forall in *. intros t Ht.
      apply in_map_iff in Ht. destruct Ht as (kt' & <- & Hin).
      exists (fst kt), (fst kt'). split; [assumption|]. split; [auto|].
      destruct (task_key_ltb (fst kt) (fst kt')) eqn:Hlt; [reflexivity|].
      elim Hni. rewrite (task_key_ltb_total _ _ Hlt (Hle _ Hin)).
      now apply in_map.
    + intros a b c. apply task_key_leb_trans.
    + intros a b [= Hab]. now apply task_key_ltb_asym.
    + intros a b [= Hab]. exact Hab.
Qed.

Lemma sorted_tasks_returns (tasks : list scenario_out) :
  (forall t, In t tasks -> exists k, task_key t = Ok k) ->
  exists s, sorted_tasks tasks = Ok s.
Proof.
  intros Hk. unfold sorted_tasks.
  destruct (mapM_ok_all _ _ Hk) as [keys ->]. cbn [bind].
  rewrite sorted_total_isort. cbn [bind]. eauto.
Qed.

(** The loop over the scenarios, seen from the positions. *)
Lemma position_counts (names : list string) (name0 : string) (position : Dict.t Z) :
  (forall name,
      match Dict.get name position with Some p => p | None => -1 end
      = Z.of_nat (count_occ string_dec names name) - 1) ->
  forall name,
    match Dict.get name
            (Dict.set name0 (Z.of_nat (count_occ string_dec names name0)) position)
    with Some p => p | None => -1 end
    = Z.of_nat (count_occ string_dec (name0 :: names) name) - 1.
Proof.
  intros Hinv name. destruct (String.eqb_spec name name0) as [->|Hn].
  - rewrite dict_get_set_same, count_occ_cons_eq by reflexivity. lia.
  - rewrite dict_get_set_other by assumption.
    rewrite count_occ_cons_neq by congruence. apply Hinv.
Qed.

Lemma process_each_tasks (rest : list scenario_data) :
  forall names st,
    (forall name,
        match Dict.get name (ts_position st) with Some p => p | None => -1 end
        = Z.of_nat (count_occ string_dec names name) - 1) ->
    match process_each rest st,
          mapM (fun sp => _process_scenario (fst sp) (snd sp))
            (zip rest (positions_from names rest)) with
    | Ok st', Ok outs => ts_tasks st' = (ts_tasks st ++ outs)%list
    | Raise e, Raise e' => e = e'
    | _, _ => False
    end.
Proof.
  induction rest as [|s rest IH]; intros names st Hinv;
    cbn [process_each positions_from zip mapM].
  - now rewrite app_nil_r.
  - rewrite Hinv.
    replace (Z.of_nat (count_occ string_dec names (sd_key_name s)) - 1 + 1)
      with (Z.of_nat (count_occ string_dec names (sd_key_name s))) by lia.
    cbn [fst snd].
    destruct (_process_scenario s _) as [task|e]; cbn [bind]; [|reflexivity].
    match goal with
    | |- context [process_each rest ?st1] =>
        specialize (IH (sd_key_name s :: names) st1
                      (position_counts _ _ _ Hinv))
    end.
    cbn [ts_tasks] in IH.
    destruct (process_each rest _) as [st'|e];
      destruct (mapM _ (zip rest _)) as [outs|e']; cbn [bind]; try exact IH.
    rewrite IH. now rewrite <- app_assoc.
Qed.

(** The loop over the scenarios, seen from the configurations. *)
Lemma process_each_source (rest : list scenario_data) :
  forall done st st',
    process_each rest st = Ok st' ->
    (forall name,
        Dict.get name (ts_source_dict st)
        = match configs_of name done with [] => None | l => Some l end) ->
    forall name,
      Dict.get name (ts_source_dict st')
      = match configs_of name (done ++ rest) with [] => None | l => Some l end.
Proof.
  induction rest as [|s rest IH]; intros done st st'; cbn [process_each].
  - intros [= <-] Hinv. now rewrite app_nil_r.
  - destruct (_process_scenario s _) as [task|e]; cbn [bind]; [|discriminate].
    intros Hp Hinv.
    replace (done ++ s :: rest)%list with ((done ++ [s]) ++ rest)%list
      by now rewrite <- app_assoc.
    apply (IH _ _ _ Hp). cbn [ts_source_dict]. intros name.
    unfold configs_of. rewrite filter_app, map_app. cbn [filter].
    fold (configs_of name done). fold (configs_of (sd_key_name s) done).
    destruct (String.eqb_spec (sd_key_name s) name) as [<-|Hn].
    + rewrite dict_get_set_same, Hinv. cbn [map].
      destruct (configs_of (sd_key_name s) done); reflexivity.
    + rewrite dict_get_set_other by congruence.
      cbn [map]. now rewrite app_nil_r.
Qed.

Lemma process_tasks_ok (rs : list scenario_data) (source : string)
  (tasks : list scenario_out) :
  _process_tasks rs = Ok (source, tasks) ->
  exists st outs,
    process_each rs {| ts_tasks := []; ts_source_dict := []; ts_position := [] |}
    = Ok st
    /\ mapM (fun sp => _process_scenario (fst sp) (snd sp)) (positioned rs) = Ok outs
    /\ ts_tasks st = outs
    /\ dumps_source (ts_source_dict st) = Ok source
    /\ sorted_tasks outs = Ok tasks.
Proof.
  unfold _process_tasks, positioned.
  pose proof (process_each_tasks rs []
                {| ts_tasks := []; ts_source_dict := []; ts_position := [] |}) as He.
  destruct (process_each rs _) as [st|e]; cbn [bind]; [|discriminate].
  destruct (mapM _ (zip rs _)) as [outs|e']; [|now destruct He].
  cbn [ts_tasks app] in He. specialize (He (fun _ => eq_refl)).
  destruct (dumps_source _) as [src|e] eqn:Hd; cbn [bind]; [|discriminate].
  destruct (sorted_tasks _) as [ts|e] eqn:Hs; cbn [bind]; [|discriminate].
  intros [= <- <-]. exists st, outs. subst outs. auto.
Qed.

(** *** Positions and keys *)

Lemma positions_lower_bound (rest : list scenario_data) :
  forall names s p,
    In (s, p) (zip rest (positions_from names rest)) ->
    Z.of_nat (count_occ string_dec names (sd_key_name s)) <= p.
Proof.
  induction rest as [|s0 rest IH]; intros names s p; cbn [positions_from zip];
    [intros []|].
  intros [[= <- <-]|Hin]; [lia|].
  apply IH in Hin.
  destruct (string_dec (sd_key_name s0) (sd_key_name s)) as [He|Hne].
  - rewrite count_occ_cons_eq in Hin by assumption. lia.
  - rewrite count_occ_cons_neq in Hin by assumption. exact Hin.
Qed.

Lemma positions_NoDup (rest : list scenario_data) :
  forall names,
    NoDup (map (fun sp : scenario_data * Z => (sd_key_name (fst sp), snd sp))
             (zip rest (positions_from names rest))).
Proof.
  induction rest as [|s rest IH]; intros names; cbn [positions_from zip map];
    constructor; [|apply IH].
  intros Hin. apply in_map_iff in Hin. destruct Hin as ([s' p'] & Heq & Hin).
  cbn [fst snd] in Heq. injection Heq as Hname Hp.
  apply positions_lower_bound in Hin.
  rewrite Hname, count_occ_cons_eq in Hin by reflexivity. lia.
Qed.

Lemma mapM_Forall2 {A B : Type} (f : A -> result B) (l : list A) (r : list B) :
  mapM f l = Ok r -> Forall2 (fun x y => f x = Ok y) l r.
Proof.
  revert r. induction l as [|x l IH]; intros r; cbn [mapM].
  - intros [= <-]. constructor.
  - destruct (f x) as [y|e] eqn:Hx; cbn [bind]; [|discriminate].
    destruct (mapM f l) as [r'|e]; cbn [bind]; [|discriminate].
    intros [= <-]. constructor; [assumption|now apply IH].
Qed.

Lemma mapM_ok_each {A B : Type} (f : A -> result B) (l : list A) (r : list B) :
  mapM f l = Ok r -> forall x, In x l -> exists y, f x = Ok y.
Proof.
  intros Hm. apply mapM_Forall2 in Hm.
  induction Hm as [|x y l r Hx _ IH]; intros x' []; subst; eauto.
Qed.

Lemma scenario_key (s : scenario_data) (p : Z) (out : scenario_out) :
  _process_scenario s p = Ok out ->
  task_key out = Ok (so_cls out, so_met out, p)
  /\ sd_key_name s = so_cls out ++ "." ++ so_met out.
Proof.
  intros Hp.
  destruct (process_scenario_ok _ _ _ Hp)
    as (st & _ & Hs & _ & _ & _ & _ & _ & _ & _ & _ & _ & _ & Hpos & _).
  split.
  - unfold task_key. now rewrite Hpos, int_of_str_int.
  - rewrite <- (join_split "." (sd_key_name s)), Hs. reflexivity.
Qed.

Lemma scenario_keys (l : list (scenario_data * Z)) (outs : list scenario_out) :
  mapM (fun sp => _process_scenario (fst sp) (snd sp)) l = Ok outs ->
  exists keys,
    mapM task_key outs = Ok keys
    /\ map (fun k : string * string * Z => (fst (fst k) ++ "." ++ snd (fst k), snd k)) keys
       = map (fun sp : scenario_data * Z => (sd_key_name (fst sp), snd sp)) l.
Proof.
  intros Hm. apply mapM_Forall2 in Hm.
  induction Hm as [|[s p] out l outs Ho _ IH]; [exists []; split; reflexivity|].
  destruct IH as (keys & Hk & Hmap). cbn [fst snd] in Ho.
  destruct (scenario_key _ _ _ Ho) as [Hkey Hname].
  exists ((so_cls out, so_met out, p) :: keys). cbn [mapM map fst snd].
  rewrite Hkey, Hk, Hmap, Hname. split; reflexivity.
Qed.

Lemma in_zip_fst {A B : Type} (l : list A) (r : list B) (x : A) :
  List.length l = List.length r -> In x l -> exists y, In (x, y) (zip l r).
Proof.
  revert r. induction l as [|a l IH]; intros [|b r]; cbn [List.length zip];
    try discriminate; [intros _ []|].
  intros [= Hl] [->|Hin]; [exists b; now left|].
  destruct (IH _ Hl Hin) as [y Hy]. exists y. now right.
Qed.

(** X18: the tasks of a report are the reports of the scenarios, each at
    the position that counts the earlier scenarios of its name, in
    strictly ascending order of class, method and position: no two tasks
    share a sort key. *)
Theorem tasks_sorted_by_key (rs : list scenario_data) (source : string)
  (tasks : list scenario_out) :
  _process_tasks rs = Ok (source, tasks) ->
  exists outs,
    mapM (fun sp => _process_scenario (fst sp) (snd sp)) (positioned rs) = Ok outs
    /\ Permutation outs tasks
    /\ StronglySorted task_before tasks.
Proof.
  intros Hp. destruct (process_tasks_ok _ _ _ Hp) as (st & outs & _ & Hm & _ & _ & Hs).
  exists outs. split; [assumption|].
  destruct (scenario_keys _ _ Hm) as (keys & Hk & Hmap).
  apply (sorted_tasks_ok _ _ keys); [assumption| |assumption].
  apply (NoDup_map_inv (fun k : string * string * Z =>
                          (fst (fst k) ++ "." ++ snd (fst k), snd k))).
  rewrite Hmap. apply positions_NoDup.
Qed.

(** X20: the configurations that [_process_tasks] dumps are grouped by
    scenario name: under each name, the configurations of the scenarios
    of that name in their order; no other name is present. *)
Theorem source_grouped_by_name (rs : list scenario_data) (source : string)
  (tasks : list scenario_out) :
  _process_tasks rs = Ok (source, tasks) ->
  exists d,
    dumps_source d = Ok source
    /\ forall name,
         Dict.get name d
         = match configs_of name rs with [] => None | l => Some l end.
Proof.
  intros Hp. destruct (process_tasks_ok _ _ _ Hp) as (st & outs & He & _ & _ & Hd & _).
  exists (ts_source_dict st). split; [assumption|].
  apply (process_each_source rs [] _ _ He). reflexivity.
Qed.

(** X21: one scenario whose name does not hold exactly one dot makes
    [_process_tasks] raise: no report is made of the others. *)
Theorem bad_name_aborts_report (rs : list scenario_data) (s : scenario_data) :
  In s rs ->
  count_dots (sd_key_name s) <> 1%nat ->
  exists e, _process_tasks rs = Raise e.
Proof.
  intros Hin Hn. destruct (_process_tasks rs) as [[source tasks]|e] eqn:Hp; [|eauto].
  destruct (process_tasks_ok _ _ _ Hp) as (st & outs & _ & Hm & _).
  destruct (in_zip_fst rs (positions_from [] rs) s) as [p Hsp];
    [now rewrite positions_from_length|assumption|].
  destruct (_process_scenario s p) as [out|e] eqn:Ho.
  - destruct (process_scenario_ok _ _ _ Ho) as (st' & _ & Hs & _).
    pose proof (split_length (sd_key_name s)) as Hl. rewrite Hs in Hl.
    cbn in Hl. congruence.
  - destruct (mapM_In_raises (fun sp => _process_scenario (fst sp) (snd sp))
                (positioned rs) (s, p) e Hsp Ho) as [e' He'].
    congruence.
Qed.

End TasksFacts.

(** *** The dictionary of configurations *)

Lemma first_seen_snoc (l : list string) (x : string) :
  first_seen (l ++ [x]) = see (first_seen l) x.
Proof. unfold first_seen. now rewrite fold_left_app. Qed.

Lemma fold_see_In (l seen : list string) (x : string) :
  In x (fold_left see l seen) <-> In x seen \/ In x l.
Proof.
  revert seen. induction l as [|k l IH]; intros seen; cbn [fold_left].
  - cbn. tauto.
  - rewrite IH. unfold see.
    destruct (existsb (String.eqb k) seen) eqn:He.
    + apply existsb_exists in He. destruct He as (k' & Hin & Hk).
      apply String.eqb_eq in Hk. subst k'. cbn [In]. intuition (subst; auto).
    + rewrite in_app_iff. cbn [In]. tauto.
Qed.

Lemma first_seen_In (l : list string) (x : string) :
  In x (first_seen l) <-> In x l.
Proof. unfold first_seen. rewrite fold_see_In. cbn. tauto. Qed.

Lemma existsb_eqb_In (x : string) (l : list string) :
  existsb (String.eqb x) l = true <-> In x l.
Proof.
  rewrite existsb_exists. split.
  - intros (y & Hin & Hy). apply String.eqb_eq in Hy. now subst.
  - intros Hin. exists x. split; [assumption|apply String.eqb_refl].
Qed.

Section KeyedMap.
Context {V : Type} (f : string -> V).

Lemma dict_get_keyed (k : string) (keys : list string) :
  Dict.get k (map (fun n => (n, f n)) keys)
  = if existsb (String.eqb k) keys then Some (f k) else None.
Proof.
  induction keys as [|n keys IH]; cbn [map Dict.get existsb]; [reflexivity|].
  destruct (String.eqb_spec k n) as [->|Hn]; [reflexivity|exact IH].
Qed.

Lemma dict_set_keyed_absent (k : string) (v : V) (keys : list string) :
  ~ In k keys ->
  Dict.set k v (map (fun n => (n, f n)) keys)
  = (map (fun n => (n, f n)) keys ++ [(k, v)])%list.
Proof.
  induction keys as [|n keys IH]; cbn [map Dict.set app In]; [reflexivity|].
  intros Hni. destruct (String.eqb_spec k n) as [->|Hn]; [tauto|].
  rewrite IH by tauto. reflexivity.
Qed.

Lemma dict_set_keyed_present (k : string) (v : V) (keys : list string) :
  NoDup keys -> In k keys ->
  Dict.set k v (map (fun n => (n, f n)) keys)
  = map (fun n => (n, if String.eqb n k then v else f n)) keys.
Proof.
  induction 1 as [|n keys Hni Hnd IH]; cbn [map Dict.set In]; [intros []|].
  intros Hin. destruct (String.eqb_spec k n) as [->|Hn].
  - rewrite String.eqb_refl. f_equal. apply map_ext_in. intros m Hm.
    destruct (String.eqb_spec m n) as [->|]; [tauto|reflexivity].
  - destruct (String.eqb_spec n k) as [->|_]; [congruence|].
    rewrite IH by (destruct Hin; [congruence|assumption]). reflexivity.
Qed.

End KeyedMap.

Section SourceDict.
Context `{ReportExtern}.

Lemma configs_of_snoc (name : string) (done : list scenario_data) (s : scenario_data) :
  configs_of name (done ++ [s])
  = (configs_of name done
     ++ if String.eqb (sd_key_name s) name then [sd_key_kw s] else [])%list.
Proof.
  unfold configs_of. rewrite filter_app, map_app. cbn [filter].
  destruct (String.eqb (sd_key_name s) name); reflexivity.
Qed.

Lemma configs_of_absent (name : string) (done : list scenario_data) :
  ~ In name (map sd_key_name done) -> configs_of name done = [].
Proof.
  unfold configs_of. induction done as [|s done IH]; cbn [map filter In];
    [reflexivity|].
  intros Hni. destruct (String.eqb_spec (sd_key_name s) name) as [He|_]; [tauto|].
  apply IH. tauto.
Qed.

Lemma grouped_configs_snoc (done : list scenario_data) (s : scenario_data) :
  Dict.set (sd_key_name s)
    (match Dict.get (sd_key_name s) (grouped_configs done) with
     | Some l => l
     | None => []
     end ++ [sd_key_kw s])%list
    (grouped_configs done)
  = grouped_configs (done ++ [s]).
Proof.
  unfold grouped_configs. rewrite dict_get_keyed, map_app. cbn [map].
  rewrite first_seen_snoc. unfold see.
  destruct (existsb (String.eqb (sd_key_name s)) (first_seen (map sd_key_name done)))
    eqn:He.
  - apply existsb_eqb_In in He.
    rewrite dict_set_keyed_present;
      [|apply fold_see_NoDup; constructor|assumption].
    apply map_ext. intros name. rewrite configs_of_snoc.
    rewrite (String.eqb_sym name).
    destruct (String.eqb_spec (sd_key_name s) name) as [->|_];
      [reflexivity|now rewrite app_nil_r].
  - assert (Hni : ~ In (sd_key_name s) (first_seen (map sd_key_name done))).
    { intros Hin. apply existsb_eqb_In in Hin. congruence. }
    rewrite dict_set_keyed_absent by assumption.
    rewrite map_app. cbn [map]. f_equal.
    + apply map_ext_in. intros name Hin. rewrite configs_of_snoc.
      destruct (String.eqb_spec (sd_key_name s) name) as [<-|_]; [tauto|].
      now rewrite app_nil_r.
    + rewrite configs_of_snoc, String.eqb_refl.
      rewrite configs_of_absent; [reflexivity|].
      now rewrite <- first_seen_In.
Qed.

Lemma process_each_grouped (rest : list scenario_data) :
  forall done st st',
    process_each rest st = Ok st' ->
    ts_source_dict st = grouped_configs done ->
    ts_source_dict st' = grouped_configs (done ++ rest).
Proof.
  induction rest as [|s rest IH]; intros done st st'; cbn [process_each].
  - intros [= <-] Hinv. now rewrite app_nil_r.
  - destruct (_process_scenario s _) as [task|e]; cbn [bind]; [|discriminate].
    intros Hp Hinv.
    replace (done ++ s :: rest)%list with ((done ++ [s]) ++ rest)%list
      by now rewrite <- app_assoc.
    apply (IH _ _ _ Hp). cbn [ts_source_dict]. rewrite Hinv.
    apply grouped_configs_snoc.
Qed.

(** X19: sorting the tasks never raises: as soon as every scenario can be
    reported at its position and the dictionary of the configurations can
    be dumped, [_process_tasks] returns what was dumped and the tasks. *)
Theorem process_tasks_returns (rs : list scenario_data) (outs : list scenario_out)
  (source : string) :
  mapM (fun sp => _process_scenario (fst sp) (snd sp)) (positioned rs) = Ok outs ->
  dumps_source (grouped_configs rs) = Ok source ->
  exists tasks, _process_tasks rs = Ok (source, tasks).
Proof.
  intros Hm Hd. unfold _process_tasks.
  pose proof (process_each_tasks rs []
                {| ts_tasks := []; ts_source_dict := []; ts_position := [] |}
                (fun _ => eq_refl)) as He.
  fold (positioned rs) in He. rewrite Hm in He.
  destruct (process_each rs _) as [st|e] eqn:Hst; [|now destruct He].
  cbn [bind ts_tasks app] in *.
  rewrite (process_each_grouped rs [] _ _ Hst eq_refl). cbn [app].
  rewrite Hd. cbn [bind]. rewrite He.
  destruct (scenario_keys _ _ Hm) as (keys & Hk & _).
  destruct (sorted_tasks_returns outs) as [tasks ->]; [|cbn [bind]; eauto].
  now apply (mapM_ok_each _ _ _ Hk).
Qed.

End SourceDict.


(** ** The report on concrete scenarios *)

Section ReportWitnesses.

#[local] Existing Instance log_types.
#[local] Existing Instance log_extern.

Lemma scenario_name_parts_witness :
  _process_scenario (sample_scenario "Nova.boot") 2 = Ok sample_report
  /\ sd_key_name (sample_scenario "Nova.boot")
     = so_cls sample_report ++ "." ++ so_met sample_report
  /\ int_of_str (so_pos sample_report) = Some 2
  /\ so_name sample_report = so_met sample_report ++ " [" ++ Py.str_int 3 ++ "]".
Proof.
  split; [vm_compute; reflexivity|].
  destruct (scenario_name_parts (sample_scenario "Nova.boot") 2 sample_report)
    as (Hn & _ & _ & _ & Hi & Hd); [vm_compute; reflexivity|].
  split; [exact Hn|]. split; [exact Hi|exact Hd].
Defined.

Lemma scenario_name_needs_one_dot_witness :
  count_dots (sd_key_name (sample_scenario "Nova.boot.again")) <> 1%nat
  /\ exists e, _process_scenario (sample_scenario "Nova.boot.again") 0 = Raise e.
Proof.
  split; [vm_compute; discriminate|].
  apply scenario_name_needs_one_dot. vm_compute. discriminate.
Defined.

Lemma scenario_errors_witness :
  _process_scenario (sample_scenario "Nova.boot") 2 = Ok sample_report
  /\ so_errors sample_report
     = error_entries 1 (sd_iterations (sample_scenario "Nova.boot"))
  /\ so_iterations_pie sample_report = [("success", 2); ("errors", 1)].
Proof.
  split; [vm_compute; reflexivity|].
  destruct (scenario_errors (sample_scenario "Nova.boot") 2 sample_report)
    as (He & _ & _ & _ & Hp & _); [vm_compute; reflexivity|].
  split; [exact He|exact Hp].
Defined.

Lemma main_charts_fed_witness :
  _process_scenario (sample_scenario "Nova.boot") 2 = Ok sample_report
  /\ so_table sample_report = fed MainStatsTable (sample_scenario "Nova.boot")
  /\ so_load_profile sample_report
     = fed LoadProfileChart (sample_scenario "Nova.boot").
Proof.
  split; [vm_compute; reflexivity|].
  destruct (main_charts_fed (sample_scenario "Nova.boot") 2 sample_report)
    as (_ & _ & Ht & Hl & _); [vm_compute; reflexivity|].
  split; [exact Ht|exact Hl].
Defined.

Lemma complete_output_per_iteration_witness :
  _process_scenario (sample_scenario "Nova.boot") 2 = Ok sample_report
  /\ Forall2 (fun itr charts => Forall2 widget_of (it_complete itr) charts)
       (sd_iterations (sample_scenario "Nova.boot"))
       (so_complete_output sample_report).
Proof.
  split; [vm_compute; reflexivity|].
  apply (complete_output_per_iteration (sample_scenario "Nova.boot") 2 sample_report).
  vm_compute. reflexivity.
Defined.

Lemma additive_charts_by_column_witness :
  _process_scenario (sample_scenario "Nova.boot") 2 = Ok sample_report
  /\ List.length (so_additive_output sample_report) = 2%nat
  /\ exists cls,
       plugin_get "Lines" = Ok cls
       /\ nth_error (so_additive_output sample_report) 0
          = Some (render (column_chart (sd_info (sample_scenario "Nova.boot")) cls
                            (sample_additive "a" "1") [sample_additive "a" "2"])).
Proof.
  split; [vm_compute; reflexivity|].
  destruct (additive_charts_by_column (sample_scenario "Nova.boot") 2 sample_report)
    as [Hl Hc]; [vm_compute; reflexivity|].
  split; [exact Hl|].
  apply (Hc 0%nat (sample_additive "a" "1") [sample_additive "a" "2"]).
  vm_compute. reflexivity.
Defined.

Lemma tasks_sorted_by_key_witness :
  _process_tasks sample_scenarios = Ok ("", sample_tasks)
  /\ exists outs,
       mapM (fun sp => _process_scenario (fst sp) (snd sp))
         (positioned sample_scenarios) = Ok outs
       /\ Permutation outs sample_tasks
       /\ StronglySorted task_before sample_tasks.
Proof.
  split; [vm_compute; reflexivity|].
  apply (tasks_sorted_by_key sample_scenarios "" sample_tasks).
  vm_compute. reflexivity.
Defined.

Lemma process_tasks_returns_witness :
  mapM (fun sp => _process_scenario (fst sp) (snd sp))
    (positioned sample_scenarios) = Ok sample_outs
  /\ dumps_source (grouped_configs sample_scenarios) = Ok ""
  /\ exists tasks, _process_tasks sample_scenarios = Ok ("", tasks).
Proof.
  split; [vm_compute; reflexivity|]. split; [reflexivity|].
  apply (process_tasks_returns sample_scenarios sample_outs "");
    [vm_compute; reflexivity|reflexivity].
Defined.

Lemma source_grouped_by_name_witness :
  _process_tasks sample_scenarios = Ok ("", sample_tasks)
  /\ exists d,
       dumps_source d = Ok ""
       /\ forall name,
            Dict.get name d
            = match configs_of name sample_scenarios with
              | [] => None
              | l => Some l
              end.
Proof.
  split; [vm_compute; reflexivity|].
  apply (source_grouped_by_name sample_scenarios "" sample_tasks).
  vm_compute. reflexivity.
Defined.

Lemma bad_name_aborts_report_witness :
  In (sample_scenario "Nova.boot.again") bad_scenarios
  /\ count_dots (sd_key_name (sample_scenario "Nova.boot.again")) <> 1%nat
  /\ exists e, _process_tasks bad_scenarios = Raise e.
Proof.
  assert (Hin : In (sample_scenario "Nova.boot.again") bad_scenarios)
    by (right; left; reflexivity).
  assert (Hn : count_dots (sd_key_name (sample_scenario "Nova.boot.again")) <> 1%nat)
    by (vm_compute; discriminate).
  split; [exact Hin|]. split; [exact Hn|].
  exact (bad_name_aborts_report bad_scenarios _ Hin Hn).
Defined.

End ReportWitnesses.

Lemma canonicalization_conflates_witness :
  forall_chars Py.isspace "  " = true
  /\ _to_str (PScalar (SStr "  ")) = Ok "".
Proof.
  destruct (@canonicalization_conflates reference_extern) as (_ & _ & _ & _ & _ & Hs).
  split; [reflexivity|]. apply Hs. reflexivity.
Defined.
